(** * deep_motion_planner: the control loop of [DeepMotionPlanner]

    A shallow embedding of
    [deep_motion_planner/python/deep_motion_planner/deep_motion_planner.py]
    and the properties of its scan preprocessing, relative-target
    computation, goal check and fixed-frequency loop.

    The floats of the messages (scans, poses, velocities) are idealised as
    rationals ([Q]); the clock of the loop (what [time.time()] reads, the
    deadline, the frequency, the sleeps) is in binary64 floats, as the code
    adds and compares them; Python ints are [Z]; lists are [list].  The
    attributes of [self], the status of the action
    server and everything the node emits (log lines, feedback, commands,
    sleeps, calls of the inference engine) are threaded through a small
    state-and-exception monad. *)

From Stdlib Require Import PrimFloat FloatOps.
From Stdlib Require Import String DecimalString Bool ZArith QArith Qabs Lia List.
Import ListNotations.

(** ** Python values: exceptions, slices *)

Module Py.

(** The exceptions the modelled code can meet. *)
Inductive Exc : Type :=
| ValueError          (* slice step cannot be zero *)
| ZeroDivisionError   (* float division by zero *)
| AttributeError      (* attribute access on None *)
| RuntimeError (msg : string).   (* anything raised by a collaborator *)

Section Slices.
Variable A : Type.

(** How a slice bound is brought into [0, len]: a negative bound counts
    from the end. *)
Definition clamp (len i : Z) : Z :=
  if (i <? 0)%Z then Z.max (i + len) 0 else Z.min i len.

(** [l[start:stop]] *)
Definition slice (l : list A) (start stop : Z) : list A :=
  let len := Z.of_nat (length l) in
  let lo := clamp len start in
  let hi := clamp len stop in
  firstn (Z.to_nat (hi - lo)) (skipn (Z.to_nat lo) l).

(** The elements at positions [c], [c + k], [c + 2k], ... of [l];
    [k] is the step less one. *)
Fixpoint every (k c : nat) (l : list A) : list A :=
  match l with
  | [] => []
  | x :: t =>
      match c with
      | O => x :: every k k t
      | S c' => every k c' t
      end
  end.

(** [l[::step]]: a zero step raises, a negative one walks from the last
    element backwards. *)
Definition step_slice (l : list A) (step : Z) : Exc + list A :=
  if (step =? 0)%Z then inl ValueError
  else if (0 <? step)%Z then inr (every (Z.to_nat step - 1) 0 l)
  else inr (every (Z.to_nat (- step) - 1) 0 (rev l)).

End Slices.

Arguments slice {A} l start stop.
Arguments every {A} k c l.
Arguments step_slice {A} l step.

(** [a / b] on the floats of the clock: a divisor equal to zero, of either
    sign, raises. *)
Definition truediv (a b : float) : Exc + float :=
  if (b =? 0)%float then inl ZeroDivisionError else inr (a / b)%float.

(** The number that a float of the clock is; none for an infinity or a NaN. *)
Definition number (x : float) : option Q :=
  match Prim2SF x with
  | SpecFloat.S754_zero _ => Some 0%Q
  | SpecFloat.S754_finite negative m e =>
      let magnitude := (inject_Z (Zpos m) * 2 ^ e)%Q in
      Some (if negative then (- magnitude)%Q else magnitude)
  | _ => None
  end.

(** [a < b] on the floats of the messages. *)
Definition ltb (a b : Q) : bool := negb (Qle_bool b a).

(** ["{0}".format(n)] for an int. *)
Definition str (n : Z) : string := NilZero.string_of_int (Z.to_int n).

End Py.

(** ** Messages *)

Module Msg.

Record Vector3 : Type := { x : Q; y : Q; z : Q }.

Record Quaternion : Type := { qx : Q; qy : Q; qz : Q; qw : Q }.

Record Pose : Type := { position : Vector3; orientation : Quaternion }.

Record Header : Type := { stamp : Q; frame_id : string }.

Record PoseStamped : Type := { header : Header; pose : Pose }.

Record MoveBaseGoal : Type := { target_pose : PoseStamped }.

Record MoveBaseFeedback : Type := { base_position : PoseStamped }.

Record Twist : Type := { linear : Vector3; angular : Vector3 }.

Record LaserScan : Type := { ranges : list Q }.

End Msg.

(** ** Quaternions and transforms *)

Module Tf.

(** A quaternion as the array [x, y, z, w]. *)
Definition quaternion : Type := (Q * Q * Q * Q)%type.

(** Modelled from the spec: [tf.transformations] is not among the sources;
    this is the product [⊗] of section 4.2 on [x, y, z, w] arrays, first
    argument on the left. *)
Definition quaternion_multiply (quaternion1 quaternion0 : quaternion) : quaternion :=
  let '(x0, y0, z0, w0) := quaternion0 in
  let '(x1, y1, z1, w1) := quaternion1 in
  (  x1 * w0 + y1 * z0 - z1 * y0 + w1 * x0,
   - x1 * z0 + y1 * w0 + z1 * x0 + w1 * y0,
     x1 * y0 - y1 * x0 + z1 * w0 + w1 * z0,
   - x1 * x0 - y1 * y0 - z1 * z0 + w1 * w0).

Definition quaternion_conjugate (q : quaternion) : quaternion :=
  let '(x, y, z, w) := q in (- x, - y, - z, w).

(** Modelled from the spec: the inverse [q⁻¹] of section 4.2, the
    conjugate over the squared norm. *)
Definition quaternion_inverse (q : quaternion) : quaternion :=
  let '(x, y, z, w) := q in
  let n := x * x + y * y + z * z + w * w in
  let '(cx, cy, cz, cw) := quaternion_conjugate q in
  (cx / n, cy / n, cz / n, cw / n).

(** What [lookupTransform] raises (spec, section 6). *)
Inductive TransformError : Type :=
| LookupException          (* unknown frame *)
| ConnectivityException    (* no connectivity path *)
| ExtrapolationException.  (* requested time out of buffered range *)

(** The translation and the rotation [lookupTransform] returns. *)
Definition transform : Type := ((Q * Q * Q) * quaternion)%type.

(** Componentwise equality of quaternions as numbers. *)
Definition quaternion_eq (a b : quaternion) : Prop :=
  let '(ax, ay, az, aw) := a in
  let '(bx, by_, bz, bw) := b in
  ax == bx /\ ay == by_ /\ az == bz /\ aw == bw.

End Tf.

(** ** The state of the node and what it emits *)

(** Modelled from the spec: the action server ([actionlib]) is not among the
    sources; its status is the goal state of section 3. *)
Inductive GoalState : Type := Idle | Active | Preempted | Succeeded.

(** The attributes of [self] that the control loop and the callbacks use;
    [_as] is the status of the action server. *)
Record DeepMotionPlanner : Type := {
  target_pose : option Msg.MoveBaseGoal;
  last_scan : option Msg.LaserScan;
  freq : float;
  laser_scan_stride : Z;
  n_laser_scans : Z;
  _as : GoalState
}.

(** Everything the node does to the outside, in the order it does it. *)
Inductive Event : Type :=
| sleep (secs : float)                                (* time.sleep *)
| logerr (msg : string)                               (* rospy.logerr *)
| logdebug (msg : string)                             (* rospy.logdebug *)
| publish_feedback (feedback : Msg.MoveBaseFeedback)  (* self._as.publish_feedback *)
| inference (input_data : list Q)                     (* the call of tf_wrapper.inference *)
| publish (cmd : Msg.Twist).                          (* self.cmd_pub.publish *)

(** The world of the processing thread: the node, the local [next_call] of
    [processing_data] and the events so far. *)
Record World : Type := {
  self : DeepMotionPlanner;
  next_call : float;
  out : list Event
}.

(** A computation returns a value or raises, in both cases in a world. *)
Inductive Result (A : Type) : Type :=
| Returns (a : A) (w : World)
| Raises (e : Py.Exc) (w : World).

Arguments Returns {A} a w.
Arguments Raises {A} e w.

Definition M (A : Type) : Type := World -> Result A.

Definition ret {A} (a : A) : M A := fun w => Returns a w.

Definition bind {A B} (c : M A) (k : A -> M B) : M B :=
  fun w => match c w with
           | Returns a w' => k a w'
           | Raises e w' => Raises e w'
           end.

Definition raise {A} (e : Py.Exc) : M A := fun w => Raises e w.

(** The outcome of a pure operation that may raise. *)
Definition lift {A} (r : Py.Exc + A) : M A :=
  match r with inl e => raise e | inr a => ret a end.

(** [self.f] *)
Definition attr {A} (f : DeepMotionPlanner -> A) : M A :=
  fun w => Returns (f (self w)) w.

Definition emit (e : Event) : M unit :=
  fun w => Returns tt {| self := self w; next_call := next_call w;
                         out := out w ++ [e] |}.

Definition set_self (f : DeepMotionPlanner -> DeepMotionPlanner) : M unit :=
  fun w => Returns tt {| self := f (self w); next_call := next_call w;
                         out := out w |}.

(** The local [next_call], read and written. *)
Definition local : M float := fun w => Returns (next_call w) w.

Definition set_local (t : float) : M unit :=
  fun w => Returns tt {| self := self w; next_call := t; out := out w |}.

Declare Scope py_scope.
Delimit Scope py_scope with py.
Notation "x <- c ;; k" := (bind c (fun x => k))
  (at level 61, c at next level, right associativity) : py_scope.
Notation "c ;; k" := (bind c (fun _ => k))
  (at level 61, right associativity) : py_scope.
Notation "' p <- c ;; k" := (bind c (fun p => k))
  (at level 61, p pattern, c at next level, right associativity) : py_scope.

Definition world_of {A} (r : Result A) : World :=
  match r with Returns _ w => w | Raises _ w => w end.

(** The commands published and the input vectors given to the engine, as
    they appear among the events. *)
Definition published (evs : list Event) : list Msg.Twist :=
  flat_map (fun e => match e with publish cmd => [cmd] | _ => [] end) evs.

Definition inferred (evs : list Event) : list (list Q) :=
  flat_map (fun e => match e with inference v => [v] | _ => [] end) evs.

Definition feedbacks (evs : list Event) : list Msg.MoveBaseFeedback :=
  flat_map (fun e => match e with publish_feedback f => [f] | _ => [] end) evs.

(** ** The node *)

Section Node.

Local Open Scope Q_scope.
Local Open Scope py_scope.

(** [tf.transformations.euler_from_quaternion]: the three Euler angles of a
    rotation; a library function the node only calls. *)
Variable euler_from_quaternion : Tf.quaternion -> Q * Q * Q.

(** [tf_wrapper.inference]: the engine, from the input vector to the two
    velocities, or the exception it raises. *)
Variable tf_wrapper_inference : list Q -> Py.Exc + (Q * Q).

(** *** The action server

    Modelled from the spec (section 4.3): the four operations of
    [SimpleActionServer] that the node calls, on its status alone.  A new
    goal is always accepted; to succeed and to be preempted are transitions
    of an Active goal only: asked for in another state, they change
    nothing. *)

Definition is_active : M bool :=
  s <- attr _as ;;
  ret (match s with Active => true | _ => false end).

Definition set_status (s : GoalState) : M unit :=
  set_self (fun d => {| target_pose := target_pose d;
                        last_scan := last_scan d;
                        freq := freq d;
                        laser_scan_stride := laser_scan_stride d;
                        n_laser_scans := n_laser_scans d;
                        _as := s |}).

(** A transition that is legal from Active only. *)
Definition from_active (s : GoalState) : M unit :=
  active <- is_active ;;
  if active then set_status s else ret tt.

Definition set_succeeded : M unit := from_active Succeeded.

Definition set_preempted : M unit := from_active Preempted.

Definition accept_new_goal (pending : Msg.MoveBaseGoal) : M Msg.MoveBaseGoal :=
  set_status Active ;; ret pending.

(** *** Callbacks (lines 76-80 and 199-211) *)

Definition scan_callback (data : Msg.LaserScan) : M unit :=
  set_self (fun d => {| target_pose := target_pose d;
                        last_scan := Some data;
                        freq := freq d;
                        laser_scan_stride := laser_scan_stride d;
                        n_laser_scans := n_laser_scans d;
                        _as := _as d |}).

Definition goal_callback (pending : Msg.MoveBaseGoal) : M unit :=
  goal <- accept_new_goal pending ;;
  set_self (fun d => {| target_pose := Some goal;
                        last_scan := last_scan d;
                        freq := freq d;
                        laser_scan_stride := laser_scan_stride d;
                        n_laser_scans := n_laser_scans d;
                        _as := _as d |}).

Definition preempt_callback : M unit :=
  emit (logerr "Action preempted") ;;
  set_preempted.

(** *** check_goal_reached (lines 138-148) *)

Definition check_goal_reached (target : Q * Q * Q) : M unit :=
  let '(target0, target1, target2) := target in
  let position_tolerance := 0.1 in
  let orientation_tolerance := 0.1 in
  if Py.ltb (Qabs target0) position_tolerance
     && Py.ltb (Qabs target1) position_tolerance
     && Py.ltb (Qabs target2) orientation_tolerance
  then set_succeeded
  else ret tt.

(** *** compute_relative_target (lines 150-197)

    [lookupTransform] is what the transform listener answers on this call,
    [now] what [rospy.Time().now()] reads.  A node without a goal has no
    [target_pose.target_pose] to read. *)
Definition compute_relative_target
    (lookupTransform : Tf.TransformError + Tf.transform) (now : Q)
  : M (option (Q * Q * Q)) :=
  match lookupTransform with
  | inl Tf.LookupException
  | inl Tf.ConnectivityException
  | inl Tf.ExtrapolationException => ret None
  | inr (base_position, base_orientation) =>
      let '(base_position0, base_position1, base_position2) := base_position in
      let '(base_orientation0, base_orientation1, base_orientation2,
            base_orientation3) := base_orientation in
      let feedback :=
        {| Msg.base_position :=
             {| Msg.header := {| Msg.stamp := now; Msg.frame_id := "" |};
                Msg.pose :=
                  {| Msg.position := {| Msg.x := base_position0;
                                        Msg.y := base_position1;
                                        Msg.z := base_position2 |};
                     Msg.orientation := {| Msg.qx := base_orientation0;
                                           Msg.qy := base_orientation1;
                                           Msg.qz := base_orientation2;
                                           Msg.qw := base_orientation3 |} |} |} |} in
      emit (publish_feedback feedback) ;;
      goal <- attr target_pose ;;
      match goal with
      | None => raise Py.AttributeError
      | Some goal =>
          let base := Msg.pose (Msg.base_position feedback) in
          let target := Msg.pose (Msg.target_pose goal) in
          let goal_position_difference :=
            (Msg.x (Msg.position target) - Msg.x (Msg.position base),
             Msg.y (Msg.position target) - Msg.y (Msg.position base)) in
          let current_orientation := Msg.orientation base in
          let p := (Msg.qx current_orientation, Msg.qy current_orientation,
                    Msg.qz current_orientation, Msg.qw current_orientation) in
          let goal_orientation := Msg.orientation target in
          let q := (Msg.qx goal_orientation, Msg.qy goal_orientation,
                    Msg.qz goal_orientation, Msg.qw goal_orientation) in
          let goal_position_base_frame :=
            Tf.quaternion_multiply
              (Tf.quaternion_inverse p)
              (Tf.quaternion_multiply
                 (fst goal_position_difference,
                  snd goal_position_difference, 0, 0) p) in
          let orientation_to_target :=
            Tf.quaternion_multiply q (Tf.quaternion_inverse p) in
          let yaw := snd (euler_from_quaternion orientation_to_target) in
          let '(rotated0, rotated1, _, _) := goal_position_base_frame in
          ret (Some (rotated0, - rotated1, yaw))
      end
  end.

(** *** processing_data (lines 82-136)

    What one pass of the loop meets: the callbacks that ran since the last
    pass, what [time.time()] reads, what the transform listener answers and
    the stamp that [rospy.Time().now()] gives. *)
Inductive Callback : Type :=
| on_scan (data : Msg.LaserScan)
| on_goal (pending : Msg.MoveBaseGoal)
| on_preempt.

Record Pass : Type := {
  callbacks : list Callback;
  time_time : float;
  lookupTransform : Tf.TransformError + Tf.transform;
  rospy_Time_now : Q
}.

Definition run_callback (c : Callback) : M unit :=
  match c with
  | on_scan data => scan_callback data
  | on_goal pending => goal_callback pending
  | on_preempt => preempt_callback
  end.

Fixpoint run_callbacks (cs : list Callback) : M unit :=
  match cs with
  | [] => ret tt
  | c :: cs' => run_callback c ;; run_callbacks cs'
  end.

(** Lines 96-101: the deadline and the wait for it, in the floats of the
    code.  The call of [time.sleep] is an event of the run: the model does
    not wait, and takes the call to return. *)
Definition wait_next_call (now : float) : M unit :=
  next_call <- local ;;
  f <- attr freq ;;
  period <- lift (Py.truediv 1 f) ;;
  let next_call := (next_call + period)%float in
  set_local next_call ;;
  let sleep_time := (next_call - now)%float in
  if (0 <? sleep_time)%float
  then emit (sleep sleep_time)
  else emit (logerr "Missed control loop frequency").

(** Lines 116-124: the scans of the input vector. *)
Definition cropped_scans (scan : Msg.LaserScan) : M (list Q) :=
  stride <- attr laser_scan_stride ;;
  n <- attr n_laser_scans ;;
  scans <- lift (Py.step_slice (Msg.ranges scan) stride) ;;
  let cut_n_elements := ((Z.of_nat (length scans) - n) / 2)%Z in
  cropped_scans <-
    (if (0 <? cut_n_elements)%Z
     then emit (logdebug ("Cutting input vector by " ++ Py.str cut_n_elements
                            ++ " elements on each side.")) ;;
          ret (Py.slice scans cut_n_elements (- cut_n_elements))
     else ret scans) ;;
  if (Z.of_nat (length cropped_scans) =? n + 1)%Z
  then emit (logdebug "Input vector has one scan too much. Cutting off last one.") ;;
       ret (Py.slice cropped_scans 0 (-1))
  else ret cropped_scans.

Definition list_of_target (target : Q * Q * Q) : list Q :=
  let '(t0, t1, t2) := target in [t0; t1; t2].

(** Lines 103-136: the body of one pass. *)
Definition body (lookup : Tf.TransformError + Tf.transform) (now : Q) : M unit :=
  active <- is_active ;;
  if negb active then ret tt else
  goal <- attr target_pose ;;
  scan <- attr last_scan ;;
  match goal, scan with
  | Some _, Some scan =>
      target <- compute_relative_target lookup now ;;
      match target with
      | None => ret tt
      | Some target =>
          cropped <- cropped_scans scan ;;
          let input_data := cropped ++ list_of_target target in
          emit (inference input_data) ;;
          ' (linear_x, angular_z) <- lift (tf_wrapper_inference input_data) ;;
          let cmd :=
            {| Msg.linear := {| Msg.x := linear_x; Msg.y := 0; Msg.z := 0 |};
               Msg.angular := {| Msg.x := 0; Msg.y := 0; Msg.z := angular_z |} |} in
          emit (publish cmd) ;;
          check_goal_reached target
      end
  | _, _ => ret tt
  end.

(** Lines 96-136: one tick, deadline first. *)
Definition tick (clock : float) (lookup : Tf.TransformError + Tf.transform)
    (now : Q) : M unit :=
  wait_next_call clock ;;
  body lookup now.

Definition pass (p : Pass) : M unit :=
  run_callbacks (callbacks p) ;;
  tick (time_time p) (lookupTransform p) (rospy_Time_now p).

(** The loop runs one pass after the other until the interrupt is set, here
    after the last of [passes]; an exception ends it. *)
Fixpoint loop (passes : list Pass) : M unit :=
  match passes with
  | [] => ret tt
  | p :: rest => pass p ;; loop rest
  end.

(** [processing_data], entered when the clock reads [start]. *)
Definition processing_data (start : float) (passes : list Pass)
    (node : DeepMotionPlanner) : Result unit :=
  loop passes {| self := node; next_call := start; out := [] |}.

End Node.

(** ** What the node computes, as functions

    The values the properties below speak of, written without the monad. *)

Section Views.

Variable euler_from_quaternion : Tf.quaternion -> Q * Q * Q.

(** The pose snapshot that goes out as feedback. *)
Definition snapshot (tr : Tf.transform) (now : Q) : Msg.MoveBaseFeedback :=
  let '((px, py, pz), (ox, oy, oz, ow)) := tr in
  {| Msg.base_position :=
       {| Msg.header := {| Msg.stamp := now; Msg.frame_id := "" |};
          Msg.pose :=
            {| Msg.position := {| Msg.x := px; Msg.y := py; Msg.z := pz |};
               Msg.orientation :=
                 {| Msg.qx := ox; Msg.qy := oy; Msg.qz := oz; Msg.qw := ow |} |} |} |}.

(** The goal in the frame of the robot, as a function of the goal and the
    transform. *)
Definition relative_target (goal : Msg.MoveBaseGoal) (tr : Tf.transform)
  : Q * Q * Q :=
  let '((rx, ry, _), p) := tr in
  let g := Msg.position (Msg.pose (Msg.target_pose goal)) in
  let o := Msg.orientation (Msg.pose (Msg.target_pose goal)) in
  let q := (Msg.qx o, Msg.qy o, Msg.qz o, Msg.qw o) in
  let '(rotated_x, rotated_y, _, _) :=
    Tf.quaternion_multiply (Tf.quaternion_inverse p)
      (Tf.quaternion_multiply (Msg.x g - rx, Msg.y g - ry, 0, 0) p) in
  let yaw :=
    snd (euler_from_quaternion
           (Tf.quaternion_multiply q (Tf.quaternion_inverse p))) in
  (rotated_x, - rotated_y, yaw).

(** Every [stride]-th sample, for a positive stride. *)
Definition decimated (stride : Z) (samples : list Q) : list Q :=
  Py.every (Z.to_nat stride - 1) 0 samples.

(** The scans that reach the input vector, from the decimated ones. *)
Definition crop (n : Z) (scans : list Q) : list Q :=
  let cut := ((Z.of_nat (length scans) - n) / 2)%Z in
  let trimmed := if (0 <? cut)%Z then Py.slice scans cut (- cut) else scans in
  if (Z.of_nat (length trimmed) =? n + 1)%Z
  then Py.slice trimmed 0 (-1)
  else trimmed.

(** The debug lines that go with them. *)
Definition crop_logs (n : Z) (scans : list Q) : list Event :=
  let cut := ((Z.of_nat (length scans) - n) / 2)%Z in
  let trimmed := if (0 <? cut)%Z then Py.slice scans cut (- cut) else scans in
  (if (0 <? cut)%Z
   then [logdebug ("Cutting input vector by " ++ Py.str cut
                     ++ " elements on each side.")]
   else [])
  ++ (if (Z.of_nat (length trimmed) =? n + 1)%Z
      then [logdebug "Input vector has one scan too much. Cutting off last one."]
      else []).

(** The world after more events. *)
Definition after (w : World) (evs : list Event) : World :=
  {| self := self w; next_call := next_call w; out := out w ++ evs |}.

(** The command with the two velocities of the engine. *)
Definition command (linear_x angular_z : Q) : Msg.Twist :=
  {| Msg.linear := {| Msg.x := linear_x; Msg.y := 0; Msg.z := 0 |};
     Msg.angular := {| Msg.x := 0; Msg.y := 0; Msg.z := angular_z |} |}.

(** What the loop does about its deadline when the clock reads [now]. *)
Definition wake (deadline now : float) : Event :=
  if (0 <? deadline - now)%float
  then sleep (deadline - now)
  else logerr "Missed control loop frequency".

Definition is_wake (e : Event) : bool :=
  match e with
  | sleep _ => true
  | logerr msg => String.eqb msg "Missed control loop frequency"
  | _ => false
  end.

(** The number of passes that got to their deadline, read off the events. *)
Definition wakes (evs : list Event) : nat := length (filter is_wake evs).

(** The events apart from the sleeps and the reports of missed deadlines. *)
Definition quiet (evs : list Event) : list Event :=
  filter (fun e => negb (is_wake e)) evs.

Definition fed (w : World) (fb : Msg.MoveBaseFeedback) : World :=
  {| self := self w; next_call := next_call w;
     out := out w ++ [publish_feedback fb] |}.

End Views.

(** ** Relations between worlds *)

(** [steady w w']: from [w] to [w'] the configuration and the deadline are
    the same and no pass got to its deadline. *)
Definition steady (w w' : World) : Prop :=
  freq (self w') = freq (self w)
  /\ laser_scan_stride (self w') = laser_scan_stride (self w)
  /\ n_laser_scans (self w') = n_laser_scans (self w)
  /\ next_call w' = next_call w
  /\ wakes (out w') = wakes (out w).

Definition keeps {A} (c : M A) : Prop :=
  forall w, steady w (world_of (c w)).

(** [alike w1 w2]: the two worlds differ at most in how the loop waited. *)
Definition alike (w1 w2 : World) : Prop :=
  self w1 = self w2
  /\ next_call w1 = next_call w2
  /\ quiet (out w1) = quiet (out w2).

Definition alike_result {A} (r1 r2 : Result A) : Prop :=
  match r1, r2 with
  | Returns a1 w1, Returns a2 w2 => a1 = a2 /\ alike w1 w2
  | Raises e1 w1, Raises e2 w2 => e1 = e2 /\ alike w1 w2
  | _, _ => False
  end.

Definition same_run {A} (c1 c2 : M A) : Prop :=
  forall w1 w2, alike w1 w2 -> alike_result (c1 w1) (c2 w2).

(** The world when the tick that reads [clock] has dealt with its deadline. *)
Definition woken (w : World) (clock : float) : World :=
  {| self := self w;
     next_call := (next_call w + 1 / freq (self w))%float;
     out := out w ++ [wake (next_call w + 1 / freq (self w))%float clock] |}.

(** The deadline after [ticks] more ticks: the period added that many times,
    one addition after the other. *)
Fixpoint advanced (deadline period : float) (ticks : nat) : float :=
  match ticks with
  | O => deadline
  | S n => advanced (deadline + period)%float period n
  end.

(** The input vector of a tick: the cropped scans, then the target. *)
Definition input_vector (n : Z) (scans : list Q) (target : Q * Q * Q) : list Q :=
  crop n scans ++ list_of_target target.

(** What there is to do before the body runs in full: a goal that is Active
    and known, a scan, and the transform. *)
Definition ready (w : World) (lookup : Tf.TransformError + Tf.transform)
    (goal : Msg.MoveBaseGoal) (scan : Msg.LaserScan) (tr : Tf.transform) : Prop :=
  _as (self w) = Active
  /\ target_pose (self w) = Some goal
  /\ last_scan (self w) = Some scan
  /\ lookup = inr tr.

(** No goal is Active, or no scan has arrived, or the transform is not to be
    had. *)
Definition idle (w : World) (lookup : Tf.TransformError + Tf.transform) : Prop :=
  _as (self w) <> Active
  \/ target_pose (self w) = None
  \/ last_scan (self w) = None
  \/ (exists err, lookup = inl err).

(** Two passes that differ at most in what the clock reads. *)
Definition same_but_clock (p p' : Pass) : Prop :=
  callbacks p = callbacks p'
  /\ lookupTransform p = lookupTransform p'
  /\ rospy_Time_now p = rospy_Time_now p'.

(** ** Concrete collaborators and poses for the examples *)

(** An Euler extraction that answers three zero angles: right at the identity
    rotation, which is all the examples ask of it. *)
Definition euler_zero (q : Tf.quaternion) : Q * Q * Q := (0, 0, 0).

(** An engine that answers the same two velocities for every input, and one
    that fails on every input. *)
Definition engine_fixed (input_data : list Q) : Py.Exc + (Q * Q) :=
  inr (0.5, 0.25).

Definition engine_down (input_data : list Q) : Py.Exc + (Q * Q) :=
  inl (Py.RuntimeError "inference failed").

(** The robot at the origin of the map, not rotated. *)
Definition at_origin : Tf.transform := ((0, 0, 0), (0, 0, 0, 1)).

(** The goal at (3, 4) with yaw 0. *)
Definition goal_3_4 : Msg.MoveBaseGoal :=
  {| Msg.target_pose :=
       {| Msg.header := {| Msg.stamp := 0; Msg.frame_id := "map" |};
          Msg.pose :=
            {| Msg.position := {| Msg.x := 3; Msg.y := 4; Msg.z := 0 |};
               Msg.orientation :=
                 {| Msg.qx := 0; Msg.qy := 0; Msg.qz := 0; Msg.qw := 1 |} |} |} |}.

(** A node as [__init__] leaves it with the default parameters (stride 2,
    540 scans), then given a goal and a scan. *)
Definition node_of (goal : option Msg.MoveBaseGoal) (scan : option Msg.LaserScan)
    (status : GoalState) : DeepMotionPlanner :=
  {| target_pose := goal; last_scan := scan; freq := 25;
     laser_scan_stride := 2; n_laser_scans := 540; _as := status |}.

(** The samples 0, 1, ..., [len - 1]. *)
Definition ramp (len : nat) : list Q :=
  map (fun i => inject_Z (Z.of_nat i)) (seq 0 len).

Definition world_of_node (node : DeepMotionPlanner) : World :=
  {| self := node; next_call := 0; out := [] |}.

(** A pass with no callback, the clock and the transform as given; the
    stamp that rospy gives is 0. *)
Definition pass_at (clock : float) (lookup : Tf.TransformError + Tf.transform) : Pass :=
  {| callbacks := []; time_time := clock; lookupTransform := lookup;
     rospy_Time_now := 0 |}.

(** A node with the goal (3, 4), Active, and a scan of three samples. *)
Definition node_3_4 : DeepMotionPlanner :=
  node_of (Some goal_3_4) (Some {| Msg.ranges := ramp 3 |}) Active.

(** The same node before any scan has arrived. *)
Definition node_no_scan : DeepMotionPlanner :=
  node_of (Some goal_3_4) None Active.

(** Two passes for that node, the transform at hand on both. *)
Definition two_passes : list Pass :=
  [pass_at 0 (inr at_origin); pass_at 0 (inr at_origin)].

(** A node with the scan 0, 1, ..., 1080 and no goal. *)
Definition scan_ramp : Msg.LaserScan := {| Msg.ranges := ramp 1081 |}.

Definition node_ramp : DeepMotionPlanner := node_of None (Some scan_ramp) Active.

(** A node with nothing to do, and two passes for it, the first one late. *)
Definition node_idle : DeepMotionPlanner := node_of None None Idle.

Definition late_passes : list Pass :=
  [pass_at 100 (inl Tf.LookupException); pass_at 0 (inl Tf.LookupException)].

(** Six passes for it, the clock at 0 on each. *)
Definition six_passes : list Pass := repeat (pass_at 0 (inl Tf.LookupException)) 6.

(** * The rest of the node *)

From Stdlib Require Import Ascii.

(** ** goal_topic_callback (lines 213-228) *)

(** The goal that [goal_topic_callback] hands to the navigation client for
    the pose [data] of the goal topic: a fresh [MoveBaseGoal] with the frame
    set and the fields of [data] that the code copies. *)
Definition goal_topic_callback (data : Msg.PoseStamped) : Msg.MoveBaseGoal :=
  let position := Msg.position (Msg.pose data) in
  let orientation := Msg.orientation (Msg.pose data) in
  {| Msg.target_pose :=
       {| Msg.header := {| Msg.stamp := 0; Msg.frame_id := "map" |};
          Msg.pose :=
            {| Msg.position := {| Msg.x := Msg.x position;
                                  Msg.y := Msg.y position;
                                  Msg.z := 0 |};
               Msg.orientation := {| Msg.qx := Msg.qx orientation;
                                     Msg.qy := Msg.qy orientation;
                                     Msg.qz := Msg.qz orientation;
                                     Msg.qw := Msg.qw orientation |} |} |} |}.

(** ** Paths *)

Module Path.

(** [s.startswith('/')] *)
Definition is_abs (s : string) : bool :=
  match s with
  | String c _ => Ascii.eqb c "/"%char
  | EmptyString => false
  end.

(** [s.endswith('/')] *)
Fixpoint ends_with_sep (s : string) : bool :=
  match s with
  | EmptyString => false
  | String c EmptyString => Ascii.eqb c "/"%char
  | String _ rest => ends_with_sep rest
  end.

(** [os.path.join(a, b)] of [posixpath]. *)
Definition join (a b : string) : string :=
  if is_abs b then b
  else if (a =? "")%string || ends_with_sep a then (a ++ b)%string
  else (a ++ "/" ++ b)%string.

End Path.

(** ** __init__ (lines 18-66) *)

(** The private parameters of the node on the parameter server. *)
Record Params : Type := {
  model_path_param : option string;
  laser_scan_stride_param : option Z;
  n_laser_scans_param : option Z;
  protobuf_file_param : option string;
  use_checkpoints_param : option bool
}.

(** [rospy.get_param(name, default)] *)
Definition get_param {A} (value : option A) (default : A) : A :=
  match value with Some v => v | None => default end.

(** What [__init__] has set when it gets to the topics: the attributes of the
    node and where the model is. *)
Record Constructed : Type := {
  node : DeepMotionPlanner;
  model_path : string;
  protobuf_file : string;
  use_checkpoints : bool
}.

(** The constructor up to line 41: it logs and exits, or goes on with the
    node.  [exists_] is [os.path.exists], [resolve_name] is
    [rospy.resolve_name]. *)
Definition init (exists_ : string -> bool) (resolve_name : string -> string)
    (params : Params) : list Event * option Constructed :=
  match model_path_param params with
  | None => ([logerr "Missing parameter: ~model_path"], None)
  | Some the_model_path =>
      let the_laser_scan_stride := get_param (laser_scan_stride_param params) 2%Z in
      let the_n_laser_scans := get_param (n_laser_scans_param params) 540%Z in
      let the_protobuf_file := get_param (protobuf_file_param params) "graph.pb"%string in
      let the_use_checkpoints := get_param (use_checkpoints_param params) false in
      if negb (exists_ the_model_path)
      then ([logerr ("Model path does not exist: " ++ the_model_path);
             logerr ("Please check the parameter: " ++ resolve_name "~model_path"%string)],
            None)
      else if negb (exists_ (Path.join the_model_path the_protobuf_file))
      then ([logerr ("Protobuf file does not exist: "
                       ++ Path.join the_model_path the_protobuf_file);
             logerr ("Please check the parameter: " ++ resolve_name "~protobuf_file"%string)],
            None)
      else ([],
            Some {| node := {| target_pose := None;
                               last_scan := None;
                               freq := 25;
                               laser_scan_stride := the_laser_scan_stride;
                               n_laser_scans := the_n_laser_scans;
                               _as := Idle |};
                    model_path := the_model_path;
                    protobuf_file := the_protobuf_file;
                    use_checkpoints := the_use_checkpoints |})
  end.

(** ** Views on callbacks and passes *)

Definition is_on_goal (c : Callback) : bool :=
  match c with on_goal _ => true | _ => false end.

Definition is_on_scan (c : Callback) : bool :=
  match c with on_scan _ => true | _ => false end.

(** No goal is accepted, no scan arrives, in any of the passes. *)
Definition no_goal_in (passes : list Pass) : Prop :=
  Forall (fun p => forallb (fun c => negb (is_on_goal c)) (callbacks p) = true)
         passes.

Definition no_scan_in (passes : list Pass) : Prop :=
  Forall (fun p => forallb (fun c => negb (is_on_scan c)) (callbacks p) = true)
         passes.

(** [kept R c]: running [c] takes every world to one that [R] relates to it. *)
Definition kept (R : World -> World -> Prop) {A} (c : M A) : Prop :=
  forall w, R w (world_of (c w)).

(** [held w w']: the goal pose and the scan that [w] has are not lost in
    [w']. *)
Definition held (w w' : World) : Prop :=
  (target_pose (self w) <> None -> target_pose (self w') <> None)
  /\ (last_scan (self w) <> None -> last_scan (self w') <> None).

(** The target is within the tolerances of [check_goal_reached]. *)
Definition within_tolerance (target : Q * Q * Q) : Prop :=
  let '(dx, dy, dyaw) := target in
  Qabs dx < 0.1 /\ Qabs dy < 0.1 /\ Qabs dyaw < 0.1.

(** ** More inputs for the examples *)

(** The robot on the goal (3, 4), not rotated. *)
Definition at_goal : Tf.transform := ((3, 4, 0), (0, 0, 0, 1)).

(** The node with the goal (3, 4) and three samples, with another stride. *)
Definition node_with_stride (stride : Z) : DeepMotionPlanner :=
  {| target_pose := Some goal_3_4;
     last_scan := Some {| Msg.ranges := ramp 3 |};
     freq := 25;
     laser_scan_stride := stride;
     n_laser_scans := 540;
     _as := Active |}.

(** A pose of the goal topic, off the ground and in another frame. *)
Definition posted_pose : Msg.PoseStamped :=
  {| Msg.header := {| Msg.stamp := 12; Msg.frame_id := "odom" |};
     Msg.pose :=
       {| Msg.position := {| Msg.x := 3; Msg.y := 4; Msg.z := 7 |};
          Msg.orientation :=
            {| Msg.qx := 0; Msg.qy := 0; Msg.qz := 0; Msg.qw := 1 |} |} |}.

(** A pass whose only callback is a preemption, and one whose only callback
    accepts the goal (3, 4), both with the transform at the origin. *)
Definition pass_preempted : Pass :=
  {| callbacks := [on_preempt]; time_time := 0;
     lookupTransform := inr at_origin; rospy_Time_now := 0 |}.



(** * make_dataset.py: fusing csv files

    A shallow embedding of [deep_learning_model/src/data/make_dataset.py].
    Paths and file names are ASCII text and [int] reads them as Python 3
    does.  Beyond ASCII Python 3 also takes the decimal digits and the white
    space of Unicode for a number; no property below rests on what [int]
    makes of such text. *)

From Stdlib Require Import Sorted Permutation.

(** ** Strings *)

Module Str.

(** [c in s] for a character. *)
Fixpoint has (c : ascii) (s : string) : bool :=
  match s with
  | EmptyString => false
  | String a rest => Ascii.eqb a c || has c rest
  end.

(** Every character of [s] passes [p]. *)
Fixpoint all (p : ascii -> bool) (s : string) : bool :=
  match s with
  | EmptyString => true
  | String a rest => p a && all p rest
  end.

(** [s.split(c)] for a separator of one character: the pieces between the
    occurrences of [c], never none. *)
Fixpoint split (c : ascii) (s : string) : list string :=
  match s with
  | EmptyString => [EmptyString]
  | String a rest =>
      if Ascii.eqb a c then EmptyString :: split c rest
      else match split c rest with
           | piece :: pieces => String a piece :: pieces
           | [] => [String a EmptyString]
           end
  end.

(** [pieces[-1]] and [pieces[0]] of a split. *)
Definition last_piece (pieces : list string) : string := last pieces EmptyString.

Definition first_piece (pieces : list string) : string := hd EmptyString pieces.

(** The white space that [int] skips at both ends of ASCII text: tab, line
    feed, vertical tab, form feed, carriage return and the space. *)
Definition is_space (a : ascii) : bool :=
  let n := nat_of_ascii a in
  ((9 <=? n) && (n <=? 13) || (n =? 32))%nat.

(** The characters of ASCII. *)
Definition is_ascii (a : ascii) : bool := (nat_of_ascii a <? 128)%nat.

Definition is_digit (a : ascii) : bool :=
  let n := nat_of_ascii a in
  ((48 <=? n) && (n <=? 57))%nat.

Fixpoint lstrip (s : string) : string :=
  match s with
  | EmptyString => EmptyString
  | String a rest => if is_space a then lstrip rest else s
  end.

Fixpoint rstrip (s : string) : string :=
  match s with
  | EmptyString => EmptyString
  | String a rest =>
      match rstrip rest with
      | EmptyString => if is_space a then EmptyString else String a EmptyString
      | kept => String a kept
      end
  end.

Definition strip (s : string) : string := rstrip (lstrip s).

(** The digits of a decimal literal without its sign: digits with single
    underscores between them. [None] when it is not of that form. *)
Fixpoint digits_of (after_digit : bool) (s : string) : option string :=
  match s with
  | EmptyString => if after_digit then Some EmptyString else None
  | String a rest =>
      if is_digit a then option_map (String a) (digits_of true rest)
      else if Ascii.eqb a "_"%char && after_digit
      then match rest with
           | String b _ => if is_digit b then digits_of false rest else None
           | EmptyString => None
           end
      else None
  end.

(** [int(s)] for ASCII text [s]: white space at both ends, a sign, then
    digits with single underscores between them. *)
Definition int (s : string) : Py.Exc + Z :=
  let literal := strip s in
  let negative :=
    match literal with String a _ => Ascii.eqb a "-"%char | EmptyString => false end in
  let unsigned :=
    match literal with
    | String a rest =>
        if Ascii.eqb a "-"%char || Ascii.eqb a "+"%char then rest else literal
    | EmptyString => literal
    end in
  match digits_of false unsigned with
  | Some digits =>
      match NilEmpty.uint_of_string digits with
      | Some d => inr (if negative then - Z.of_uint d else Z.of_uint d)%Z
      | None => inl Py.ValueError
      end
  | None => inl Py.ValueError
  end.

(** [os.path.basename(p)] of [posixpath]: what follows the last slash. *)
Definition basename (p : string) : string := last_piece (split "/"%char p).

End Str.

(** ** get_target_id (lines 43-44) *)

Definition get_target_id (x : string) : Py.Exc + Z :=
  Str.int (Str.first_piece
             (Str.split "."%char
                (Str.last_piece (Str.split "_"%char (Str.basename x))))).

(** The test of line 55 on a name of the input folder:
    [f.split('.')[-1] == 'csv']. *)
Definition is_csv (f : string) : bool :=
  (Str.last_piece (Str.split "."%char f) =? "csv")%string.

(** ** Paths of files *)

Module Ospath.

(** [p.rfind(c)]: the place of the last [c] in [p], or -1. *)
Fixpoint rfind (c : ascii) (p : string) : Z :=
  match p with
  | EmptyString => (-1)%Z
  | String a rest =>
      let r := rfind c rest in
      if (0 <=? r)%Z then (r + 1)%Z
      else if Ascii.eqb a c then 0%Z else (-1)%Z
  end.

(** [p[:i]] and [p[i:]] for a place [i >= 0]. *)
Fixpoint take (i : nat) (p : string) : string :=
  match i, p with
  | S i', String a rest => String a (take i' rest)
  | _, _ => EmptyString
  end.

Fixpoint drop (i : nat) (p : string) : string :=
  match i, p with
  | S i', String _ rest => drop i' rest
  | _, _ => p
  end.

(** [os.path.splitext(p)] of [posixpath]: the extension starts at the last
    dot of the last component, unless only dots come before it there. *)
Definition splitext (p : string) : string * string :=
  let sepIndex := rfind "/"%char p in
  let dotIndex := rfind "."%char p in
  if (sepIndex <? dotIndex)%Z
     && negb (Str.all (fun a => Ascii.eqb a "."%char)
                (take (Z.to_nat (dotIndex - (sepIndex + 1)))
                      (drop (Z.to_nat (sepIndex + 1)) p)))
  then (take (Z.to_nat dotIndex) p, drop (Z.to_nat dotIndex) p)
  else (p, EmptyString).

End Ospath.

(** ** The run of the script *)

(** How a run stops short: an exception, or [exit()] and [parser.error],
    with their exit status. *)
Inductive Halt : Type :=
| raised (e : Py.Exc)
| exited (status : Z).

(** What a run writes on the terminal and in the log. *)
Inductive Line : Type :=
| printed (text : string) (ending : string)
| log_info (msg : string)
| log_error (msg : string).

(** The arguments of the command line, parsed. *)
Record Args : Type := {
  input_path : string;
  sort : bool;
  output_file : string
}.

(** [check_extension] of [parse_args] (lines 18-22): the file name, or the
    exit of [parser.error]. *)
Definition check_extension (extensions : list string) (filename : string)
  : Halt + string :=
  let ext := snd (Ospath.splitext filename) in
  if negb (existsb (String.eqb ext) extensions)
  then inl (exited 2)
  else inr filename.

(** [parse_args] (lines 11-29), once argparse has split the command line:
    [the_input_path], [the_sort] and [the_output_file] are the two strings
    and the flag that argparse has taken from it for the three arguments.
    What is left is the code's own part, the check that it gives as [type]
    of the output file.  A command line that argparse itself turns down (an
    argument missing, or an option it does not know, for which it takes
    most names that start with a dash unless they follow [--]) or answers
    with its help ends the script before line 53 and is not among the runs
    here. *)
Definition parse_args (the_input_path : string) (the_sort : bool)
    (the_output_file : string) : Halt + Args :=
  match check_extension [".h5"%string] the_output_file with
  | inl h => inl h
  | inr file => inr {| input_path := the_input_path; sort := the_sort;
                       output_file := file |}
  end.

(** *** Sorting with a key *)

Section Sorting.

Variable A : Type.

(** The place of an element in a list that is in order: before the first
    one whose key is not smaller. *)
Fixpoint insert (kx : Z * A) (l : list (Z * A)) : list (Z * A) :=
  match l with
  | [] => [kx]
  | ky :: rest =>
      if (fst kx <=? fst ky)%Z then kx :: l else ky :: insert kx rest
  end.

(** The stable sort of a list of elements with their keys; [list.sort] gives
    the same list, as every stable sort does. *)
Fixpoint stable_sort (l : list (Z * A)) : list (Z * A) :=
  match l with
  | [] => []
  | kx :: rest => insert kx (stable_sort rest)
  end.

(** The keys of all the elements, computed first and in order; one that
    raises ends the sort. *)
Fixpoint with_keys (key : A -> Py.Exc + Z) (l : list A) : Py.Exc + list (Z * A) :=
  match l with
  | [] => inr []
  | x :: rest =>
      match key x with
      | inl e => inl e
      | inr k =>
          match with_keys key rest with
          | inl e => inl e
          | inr keyed => inr ((k, x) :: keyed)
          end
      end
  end.

(** [l.sort(key=key)] *)
Definition sort_by (key : A -> Py.Exc + Z) (l : list A) : Py.Exc + list A :=
  match with_keys key l with
  | inl e => inl e
  | inr keyed => inr (map snd (stable_sort keyed))
  end.

End Sorting.

Arguments insert {A} kx l.
Arguments stable_sort {A} l.
Arguments with_keys {A} key l.
Arguments sort_by {A} key l.

Section Dataset.

(** A line of a csv file, whatever its columns. *)
Variable Row : Type.

(** A line of the store: the line of the csv file with its index in the
    store and the two columns that [main] adds. *)
Record Stored : Type := {
  index : Z;
  columns : Row;
  original_index : Z;
  target_id : Z
}.

(** The folder and the files that the run reads; they do not change while it
    runs. *)
Record Disk : Type := {
  listdir : string -> Py.Exc + list string;
  isfile : string -> bool;
  path_exists : string -> bool;
  read_csv : string -> Py.Exc + list Row;
  (* what [pd.HDFStore(path)] and [store.append] may raise: the first for
     the path, the second for the lines there and the frame to add *)
  create_store : string -> Py.Exc + unit;
  accept_frame : list Stored -> list Stored -> Py.Exc + unit
}.

(** The store, once it is created, and the lines written. *)
Record Run : Type := {
  store : option (list Stored);
  lines : list Line
}.

Inductive Outcome (A : Type) : Type :=
| done (a : A) (r : Run)
| halted (h : Halt) (r : Run).

Arguments done {A} a r.
Arguments halted {A} h r.

Definition D (A : Type) : Type := Run -> Outcome A.

Definition dret {A} (a : A) : D A := fun r => done a r.

Definition dbind {A B} (c : D A) (k : A -> D B) : D B :=
  fun r => match c r with
           | done a r' => k a r'
           | halted h r' => halted h r'
           end.

Definition halt {A} (h : Halt) : D A := fun r => halted h r.

Definition dlift {A} (x : Py.Exc + A) : D A :=
  match x with inl e => halt (raised e) | inr a => dret a end.

Definition write (l : Line) : D unit :=
  fun r => done tt {| store := store r; lines := lines r ++ [l] |}.

(** The lines of the store, none before it is created. *)
Definition stored (r : Run) : list Stored :=
  match store r with Some rows => rows | None => [] end.

Definition run_of {A} (o : Outcome A) : Run :=
  match o with done _ r => r | halted _ r => r end.

Declare Scope run_scope.
Delimit Scope run_scope with run.
Notation "x <- c ;; k" := (dbind c (fun x => k))
  (at level 61, c at next level, right associativity) : run_scope.
Notation "c ;; k" := (dbind c (fun _ => k))
  (at level 61, right associativity) : run_scope.

Local Open Scope run_scope.

Variable disk : Disk.

(** [pd.HDFStore(target_file)]: the file is created, empty. *)
Definition open_store (target_file : string) : D unit :=
  fun r => match create_store disk target_file with
           | inl e => halted (raised e) r
           | inr _ => done tt {| store := Some []; lines := lines r |}
           end.

(** [store.append('data', current)] *)
Definition append_store (current : list Stored) : D unit :=
  fun r => match accept_frame disk (stored r) current with
           | inl e => halted (raised e) r
           | inr _ => done tt {| store := Some (stored r ++ current);
                                 lines := lines r |}
           end.

(** ['({}/{}) {}'.format(i, n, f)] *)
Definition progress (i n : nat) (f : string) : string :=
  ("(" ++ Py.str (Z.of_nat i) ++ "/" ++ Py.str (Z.of_nat n) ++ ") " ++ f)%string.

(** The ends of the printed lines: a carriage return, a line feed. *)
Definition CR : string := String "013"%char EmptyString.
Definition LF : string := String "010"%char EmptyString.

(** The loop of [sorted_by_elements] (lines 33-36): the number of lines of
    every file. *)
Fixpoint count_lines (files : list string) (i n : nat) : D (list Z) :=
  match files with
  | [] => dret []
  | f :: rest =>
      write (printed (progress i n f) CR) ;;
      current <- dlift (read_csv disk f) ;;
      counts <- count_lines rest (S i) n ;;
      dret (Z.of_nat (length current) :: counts)
  end.

(** [sorted_by_elements] (lines 31-41) *)
Definition sorted_by_elements (files : list string) : D (list string) :=
  num_elements <- count_lines files 0 (length files) ;;
  let data := combine num_elements files in
  dret (map snd (stable_sort data)).

(** The frame that goes to the store for the lines [current] of the file
    with the id [id], after [num_elements] lines (lines 84-86); [j] is the
    index of the first of them in the file. *)
Fixpoint frame (current : list Row) (id num_elements : Z) (j : Z) : list Stored :=
  match current with
  | [] => []
  | row :: rest =>
      {| index := j + num_elements; columns := row;
         original_index := j; target_id := id |}
      :: frame rest id num_elements (j + 1)
  end.

(** The loop of [main] (lines 79-89). *)
Fixpoint fuse (files : list string) (i n : nat) (num_elements : Z) : D Z :=
  match files with
  | [] => dret num_elements
  | f :: rest =>
      write (printed (progress i n f) CR) ;;
      current <- dlift (read_csv disk f) ;;
      id <- dlift (get_target_id f) ;;
      append_store (frame current id num_elements 0) ;;
      fuse rest (S i) n (num_elements + Z.of_nat (length current))
  end.

(** The csv files of the folder [path], with their paths (lines 54-55). *)
Definition csv_files (path : string) (names : list string) : list string :=
  map (Path.join path)
      (filter (fun f => isfile disk (Path.join path f) && is_csv f) names).

(** Line 68: where the store goes. *)
Definition target_file_of (project_dir : string) (args : Args) : string :=
  Path.join (Path.join (Path.join project_dir "data") "processed")
            (output_file args).

(** The run starts with no store and nothing written. *)
Definition fresh : Run := {| store := None; lines := [] |}.

(** [main] (lines 46-94) for the three arguments that argparse has taken from
    the command line. *)
Definition main (project_dir : string)
    (the_input_path : string) (the_sort : bool) (the_output_file : string)
  : D unit :=
  write (log_info "making final data set from raw data") ;;
  args <- (match parse_args the_input_path the_sort the_output_file with
           | inl h => halt h
           | inr args => dret args
           end) ;;
  let path := Path.join project_dir (input_path args) in
  names <- dlift (listdir disk path) ;;
  let all_files := csv_files path names in
  all_files <-
    (if sort args
     then write (log_info "Sort list of files by number of elements") ;;
          sorted_by_elements all_files
     else write (log_info "Sort list of files by target id") ;;
          dlift (sort_by get_target_id all_files)) ;;
  write (log_info "Done: List of files is sorted") ;;
  let target_file := target_file_of project_dir args in
  if path_exists disk target_file
  then write (log_error ("Target file already exists: " ++ target_file)) ;;
       halt (exited 0)
  else
    open_store target_file ;;
    num_elements <- fuse all_files 0 (length all_files) 0 ;;
    write (printed "" LF) ;;
    write (log_info ("We combined " ++ Py.str num_elements ++ " lines")) ;;
    write (log_info ("File saved: " ++ target_file)).

End Dataset.

Arguments done {Row A} a r.
Arguments halted {Row A} h r.
Arguments index {Row} s.
Arguments columns {Row} s.
Arguments original_index {Row} s.
Arguments target_id {Row} s.
Arguments store {Row} r.
Arguments lines {Row} r.
Arguments stored {Row} r.
Arguments run_of {Row A} o.
Arguments fresh {Row}.
Arguments listdir {Row} d path.
Arguments isfile {Row} d path.
Arguments path_exists {Row} d path.
Arguments read_csv {Row} d path.
Arguments create_store {Row} d path.
Arguments accept_frame {Row} d rows current.
Arguments dret {Row A} a r.
Arguments dbind {Row A B} c k r.
Arguments halt {Row A} h r.
Arguments dlift {Row A} x.
Arguments write {Row} l r.
Arguments open_store {Row} disk target_file r.
Arguments append_store {Row} disk current r.
Arguments count_lines {Row} disk files i n.
Arguments sorted_by_elements {Row} disk files.
Arguments frame {Row} current id num_elements j.
Arguments fuse {Row} disk files i n num_elements.
Arguments csv_files {Row} disk path names.
Arguments main {Row} disk project_dir the_input_path the_sort the_output_file.

(** ** Views on a run *)

(** Lines 58-64 of [main]: the files in the order asked for. *)
Definition ordering {Row} (disk : Disk Row) (by_count : bool)
    (files : list string) : D Row (list string) :=
  if by_count
  then dbind (write (log_info "Sort list of files by number of elements"))
             (fun _ => sorted_by_elements disk files)
  else dbind (write (log_info "Sort list of files by target id"))
             (fun _ => dlift (sort_by get_target_id files)).

(** A run with more lines written. *)
Definition written {Row} (r : Run Row) (more : list Line) : Run Row :=
  {| store := store r; lines := lines r ++ more |}.

(** Where [main] puts the store for the output file [file]. *)
Definition target_path (project_dir file : string) : string :=
  Path.join (Path.join (Path.join project_dir "data") "processed") file.

(** The integers [start], [start + 1], ..., [n] of them. *)
Fixpoint zrange (start : Z) (n : nat) : list Z :=
  match n with
  | O => []
  | S n' => start :: zrange (start + 1) n'
  end.

(** The lines of a csv file, none when it cannot be read. *)
Definition lines_of {Row} (disk : Disk Row) (f : string) : list Row :=
  match read_csv disk f with inr current => current | inl _ => [] end.


(** The keys of a list are in order. *)
Definition in_order (keys : list Z) : Prop := StronglySorted Z.le keys.

(** The number of lines of a csv file, the key of [sorted_by_elements]. *)
Definition line_count {Row} (disk : Disk Row) (f : string) : Z :=
  Z.of_nat (length (lines_of disk f)).

(** The key that [main] sorts the files by: the number of lines with
    [--sort], the id without. *)
Definition order_key {Row} (disk : Disk Row) (by_count : bool) (f : string)
  : Py.Exc + Z :=
  if by_count then inr (line_count disk f) else get_target_id f.

(** The csv files of the input folder, as lines 53-55 of [main] list them;
    none when the folder cannot be listed. *)
Definition input_files {Row} (disk : Disk Row)
    (project_dir the_input_path : string) : list string :=
  match listdir disk (Path.join project_dir the_input_path) with
  | inr names => csv_files disk (Path.join project_dir the_input_path) names
  | inl _ => []
  end.

(** A file that can be read and whose name carries an id. *)
Definition usable {Row} (disk : Disk Row) (f : string) : Prop :=
  (exists rows, read_csv disk f = inr rows)
  /\ (exists id, get_target_id f = inr id).

(** The three lines that end a run of [main] that is done. *)
Definition closing_lines (num_elements : Z) (target_file : string) : list Line :=
  [printed "" LF;
   log_info ("We combined " ++ Py.str num_elements ++ " lines");
   log_info ("File saved: " ++ target_file)].

(** Same key, for the lines of a list kept by [filter]. *)
Definition has_count {Row} (disk : Disk Row) (k : Z) (f : string) : bool :=
  (line_count disk f =? k)%Z.

(** The last component of a path has a character that is not a dot. *)
Definition named (root : string) : bool :=
  negb (Str.all (fun a => Ascii.eqb a "."%char) (Str.basename root)).

(** A folder for the examples, with the names [names] in it: three csv
    files of two, one and one lines, whose lines are numbers, the third
    without an id in its name; every other name is a file that cannot be
    read, but for a folder named like a csv file. The target of the run is
    there or not. *)
Definition example_folder (names : list string) (target_exists : bool)
  : Disk nat :=
  {| listdir := fun path =>
       if (path =? "/project/raw")%string
       then inr names
       else inl (Py.RuntimeError "No such file or directory");
     isfile := fun path => negb (path =? "/project/raw/old.csv")%string;
     path_exists := fun path => target_exists;
     read_csv := fun path =>
       if (path =? "/project/raw/target_2.csv")%string then inr [20; 21]%nat
       else if (path =? "/project/raw/target_1.csv")%string then inr [10]%nat
       else if (path =? "/project/raw/extra.csv")%string then inr [30]%nat
       else inl (Py.RuntimeError "No such file or directory");
     create_store := fun path => inr tt;
     accept_frame := fun rows current => inr tt |}.

Definition example_disk : Disk nat :=
  example_folder ["target_2.csv"; "notes.txt"; "target_1.csv"; "old.csv"]%string
                 false.

(** The run of [main] on it, by id and by number of lines. *)
Definition example_run (by_count : bool) : Outcome nat unit :=
  main example_disk "/project" "raw" by_count "out.h5" fresh.

(** * Properties *)

(** Facts on slices. *)

Section SliceFacts.
Variable A : Type.

Lemma every_nth_error (k : nat) (l : list A) (c i : nat) :
  nth_error (Py.every k c l) i = nth_error l (c + i * S k).
Proof.
  revert c i. induction l as [|x t IH]; intros c i.
  - simpl. destruct i, (c + _)%nat; reflexivity.
  - destruct c as [|c]; cbn [Py.every].
    + destruct i as [|i]; [reflexivity|].
      cbn [nth_error]. rewrite IH.
      replace (0 + S i * S k)%nat with (S (k + i * S k)) by lia.
      reflexivity.
    + rewrite IH. reflexivity.
Qed.

(** The slice holds the least number of steps that cover what is left of
    the list from position [c]. *)
Lemma every_length (k : nat) (l : list A) (c : nat) :
  (length l - c <= length (Py.every k c l) * S k
   /\ length (Py.every k c l) * S k < length l - c + S k)%nat.
Proof.
  revert c. induction l as [|x t IH]; intros c.
  - simpl. lia.
  - destruct c as [|c]; cbn [Py.every length].
    + specialize (IH k).
      destruct (length (Py.every k k t)) as [|m]; simpl in *; nia.
    + specialize (IH c). simpl. lia.
Qed.

(** [l[c:-c]] for [0 < c] with [2c <= len l] removes [c] elements at each
    end. *)
Lemma slice_both_ends (l : list A) (c : Z) :
  (0 < c)%Z -> (2 * c <= Z.of_nat (length l))%Z ->
  Py.slice l c (- c) =
  firstn (length l - 2 * Z.to_nat c) (skipn (Z.to_nat c) l).
Proof.
  intros Hc Hl. unfold Py.slice, Py.clamp.
  destruct (Z.ltb_spec c 0); [lia|].
  destruct (Z.ltb_spec (- c) 0); [|lia].
  rewrite (Z.min_l c) by lia. rewrite Z.max_l by lia.
  f_equal. lia.
Qed.

(** [l[0:-1]] drops the last element. *)
Lemma slice_drop_last (l : list A) :
  Py.slice l 0 (-1) = firstn (length l - 1) l.
Proof.
  unfold Py.slice, Py.clamp.
  change (0 <? 0)%Z with false. change (-1 <? 0)%Z with true.
  cbv iota. rewrite Z.min_l by lia.
  change (Z.to_nat 0) with 0%nat. cbn [skipn].
  f_equal. lia.
Qed.

End SliceFacts.

(** ** Facts on the monad *)

Ltac run :=
  unfold bind, ret, raise, lift, attr, emit, set_self, local, set_local;
  cbn [self next_call out world_of].

Lemma ltb_lt (a b : Q) : Py.ltb a b = true <-> a < b.
Proof.
  unfold Py.ltb. rewrite negb_true_iff, <- not_true_iff_false, Qle_bool_iff.
  split; [apply Qnot_le_lt | apply Qlt_not_le].
Qed.

Lemma ltb_ge (a b : Q) : Py.ltb a b = false <-> b <= a.
Proof.
  unfold Py.ltb. rewrite negb_false_iff. apply Qle_bool_iff.
Qed.

(** ** Quaternions *)

Lemma quaternion_multiply_assoc (a b c : Tf.quaternion) :
  Tf.quaternion_eq
    (Tf.quaternion_multiply (Tf.quaternion_multiply a b) c)
    (Tf.quaternion_multiply a (Tf.quaternion_multiply b c)).
Proof.
  destruct a as [[[ax ay] az] aw], b as [[[bx by_] bz] bw],
           c as [[[cx cy] cz] cw].
  unfold Tf.quaternion_eq, Tf.quaternion_multiply.
  repeat split; ring.
Qed.

(** ** compute_relative_target *)

Section RelativeTarget.

Variable euler_from_quaternion : Tf.quaternion -> Q * Q * Q.

Local Abbreviation target_of := (relative_target euler_from_quaternion).
Local Abbreviation compute := (compute_relative_target euler_from_quaternion).

Lemma compute_relative_target_fail (err : Tf.TransformError) (now : Q) (w : World) :
  compute (inl err) now w = Returns None w.
Proof. destruct err; reflexivity. Qed.

Lemma compute_relative_target_ok (tr : Tf.transform) (now : Q) (w : World) :
  compute (inr tr) now w =
  match target_pose (self w) with
  | Some goal => Returns (Some (target_of goal tr)) (fed w (snapshot tr now))
  | None => Raises Py.AttributeError (fed w (snapshot tr now))
  end.
Proof.
  destruct tr as [[[px py] pz] [[[ox oy] oz] ow]].
  unfold compute_relative_target, relative_target, snapshot, fed. run.
  destruct (target_pose (self w)) as [goal|]; [|reflexivity].
  cbn [Msg.pose Msg.base_position Msg.position Msg.orientation
       Msg.x Msg.y Msg.qx Msg.qy Msg.qz Msg.qw fst snd].
  destruct (Tf.quaternion_multiply _ (Tf.quaternion_multiply _ _))
    as [[[r0 r1] r2] r3].
  reflexivity.
Qed.

Lemma compute_relative_target_none
    (lookup : Tf.TransformError + Tf.transform) (now : Q) (w w' : World) :
  compute lookup now w = Returns None w' -> exists err, lookup = inl err.
Proof.
  intros H. destruct lookup as [err|tr]; [now exists err|].
  rewrite compute_relative_target_ok in H.
  destruct (target_pose (self w)); discriminate.
Qed.

Lemma feedbacks_app (a b : list Event) :
  feedbacks (a ++ b) = feedbacks a ++ feedbacks b.
Proof. apply flat_map_app. Qed.

(** C7: the relative-target computation returns [None] exactly when the
    transform lookup fails; each of the three kinds of lookup error
    (unknown frame, no connectivity path, time out of the buffered range)
    gives the [None] result, whatever the goal, and none of them makes the
    computation raise. *)
Theorem compute_relative_target_none_iff_lookup_fails
    (lookup : Tf.TransformError + Tf.transform) (now : Q) (w : World) :
  ((exists w', compute lookup now w = Returns None w')
   <-> (exists err, lookup = inl err))
  /\ compute (inl Tf.LookupException) now w = Returns None w
  /\ compute (inl Tf.ConnectivityException) now w = Returns None w
  /\ compute (inl Tf.ExtrapolationException) now w = Returns None w.
Proof.
split; [|repeat split].
split.
- intros [w' H]. now apply compute_relative_target_none in H.
- intros [err ->]. exists w. apply compute_relative_target_fail.
Qed.

(** C10: the feedback record, the snapshot of the current pose, goes out
    exactly when the transform lookup succeeds.  When the lookup fails the
    computation returns [None] and leaves the world as it was: no feedback,
    no event, no change of state, and this for every world, also one with
    no goal pose to read. *)
Theorem feedback_iff_lookup_succeeds
    (lookup : Tf.TransformError + Tf.transform) (now : Q) (w : World) :
  feedbacks (out (world_of (compute lookup now w))) =
    feedbacks (out w)
    ++ match lookup with
       | inr tr => [snapshot tr now]
       | inl _ => []
       end
  /\ match lookup with
     | inr tr => out (world_of (compute lookup now w))
                 = out w ++ [publish_feedback (snapshot tr now)]
     | inl _ => compute lookup now w = Returns None w
     end.
Proof.
  destruct lookup as [err|tr].
  - rewrite compute_relative_target_fail. cbn [world_of].
    now rewrite app_nil_r.
  - rewrite compute_relative_target_ok.
    destruct (target_pose (self w)); cbn [world_of fed out];
      rewrite feedbacks_app; split; reflexivity.
Qed.

(** C4: with the transform available, robot at position [r] with
    orientation [p], and a goal at position [g] with orientation [q], the
    computation returns [(rotated_x, - rotated_y, yaw)]: the first two
    components of [p⁻¹ ⊗ (gx - rx, gy - ry, 0, 0) ⊗ p], the second one
    negated, and the z-axis Euler angle of [q ⊗ p⁻¹].  The product is
    associative, so the sandwich needs no brackets. *)
Theorem compute_relative_target_formula
    (goal : Msg.MoveBaseGoal) (r : Q * Q * Q) (p : Tf.quaternion)
    (now : Q) (w : World) :
  target_pose (self w) = Some goal ->
  let g := Msg.position (Msg.pose (Msg.target_pose goal)) in
  let o := Msg.orientation (Msg.pose (Msg.target_pose goal)) in
  let q := (Msg.qx o, Msg.qy o, Msg.qz o, Msg.qw o) in
  let d := (Msg.x g - fst (fst r), Msg.y g - snd (fst r), 0, 0) in
  let sandwich :=
    Tf.quaternion_multiply (Tf.quaternion_inverse p)
                           (Tf.quaternion_multiply d p) in
  let rotated_x := fst (fst (fst sandwich)) in
  let rotated_y := snd (fst (fst sandwich)) in
  let yaw :=
    snd (euler_from_quaternion
           (Tf.quaternion_multiply q (Tf.quaternion_inverse p))) in
  compute (inr (r, p)) now w
  = Returns (Some (rotated_x, - rotated_y, yaw)) (fed w (snapshot (r, p) now))
  /\ Tf.quaternion_eq
       (Tf.quaternion_multiply
          (Tf.quaternion_multiply (Tf.quaternion_inverse p) d) p)
       sandwich.
Proof.
  intros Hgoal g o q d sandwich rotated_x rotated_y yaw. split.
  - rewrite compute_relative_target_ok, Hgoal.
    destruct r as [[rx ry] rz]. unfold relative_target.
    subst rotated_x rotated_y yaw sandwich d q o g. cbn [fst snd].
    destruct (Tf.quaternion_multiply _ (Tf.quaternion_multiply _ _))
      as [[[r0 r1] r2] r3].
    reflexivity.
  - apply quaternion_multiply_assoc.
Qed.

End RelativeTarget.

(** C4 at the origin, goal (3, 4). *)
Lemma compute_relative_target_formula_witness :
  target_pose (self (world_of_node (node_of (Some goal_3_4) None Active)))
  = Some goal_3_4
  /\ compute_relative_target euler_zero (inr at_origin) 7
       (world_of_node (node_of (Some goal_3_4) None Active))
     = Returns (Some (3, - 4, 0))
         (fed (world_of_node (node_of (Some goal_3_4) None Active))
              (snapshot at_origin 7)).
Proof.
  split; [reflexivity|].
  exact (proj1 (compute_relative_target_formula euler_zero goal_3_4
                  (0, 0, 0) (0, 0, 0, 1) 7
                  (world_of_node (node_of (Some goal_3_4) None Active))
                  eq_refl)).
Defined.


(** The claim of C3 at the origin: the result for the goal (3, 4, yaw 0)
    would be within 1e-9 of (3, 4, 0). *)
Lemma origin_goal_3_4_is_not_3_4_0 :
  ~ (exists x y yaw w',
       compute_relative_target euler_zero (inr at_origin) 0
         (world_of_node (node_of (Some goal_3_4) None Active))
       = Returns (Some (x, y, yaw)) w'
       /\ Qabs (x - 3) <= 1e-9
       /\ Qabs (y - 4) <= 1e-9
       /\ Qabs (yaw - 0) <= 1e-9).
Proof.
  intros (x & y & yaw & w' & Hrun & _ & Hy & _).
  vm_compute in Hrun. injection Hrun as Hx Hy' _ _.
  subst y. vm_compute in Hy. apply Hy. reflexivity.
Qed.

(** C3, amended: with the robot at the origin of the map and not rotated,
    and the goal at (3, 4) with the identity orientation (yaw 0), the
    computation returns (3, -4, 0) exactly, as soon as the Euler extraction
    gives yaw 0 for the identity rotation: the lateral component comes out
    negated. *)
Theorem origin_goal_3_4_gives_3_minus4_0
    (euler_from_quaternion : Tf.quaternion -> Q * Q * Q)
    (now : Q) (w : World) :
  target_pose (self w) = Some goal_3_4 ->
  snd (euler_from_quaternion (0, 0, 0, 1)) = 0 ->
  compute_relative_target euler_from_quaternion (inr at_origin) now w
  = Returns (Some (3, - 4, 0)) (fed w (snapshot at_origin now)).
Proof.
  intros Hgoal Hyaw.
  rewrite compute_relative_target_ok, Hgoal.
  unfold relative_target, at_origin, goal_3_4.
  cbn [Msg.position Msg.pose Msg.target_pose Msg.orientation
       Msg.x Msg.y Msg.qx Msg.qy Msg.qz Msg.qw].
  change (Tf.quaternion_multiply (0, 0, 0, 1) (Tf.quaternion_inverse (0, 0, 0, 1)))
    with ((0, 0, 0, 1) : Tf.quaternion).
  rewrite Hyaw. reflexivity.
Qed.

Lemma origin_goal_3_4_gives_3_minus4_0_witness :
  compute_relative_target euler_zero (inr at_origin) 0
    (world_of_node (node_of (Some goal_3_4) None Active))
  = Returns (Some (3, - 4, 0))
      (fed (world_of_node (node_of (Some goal_3_4) None Active))
           (snapshot at_origin 0)).
Proof.
  apply (origin_goal_3_4_gives_3_minus4_0 euler_zero 0
           (world_of_node (node_of (Some goal_3_4) None Active)));
    reflexivity.
Defined.

(** ** The scans of the input vector *)

Lemma after_nil (w : World) : after w [] = w.
Proof. destruct w. unfold after. cbn. now rewrite app_nil_r. Qed.

Lemma after_after (w : World) (a b : list Event) :
  after (after w a) b = after w (a ++ b).
Proof. unfold after. cbn. now rewrite app_assoc. Qed.

Lemma cropped_scans_run (scan : Msg.LaserScan) (w : World) (scans : list Q) :
  Py.step_slice (Msg.ranges scan) (laser_scan_stride (self w)) = inr scans ->
  cropped_scans scan w
  = Returns (crop (n_laser_scans (self w)) scans)
            (after w (crop_logs (n_laser_scans (self w)) scans)).
Proof.
  intros Hs. unfold cropped_scans, crop, crop_logs. run. rewrite Hs. run.
  destruct (0 <? _)%Z; run.
  - destruct (_ =? _)%Z; run; unfold after; cbn [self next_call out];
      rewrite <- ?app_assoc; reflexivity.
  - destruct (_ =? _)%Z; run; [reflexivity|].
    now rewrite after_nil.
Qed.

Lemma cropped_scans_zero_stride (scan : Msg.LaserScan) (w : World) :
  laser_scan_stride (self w) = 0%Z ->
  cropped_scans scan w = Raises Py.ValueError w.
Proof.
  intros Hs. unfold cropped_scans, Py.step_slice. run. rewrite Hs. reflexivity.
Qed.

Lemma step_slice_positive (samples : list Q) (stride : Z) :
  (0 < stride)%Z -> Py.step_slice samples stride = inr (decimated stride samples).
Proof.
  intros H. unfold Py.step_slice, decimated.
  destruct (Z.eqb_spec stride 0); [lia|].
  destruct (Z.ltb_spec 0 stride); [reflexivity|lia].
Qed.

Lemma decimated_nth_error (samples : list Q) (stride : Z) (i : nat) :
  (0 < stride)%Z ->
  nth_error (decimated stride samples) i = nth_error samples (i * Z.to_nat stride).
Proof.
  intros H. unfold decimated. rewrite every_nth_error.
  f_equal. replace (S (Z.to_nat stride - 1)) with (Z.to_nat stride) by lia.
  reflexivity.
Qed.

(** The decimation keeps one sample in [stride], rounded up. *)
Lemma decimated_length (samples : list Q) (stride : Z) :
  (0 < stride)%Z ->
  Z.of_nat (length (decimated stride samples))
  = ((Z.of_nat (length samples) + stride - 1) / stride)%Z.
Proof.
  intros H. unfold decimated.
  pose proof (every_length Q (Z.to_nat stride - 1) samples 0) as [Hlo Hhi].
  replace (S (Z.to_nat stride - 1)) with (Z.to_nat stride) in * by lia.
  set (m := length (Py.every (Z.to_nat stride - 1) 0 samples)) in *.
  apply (Z.div_unique _ _ _
           (Z.of_nat (length samples) + stride - 1 - stride * Z.of_nat m)); nia.
Qed.

(** With enough scans the crop is the run of [n] scans that starts after the
    first [(d - n) / 2]. *)
Lemma crop_centered (n : Z) (scans : list Q) :
  (0 <= n <= Z.of_nat (length scans))%Z ->
  crop n scans
  = firstn (Z.to_nat n)
      (skipn (Z.to_nat ((Z.of_nat (length scans) - n) / 2)) scans).
Proof.
  intros Hn. unfold crop.
  set (d := Z.of_nat (length scans)) in *.
  set (c := ((d - n) / 2)%Z).
  assert (Hc : (0 <= c /\ 2 * c <= d - n < 2 * c + 2)%Z).
  { subst c. pose proof (Z.div_mod (d - n) 2 ltac:(lia)).
    pose proof (Z.mod_pos_bound (d - n) 2 ltac:(lia)). lia. }
  destruct (Z.ltb_spec 0 c) as [Hpos|Hzero].
  - rewrite slice_both_ends by (fold d; lia).
    assert (Hlen : length (firstn (length scans - 2 * Z.to_nat c)
                             (skipn (Z.to_nat c) scans))
                   = (length scans - 2 * Z.to_nat c)%nat).
    { rewrite length_firstn, length_skipn. lia. }
    rewrite Hlen.
    destruct (Z.eqb_spec (Z.of_nat (length scans - 2 * Z.to_nat c)) (n + 1)) as [Ho|He].
    + rewrite slice_drop_last, Hlen, firstn_firstn. f_equal. lia.
    + f_equal. lia.
  - assert (c = 0%Z) as -> by lia. cbn [Z.to_nat skipn].
    destruct (Z.eqb_spec (Z.of_nat (length scans)) (n + 1)) as [Ho|He].
    + rewrite slice_drop_last. f_equal. lia.
    + rewrite firstn_all2 by (fold d in He; lia). reflexivity.
Qed.

Lemma crop_length (n : Z) (scans : list Q) :
  (0 <= n <= Z.of_nat (length scans))%Z ->
  Z.of_nat (length (crop n scans)) = n.
Proof.
  intros Hn. rewrite crop_centered by assumption.
  rewrite length_firstn, length_skipn.
  pose proof (Z.div_mod (Z.of_nat (length scans) - n) 2 ltac:(lia)).
  pose proof (Z.mod_pos_bound (Z.of_nat (length scans) - n) 2 ltac:(lia)).
  lia.
Qed.

(** With too few scans nothing is cut and nothing is logged. *)
Lemma crop_short (n : Z) (scans : list Q) :
  (Z.of_nat (length scans) < n)%Z ->
  crop n scans = scans /\ crop_logs n scans = [].
Proof.
  intros Hn. unfold crop, crop_logs.
  assert (Hc : ((Z.of_nat (length scans) - n) / 2 < 0)%Z)
    by (apply Z.div_lt_upper_bound; lia).
  destruct (Z.ltb_spec 0 ((Z.of_nat (length scans) - n) / 2)); [lia|].
  destruct (Z.eqb_spec (Z.of_nat (length scans)) (n + 1)); [lia|].
  split; reflexivity.
Qed.

(** The scans around the crop: [c] at each end and, between the crop and the
    back, the one left over when the excess is odd. *)
Lemma crop_surroundings (n : Z) (scans : list Q) :
  (0 <= n <= Z.of_nat (length scans))%Z ->
  let c := ((Z.of_nat (length scans) - n) / 2)%Z in
  exists front extra back,
    scans = front ++ crop n scans ++ extra ++ back
    /\ Z.of_nat (length front) = c
    /\ Z.of_nat (length back) = c
    /\ Z.of_nat (length extra) = ((Z.of_nat (length scans) - n) mod 2)%Z.
Proof.
  intros Hn c. rewrite crop_centered by assumption. fold c.
  pose proof (Z.div_mod (Z.of_nat (length scans) - n) 2 ltac:(lia)) as Hdiv.
  pose proof (Z.mod_pos_bound (Z.of_nat (length scans) - n) 2 ltac:(lia)) as Hmod.
  fold c in Hdiv.
  set (m := ((Z.of_nat (length scans) - n) mod 2)%Z) in *.
  set (rest := skipn (Z.to_nat n) (skipn (Z.to_nat c) scans)).
  exists (firstn (Z.to_nat c) scans),
         (firstn (Z.to_nat m) rest), (skipn (Z.to_nat m) rest).
  assert (Hrest : length rest = (length scans - Z.to_nat c - Z.to_nat n)%nat)
    by (unfold rest; now rewrite !length_skipn).
  repeat split.
  - rewrite (firstn_skipn (Z.to_nat m) rest). unfold rest.
    now rewrite (firstn_skipn (Z.to_nat n)), (firstn_skipn (Z.to_nat c)).
  - rewrite length_firstn. lia.
  - rewrite length_skipn, Hrest. lia.
  - rewrite length_firstn, Hrest. lia.
Qed.

(** C2: when the decimation of the samples (every [stride]-th one, in order)
    has [d >= target_len] elements, the preprocessing returns exactly
    [target_len] of them: [(d - target_len) / 2] are removed at each end and,
    when that leaves [target_len + 1], the last one is dropped as well.  So
    [d = target_len + 2k] loses [k] at each end, and [d = target_len + 1]
    gives the first [target_len] decimated elements; [target_len] is 540 by
    default. *)
Theorem cropped_scans_centered_trim (scan : Msg.LaserScan) (w : World) :
  let stride := laser_scan_stride (self w) in
  let n := n_laser_scans (self w) in
  let scans := decimated stride (Msg.ranges scan) in
  let d := Z.of_nat (length scans) in
  (0 < stride)%Z ->
  (0 <= n <= d)%Z ->
  exists cropped w',
    cropped_scans scan w = Returns cropped w'
    /\ self w' = self w
    /\ Z.of_nat (length cropped) = n
    /\ (forall i, nth_error scans i
                  = nth_error (Msg.ranges scan) (i * Z.to_nat stride))
    /\ (exists front extra back,
           scans = front ++ cropped ++ extra ++ back
           /\ Z.of_nat (length front) = ((d - n) / 2)%Z
           /\ Z.of_nat (length back) = ((d - n) / 2)%Z
           /\ Z.of_nat (length extra) = ((d - n) mod 2)%Z)
    /\ (forall k, d = (n + 2 * k)%Z ->
           exists front back,
             scans = front ++ cropped ++ back
             /\ Z.of_nat (length front) = k
             /\ Z.of_nat (length back) = k)
    /\ (d = (n + 1)%Z -> cropped = firstn (Z.to_nat n) scans).
Proof.
  intros stride n scans d Hstride Hn.
  exists (crop n scans), (after w (crop_logs n scans)).
  split; [|split; [|split; [|split; [|split; [|split]]]]].
  - apply cropped_scans_run. now apply step_slice_positive.
  - reflexivity.
  - now apply crop_length.
  - intros i. now apply decimated_nth_error.
  - now apply crop_surroundings.
  - intros k Hk.
    destruct (crop_surroundings n scans Hn)
      as (front & extra & back & Heq & Hf & Hb & He).
    fold d in Hf, Hb, He.
    assert (Hdiv : ((d - n) / 2 = k)%Z).
    { replace (d - n)%Z with (k * 2)%Z by lia. apply Z.div_mul. lia. }
    assert (Hmod : ((d - n) mod 2 = 0)%Z).
    { replace (d - n)%Z with (k * 2)%Z by lia. apply Z.mod_mul. lia. }
    rewrite Hmod in He. destruct extra; [|discriminate].
    exists front, back. repeat split; [exact Heq | lia | lia].
  - intros Hd. rewrite crop_centered by assumption. fold d.
    replace ((d - n) / 2)%Z with 0%Z; [reflexivity|].
    replace (d - n)%Z with 1%Z by lia. reflexivity.
Qed.

(** C2 on the ramp 0, 1, ..., 1080: its 541 even samples, cropped to the
    first 540 of them. *)
Lemma cropped_scans_centered_trim_witness :
  (0 < laser_scan_stride node_ramp)%Z
  /\ Z.of_nat (length (decimated 2 (ramp 1081))) = 541%Z
  /\ exists cropped w',
      cropped_scans scan_ramp (world_of_node node_ramp) = Returns cropped w'
      /\ Z.of_nat (length cropped) = 540%Z
      /\ cropped = firstn 540 (decimated 2 (ramp 1081)).
Proof.
  split; [reflexivity|]. split; [vm_compute; reflexivity|].
  destruct (cropped_scans_centered_trim scan_ramp (world_of_node node_ramp))
    as (cropped & w' & Hrun & _ & Hlen & _ & _ & _ & Hodd).
  - reflexivity.
  - vm_compute. split; discriminate.
  - exists cropped, w'. split; [exact Hrun|]. split; [exact Hlen|].
    apply Hodd. vm_compute. reflexivity.
Defined.

(** ** check_goal_reached *)

(** A transition from Active is made in that state and in no other. *)
Lemma from_active_run (s : GoalState) (w : World) :
  from_active s w
  = match _as (self w) with
    | Active => set_status s w
    | _ => Returns tt w
    end.
Proof.
  unfold from_active, is_active, bind, attr, ret.
  destruct (_as (self w)); reflexivity.
Qed.

Lemma check_goal_reached_run (dx dy dyaw : Q) (w : World) :
  check_goal_reached (dx, dy, dyaw) w
  = if Py.ltb (Qabs dx) 0.1 && Py.ltb (Qabs dy) 0.1 && Py.ltb (Qabs dyaw) 0.1
    then set_succeeded w
    else Returns tt w.
Proof.
  unfold check_goal_reached.
  destruct (_ && _ && _); reflexivity.
Qed.

Lemma within_tolerance_iff (dx dy dyaw : Q) :
  Py.ltb (Qabs dx) 0.1 && Py.ltb (Qabs dy) 0.1 && Py.ltb (Qabs dyaw) 0.1 = true
  <-> Qabs dx < 0.1 /\ Qabs dy < 0.1 /\ Qabs dyaw < 0.1.
Proof.
  rewrite !andb_true_iff, !ltb_lt. tauto.
Qed.

(** C8: with a goal Active, [check_goal_reached] on the relative target
    [(dx, dy, dyaw)] makes the goal Succeeded if and only if [|dx|] and
    [|dy|] are strictly below the position tolerance and [|dyaw|] strictly
    below the orientation tolerance (both 0.1); when one of the three fails
    nothing changes. *)
Theorem check_goal_reached_succeeds_iff_within_tolerance
    (dx dy dyaw : Q) (w : World) :
  _as (self w) = Active ->
  let pos_tol := 0.1 in
  let orient_tol := 0.1 in
  exists w',
    check_goal_reached (dx, dy, dyaw) w = Returns tt w'
    /\ (_as (self w') = Succeeded
        <-> Qabs dx < pos_tol /\ Qabs dy < pos_tol /\ Qabs dyaw < orient_tol)
    /\ (_as (self w') = Succeeded \/ w' = w)
    /\ (target_pose (self w'), last_scan (self w'), out w')
       = (target_pose (self w), last_scan (self w), out w).
Proof.
  intros Hactive pos_tol orient_tol. rewrite check_goal_reached_run.
  pose proof (within_tolerance_iff dx dy dyaw) as Hiff.
  destruct (_ && _ && _).
  - unfold set_succeeded. rewrite from_active_run, Hactive.
    eexists. split; [reflexivity|]. cbn [self _as out target_pose last_scan].
    split; [|split]; [|now left|reflexivity].
    split; [intros _; now apply Hiff|reflexivity].
  - exists w. split; [reflexivity|].
    split; [|split]; [|now right|reflexivity].
    split.
    + rewrite Hactive. discriminate.
    + intros H. apply Hiff in H. discriminate.
Qed.

(** C8 on a target within the tolerances, and on one a hair outside. *)
Lemma check_goal_reached_succeeds_iff_within_tolerance_witness :
  _as (self (world_of_node node_3_4)) = Active
  /\ (exists w', check_goal_reached (0.05, -0.09, 0.01) (world_of_node node_3_4)
                 = Returns tt w'
                 /\ _as (self w') = Succeeded)
  /\ check_goal_reached (0.05, 0.1, 0.01) (world_of_node node_3_4)
     = Returns tt (world_of_node node_3_4).
Proof.
  split; [reflexivity|]. split.
  - destruct (check_goal_reached_succeeds_iff_within_tolerance
                0.05 (-0.09) 0.01 (world_of_node node_3_4) eq_refl)
      as (w' & Hrun & Hiff & _).
    exists w'. split; [exact Hrun|]. apply Hiff.
    repeat split; reflexivity.
  - destruct (check_goal_reached_succeeds_iff_within_tolerance
                0.05 0.1 0.01 (world_of_node node_3_4) eq_refl)
      as (w' & Hrun & Hiff & [Hs|Hw] & _).
    + apply Hiff in Hs. destruct Hs as (_ & Hy & _).
      vm_compute in Hy. discriminate.
    + rewrite Hrun, Hw. reflexivity.
Defined.

(** ** What a computation keeps *)

Lemma wakes_app (a b : list Event) : wakes (a ++ b) = (wakes a + wakes b)%nat.
Proof. unfold wakes. now rewrite filter_app, length_app. Qed.

Lemma quiet_app (a b : list Event) : quiet (a ++ b) = quiet a ++ quiet b.
Proof. apply filter_app. Qed.

Lemma published_app (a b : list Event) :
  published (a ++ b) = published a ++ published b.
Proof. apply flat_map_app. Qed.

Lemma inferred_app (a b : list Event) :
  inferred (a ++ b) = inferred a ++ inferred b.
Proof. apply flat_map_app. Qed.

Lemma steady_refl (w : World) : steady w w.
Proof. repeat split. Qed.

Lemma steady_trans (a b c : World) : steady a b -> steady b c -> steady a c.
Proof. unfold steady. intuition congruence. Qed.

Lemma keeps_ret {A} (a : A) : keeps (ret a).
Proof. intros w. apply steady_refl. Qed.

Lemma keeps_raise {A} (e : Py.Exc) : keeps (@raise A e).
Proof. intros w. apply steady_refl. Qed.

Lemma keeps_lift {A} (r : Py.Exc + A) : keeps (lift r).
Proof. destruct r; [apply keeps_raise | apply keeps_ret]. Qed.

Lemma keeps_attr {A} (f : DeepMotionPlanner -> A) : keeps (attr f).
Proof. intros w. apply steady_refl. Qed.

Lemma keeps_bind {A B} (c : M A) (k : A -> M B) :
  keeps c -> (forall a, keeps (k a)) -> keeps (bind c k).
Proof.
  intros Hc Hk w. unfold bind. specialize (Hc w).
  destruct (c w) as [a w'|e w']; cbn [world_of] in *; [|exact Hc].
  eapply steady_trans; [exact Hc | apply Hk].
Qed.

Lemma keeps_emit (e : Event) : is_wake e = false -> keeps (emit e).
Proof.
  intros He w. unfold emit, steady. cbn [world_of self next_call out].
  rewrite wakes_app. unfold wakes at 2. cbn [filter]. rewrite He.
  cbn [length]. repeat split. lia.
Qed.

Lemma keeps_set_status (s : GoalState) : keeps (set_status s).
Proof. intros w. repeat split. Qed.

Lemma keeps_scan_callback (data : Msg.LaserScan) : keeps (scan_callback data).
Proof. intros w. repeat split. Qed.

Ltac keeps_step :=
  first
    [ apply keeps_ret | apply keeps_raise | apply keeps_lift | apply keeps_attr
    | apply keeps_set_status | apply keeps_scan_callback
    | apply keeps_emit; reflexivity
    | apply keeps_bind; [|intros]
    | match goal with
      | |- keeps (match ?x with _ => _ end) => destruct x
      end ].

Lemma keeps_goal_callback (pending : Msg.MoveBaseGoal) :
  keeps (goal_callback pending).
Proof.
  unfold goal_callback, accept_new_goal. repeat keeps_step.
Qed.

Lemma keeps_run_callbacks (cs : list Callback) : keeps (run_callbacks cs).
Proof.
  induction cs as [|c cs IH]; cbn [run_callbacks]; [apply keeps_ret|].
  apply keeps_bind; [|intros; exact IH].
  destruct c; cbn [run_callback];
    [ apply keeps_scan_callback | apply keeps_goal_callback | ].
  unfold preempt_callback, set_preempted, from_active, is_active.
  repeat keeps_step.
Qed.

Lemma keeps_check_goal_reached (target : Q * Q * Q) :
  keeps (check_goal_reached target).
Proof.
  unfold check_goal_reached, set_succeeded, from_active, is_active.
  repeat keeps_step.
Qed.

Lemma keeps_cropped_scans (scan : Msg.LaserScan) : keeps (cropped_scans scan).
Proof. unfold cropped_scans. repeat keeps_step. Qed.

Lemma keeps_compute_relative_target
    (euler : Tf.quaternion -> Q * Q * Q)
    (lookup : Tf.TransformError + Tf.transform) (now : Q) :
  keeps (compute_relative_target euler lookup now).
Proof. unfold compute_relative_target. repeat keeps_step. Qed.

Lemma keeps_body
    (euler : Tf.quaternion -> Q * Q * Q)
    (engine : list Q -> Py.Exc + (Q * Q))
    (lookup : Tf.TransformError + Tf.transform) (now : Q) :
  keeps (body euler engine lookup now).
Proof.
  unfold body, is_active.
  repeat first
    [ apply keeps_compute_relative_target | apply keeps_cropped_scans
    | apply keeps_check_goal_reached | keeps_step ].
Qed.

(** ** What does not depend on the clock *)

Lemma alike_refl (w : World) : alike w w.
Proof. repeat split. Qed.

Lemma same_run_ret {A} (a : A) : same_run (ret a) (ret a).
Proof. intros w1 w2 H. split; [reflexivity | exact H]. Qed.

Lemma same_run_raise {A} (e : Py.Exc) : same_run (@raise A e) (raise e).
Proof. intros w1 w2 H. split; [reflexivity | exact H]. Qed.

Lemma same_run_lift {A} (r : Py.Exc + A) : same_run (lift r) (lift r).
Proof. destruct r; [apply same_run_raise | apply same_run_ret]. Qed.

Lemma same_run_attr {A} (f : DeepMotionPlanner -> A) : same_run (attr f) (attr f).
Proof.
  intros w1 w2 H. unfold attr. split; [|exact H].
  destruct H as (-> & _). reflexivity.
Qed.

Lemma same_run_local : same_run local local.
Proof.
  intros w1 w2 H. unfold local. split; [|exact H].
  destruct H as (_ & -> & _). reflexivity.
Qed.

Lemma same_run_set_local (t : float) : same_run (set_local t) (set_local t).
Proof.
  intros w1 w2 (Hs & Hn & Ho). unfold set_local.
  split; [reflexivity|]. repeat split; assumption.
Qed.

Lemma same_run_set_self (f : DeepMotionPlanner -> DeepMotionPlanner) :
  same_run (set_self f) (set_self f).
Proof.
  intros w1 w2 (Hs & Hn & Ho). unfold set_self.
  split; [reflexivity|]. repeat split; cbn [self next_call out]; congruence.
Qed.

Lemma same_run_emit (e : Event) : same_run (emit e) (emit e).
Proof.
  intros w1 w2 (Hs & Hn & Ho). unfold emit.
  split; [reflexivity|]. repeat split; cbn [self next_call out]; try assumption.
  rewrite !quiet_app. congruence.
Qed.

(** Two waits are alike, whatever the clocks read. *)
Lemma same_run_wakes (e1 e2 : Event) :
  is_wake e1 = true -> is_wake e2 = true -> same_run (emit e1) (emit e2).
Proof.
  intros H1 H2 w1 w2 (Hs & Hn & Ho). unfold emit.
  split; [reflexivity|]. repeat split; cbn [self next_call out]; try assumption.
  rewrite !quiet_app, Ho. f_equal.
  unfold quiet. cbn [filter]. rewrite H1, H2. reflexivity.
Qed.

Lemma same_run_bind {A B} (c1 c2 : M A) (k1 k2 : A -> M B) :
  same_run c1 c2 -> (forall a, same_run (k1 a) (k2 a)) ->
  same_run (bind c1 k1) (bind c2 k2).
Proof.
  intros Hc Hk w1 w2 H. unfold bind. specialize (Hc w1 w2 H).
  destruct (c1 w1) as [a1 w1'|e1 w1'], (c2 w2) as [a2 w2'|e2 w2'];
    cbn [alike_result] in Hc; try contradiction.
  - destruct Hc as [-> Hc]. now apply Hk.
  - exact Hc.
Qed.

Ltac same_step :=
  first
    [ apply same_run_ret | apply same_run_raise | apply same_run_lift
    | apply same_run_attr | apply same_run_local | apply same_run_set_local
    | apply same_run_set_self | apply same_run_emit
    | apply same_run_bind; [|intros]
    | match goal with
      | |- same_run (match ?x with _ => _ end) (match ?x with _ => _ end) =>
          destruct x
      end ].

Lemma same_run_callbacks (cs : list Callback) :
  same_run (run_callbacks cs) (run_callbacks cs).
Proof.
  induction cs as [|c cs IH]; cbn [run_callbacks]; [apply same_run_ret|].
  apply same_run_bind; [|intros; exact IH].
  destruct c; cbn [run_callback];
    unfold scan_callback, goal_callback, accept_new_goal, preempt_callback,
      set_preempted, from_active, is_active, set_status;
    repeat same_step.
Qed.

Lemma same_run_body
    (euler : Tf.quaternion -> Q * Q * Q)
    (engine : list Q -> Py.Exc + (Q * Q))
    (lookup : Tf.TransformError + Tf.transform) (now : Q) :
  same_run (body euler engine lookup now) (body euler engine lookup now).
Proof.
  unfold body, is_active, compute_relative_target, cropped_scans,
    check_goal_reached, set_succeeded, from_active, is_active, set_status.
  repeat same_step.
Qed.

Lemma same_run_wait (now1 now2 : float) :
  same_run (wait_next_call now1) (wait_next_call now2).
Proof.
  unfold wait_next_call. repeat same_step.
  destruct (0 <? _)%float, (0 <? _)%float; apply same_run_wakes; reflexivity.
Qed.

(** ** One pass of the loop *)

Section Pass.

Variable euler_from_quaternion : Tf.quaternion -> Q * Q * Q.
Variable tf_wrapper_inference : list Q -> Py.Exc + (Q * Q).

Local Abbreviation target_of := (relative_target euler_from_quaternion).
Local Abbreviation the_body := (body euler_from_quaternion tf_wrapper_inference).
Local Abbreviation the_pass := (pass euler_from_quaternion tf_wrapper_inference).
Local Abbreviation the_loop := (loop euler_from_quaternion tf_wrapper_inference).

Lemma is_active_run (w : World) :
  is_active w
  = Returns (match _as (self w) with Active => true | _ => false end) w.
Proof. reflexivity. Qed.

(** The body is skipped without a trace. *)
Lemma body_skip (lookup : Tf.TransformError + Tf.transform) (now : Q) (w : World) :
  _as (self w) <> Active \/ target_pose (self w) = None
  \/ last_scan (self w) = None \/ (exists err, lookup = inl err) ->
  the_body lookup now w = Returns tt w.
Proof.
  intros H. unfold body.
  unfold bind at 1. rewrite is_active_run.
  destruct (_as (self w)) eqn:Hs; try reflexivity.
  cbn [negb]. run.
  destruct (target_pose (self w)) as [goal|] eqn:Hg; [|reflexivity].
  destruct (last_scan (self w)) as [scan|] eqn:Hl; [|reflexivity].
  destruct H as [H|[H|[H|[err ->]]]]; try congruence.
  rewrite compute_relative_target_fail. reflexivity.
Qed.

(** The body up to the call of the engine, and after it. *)
Lemma body_run (tr : Tf.transform) (now : Q) (w : World)
    (goal : Msg.MoveBaseGoal) (scan : Msg.LaserScan) :
  _as (self w) = Active ->
  target_pose (self w) = Some goal ->
  last_scan (self w) = Some scan ->
  the_body (inr tr) now w
  = match Py.step_slice (Msg.ranges scan) (laser_scan_stride (self w)) with
    | inl e => Raises e (fed w (snapshot tr now))
    | inr scans =>
        let target := target_of goal tr in
        let input_data :=
          crop (n_laser_scans (self w)) scans ++ list_of_target target in
        let w1 :=
          after w ([publish_feedback (snapshot tr now)]
                   ++ crop_logs (n_laser_scans (self w)) scans
                   ++ [inference input_data]) in
        match tf_wrapper_inference input_data with
        | inl e => Raises e w1
        | inr (linear_x, angular_z) =>
            check_goal_reached target
              (after w1 [publish (command linear_x angular_z)])
        end
    end.
Proof.
  intros Hs Hg Hl. unfold body.
  unfold bind at 1. rewrite is_active_run, Hs. cbn [negb].
  unfold bind at 1. unfold attr at 1. rewrite Hg.
  unfold bind at 1. unfold attr at 1. rewrite Hl.
  unfold bind at 1. rewrite compute_relative_target_ok, Hg.
  unfold bind at 1.
  destruct (Py.step_slice _ _) as [e|scans] eqn:Hslice.
  - unfold cropped_scans. run. cbn [fed self]. rewrite Hslice. reflexivity.
  - rewrite (cropped_scans_run scan _ scans) by exact Hslice.
    cbn [fed self].
    unfold bind at 1. unfold emit at 1.
    unfold bind at 1.
    set (input := crop _ _ ++ _).
    assert (Hw : forall evs,
      {| self := self (after (fed w (snapshot tr now))
                        (crop_logs (n_laser_scans (self w)) scans));
         next_call := next_call (after (fed w (snapshot tr now))
                        (crop_logs (n_laser_scans (self w)) scans));
         out := out (after (fed w (snapshot tr now))
                        (crop_logs (n_laser_scans (self w)) scans)) ++ evs |}
      = after w ([publish_feedback (snapshot tr now)]
                 ++ crop_logs (n_laser_scans (self w)) scans ++ evs)).
    { intros evs. unfold after, fed. cbn [self next_call out].
      now rewrite <- !app_assoc. }
    rewrite Hw.
    destruct (tf_wrapper_inference input) as [e|[linear_x angular_z]].
    + reflexivity.
    + cbn [lift]. unfold ret. unfold bind at 1. unfold emit at 1.
      reflexivity.
Qed.

End Pass.

(** ** The deadline *)

Lemma wait_next_call_run (clock : float) (w : World) :
  (freq (self w) =? 0)%float = false ->
  wait_next_call clock w
  = Returns tt {| self := self w;
                  next_call := (next_call w + 1 / freq (self w))%float;
                  out := out w ++ [wake (next_call w + 1 / freq (self w))%float clock] |}.
Proof.
  intros Hf. unfold wait_next_call, Py.truediv, wake. run.
  rewrite Hf. cbn [lift]. unfold ret. destruct (0 <? _)%float; reflexivity.
Qed.

Lemma wait_next_call_zero (clock : float) (w : World) :
  (freq (self w) =? 0)%float = true ->
  wait_next_call clock w = Raises Py.ZeroDivisionError w.
Proof.
  intros Hf. unfold wait_next_call, Py.truediv. run.
  rewrite Hf. reflexivity.
Qed.

Lemma is_wake_wake (deadline clock : float) : is_wake (wake deadline clock) = true.
Proof. unfold wake. destruct (0 <? _)%float; reflexivity. Qed.

(** A preemption is logged; the goal is Preempted if it was Active. *)
Lemma preempt_callback_run (w : World) :
  preempt_callback w
  = Returns tt
      {| self := match _as (self w) with
                 | Active =>
                     {| target_pose := target_pose (self w);
                        last_scan := last_scan (self w);
                        freq := freq (self w);
                        laser_scan_stride := laser_scan_stride (self w);
                        n_laser_scans := n_laser_scans (self w);
                        _as := Preempted |}
                 | _ => self w
                 end;
         next_call := next_call w;
         out := out w ++ [logerr "Action preempted"] |}.
Proof.
  unfold preempt_callback, set_preempted, bind, emit.
  rewrite from_active_run. cbn [self].
  destruct (_as (self w)); reflexivity.
Qed.

Lemma run_callbacks_returns (cs : list Callback) (w : World) :
  exists w', run_callbacks cs w = Returns tt w'.
Proof.
  revert w. induction cs as [|c cs IH]; intros w; cbn [run_callbacks].
  - now exists w.
  - unfold bind. destruct c; cbn [run_callback];
      [apply IH | apply IH | rewrite preempt_callback_run; apply IH].
Qed.

Lemma published_wake (deadline clock : float) : published [wake deadline clock] = [].
Proof. unfold wake. destruct (0 <? _)%float; reflexivity. Qed.

Lemma inferred_wake (deadline clock : float) : inferred [wake deadline clock] = [].
Proof. unfold wake. destruct (0 <? _)%float; reflexivity. Qed.

Lemma published_crop_logs (n : Z) (scans : list Q) :
  published (crop_logs n scans) = [].
Proof. unfold crop_logs. destruct (0 <? _)%Z, (_ =? _)%Z; reflexivity. Qed.

Lemma inferred_crop_logs (n : Z) (scans : list Q) :
  inferred (crop_logs n scans) = [].
Proof. unfold crop_logs. destruct (0 <? _)%Z, (_ =? _)%Z; reflexivity. Qed.

Lemma check_goal_reached_returns (target : Q * Q * Q) (w : World) :
  exists w',
    check_goal_reached target w = Returns tt w'
    /\ out w' = out w /\ next_call w' = next_call w.
Proof.
  destruct target as [[dx dy] dyaw]. rewrite check_goal_reached_run.
  unfold set_succeeded. rewrite from_active_run.
  destruct (_ && _ && _); [destruct (_as (self w))|]; eexists; repeat split.
Qed.

(** On an Active goal the check ends with the goal Succeeded exactly when the
    target is within the tolerances; it emits nothing. *)
Lemma check_reached_on_active (target : Q * Q * Q) (w : World) :
  _as (self w) = Active ->
  exists w',
    check_goal_reached target w = Returns tt w'
    /\ out w' = out w /\ next_call w' = next_call w
    /\ (_as (self w') = Succeeded
        <-> Qabs (fst (fst target)) < 0.1 /\ Qabs (snd (fst target)) < 0.1
            /\ Qabs (snd target) < 0.1).
Proof.
  intros Hactive. destruct target as [[dx dy] dyaw]. cbn [fst snd].
  rewrite check_goal_reached_run.
  unfold set_succeeded. rewrite from_active_run, Hactive.
  pose proof (within_tolerance_iff dx dy dyaw) as Hiff.
  destruct (_ && _ && _).
  - eexists. split; [reflexivity|]. split; [reflexivity|].
    split; [reflexivity|]. split; [intros _; now apply Hiff | reflexivity].
  - exists w. split; [reflexivity|]. split; [reflexivity|].
    split; [reflexivity|]. split.
    + rewrite Hactive. discriminate.
    + intros H. apply Hiff in H. discriminate.
Qed.

(** The callbacks publish no command and do not call the engine. *)
Lemma run_callbacks_silent (cs : list Callback) (w w' : World) :
  run_callbacks cs w = Returns tt w' ->
  published (out w') = published (out w)
  /\ inferred (out w') = inferred (out w).
Proof.
  revert w. induction cs as [|c cs IH]; intros w; cbn [run_callbacks].
  - intros [= <-]. split; reflexivity.
  - unfold bind. destruct c; cbn [run_callback];
      try rewrite preempt_callback_run; intros H; apply IH in H;
      cbn [self out next_call] in H; try exact H.
    rewrite published_app, inferred_app, !app_nil_r in H. exact H.
Qed.

Section Loop.

Variable euler_from_quaternion : Tf.quaternion -> Q * Q * Q.
Variable tf_wrapper_inference : list Q -> Py.Exc + (Q * Q).

Local Abbreviation the_body := (body euler_from_quaternion tf_wrapper_inference).
Local Abbreviation the_tick := (tick euler_from_quaternion tf_wrapper_inference).
Local Abbreviation the_pass := (pass euler_from_quaternion tf_wrapper_inference).
Local Abbreviation the_loop := (loop euler_from_quaternion tf_wrapper_inference).

(** A tick is the wait and then the body. *)
Lemma tick_run (clock : float) (lookup : Tf.TransformError + Tf.transform)
    (now : Q) (w : World) :
  (freq (self w) =? 0)%float = false ->
  the_tick clock lookup now w = the_body lookup now (woken w clock).
Proof.
  intros Hf. unfold tick. unfold bind at 1.
  now rewrite wait_next_call_run.
Qed.

(** A pass is the callbacks and then the tick; the callbacks always return. *)
Lemma pass_run (p : Pass) (w : World) :
  exists w0,
    run_callbacks (callbacks p) w = Returns tt w0
    /\ the_pass p w = the_tick (time_time p) (lookupTransform p) (rospy_Time_now p) w0.
Proof.
  destruct (run_callbacks_returns (callbacks p) w) as [w0 Hcb].
  exists w0. split; [exact Hcb|].
  unfold pass. unfold bind at 1. now rewrite Hcb.
Qed.

(** Over a pass the deadline moves by one period and one wait is added. *)
Lemma pass_deadline (p : Pass) (w : World) :
  (freq (self w) =? 0)%float = false ->
  freq (self (world_of (the_pass p w))) = freq (self w)
  /\ next_call (world_of (the_pass p w)) = (next_call w + 1 / freq (self w))%float
  /\ wakes (out (world_of (the_pass p w))) = S (wakes (out w)).
Proof.
  intros Hf.
  destruct (pass_run p w) as (w0 & Hcb & ->).
  pose proof (keeps_run_callbacks (callbacks p) w) as Hk.
  rewrite Hcb in Hk. cbn [world_of] in Hk.
  destruct Hk as (Hfreq & _ & _ & Hnext & Hwakes).
  rewrite tick_run by (rewrite Hfreq; exact Hf).
  match goal with |- context [the_body ?l ?t ?x] =>
    pose proof (keeps_body euler_from_quaternion tf_wrapper_inference l t x) as Hb
  end.
  destruct Hb as (Hfreq' & _ & _ & Hnext' & Hwakes').
  unfold woken in *. cbn [self next_call out] in *.
  rewrite Hfreq', Hnext', Hwakes', Hfreq, Hnext, wakes_app, Hwakes.
  repeat split. unfold wakes at 2. cbn [filter]. rewrite is_wake_wake.
  cbn [length]. lia.
Qed.

(** A tick with nothing to do only deals with its deadline. *)
Lemma tick_idle (clock : float) (lookup : Tf.TransformError + Tf.transform)
    (now : Q) (w : World) :
  (freq (self w) =? 0)%float = false ->
  idle w lookup ->
  the_tick clock lookup now w = Returns tt (woken w clock).
Proof.
  intros Hf Hidle. rewrite tick_run by exact Hf.
  apply body_skip. exact Hidle.
Qed.

(** A tick with all it needs, up to the answer of the engine and after it. *)
Lemma tick_ready (clock : float) (lookup : Tf.TransformError + Tf.transform)
    (now : Q) (w : World) (goal : Msg.MoveBaseGoal) (scan : Msg.LaserScan)
    (tr : Tf.transform) (scans : list Q) :
  (freq (self w) =? 0)%float = false ->
  ready w lookup goal scan tr ->
  Py.step_slice (Msg.ranges scan) (laser_scan_stride (self w)) = inr scans ->
  let target := relative_target euler_from_quaternion goal tr in
  let input_data := input_vector (n_laser_scans (self w)) scans target in
  let pre := [publish_feedback (snapshot tr now)]
             ++ crop_logs (n_laser_scans (self w)) scans
             ++ [inference input_data] in
  the_tick clock lookup now w
  = match tf_wrapper_inference input_data with
    | inl e => Raises e (after (woken w clock) pre)
    | inr (linear_x, angular_z) =>
        check_goal_reached target
          (after (woken w clock) (pre ++ [publish (command linear_x angular_z)]))
    end.
Proof.
  intros Hf (Hs & Hg & Hl & ->) Hslice target input_data pre.
  rewrite tick_run by exact Hf.
  rewrite (body_run euler_from_quaternion tf_wrapper_inference tr now
             (woken w clock) goal scan Hs Hg Hl).
  cbn [woken self]. rewrite Hslice. cbv zeta.
  fold target. fold (input_vector (n_laser_scans (self w)) scans target).
  fold input_data. fold pre.
  destruct (tf_wrapper_inference input_data) as [e|[linear_x angular_z]];
    [reflexivity|].
  now rewrite after_after.
Qed.

Lemma published_tick (w : World) (clock : float) (tr : Tf.transform) (now : Q)
    (n : Z) (scans input_data : list Q) (rest : list Event) :
  published (out (after (woken w clock)
                    (([publish_feedback (snapshot tr now)]
                      ++ crop_logs n scans ++ [inference input_data]) ++ rest)))
  = published (out w) ++ published rest.
Proof.
  unfold after, woken. cbn [out].
  rewrite !published_app, published_wake, published_crop_logs.
  cbn [published flat_map app]. now rewrite app_nil_r.
Qed.

Lemma inferred_tick (w : World) (clock : float) (tr : Tf.transform) (now : Q)
    (n : Z) (scans input_data : list Q) (rest : list Event) :
  inferred (out (after (woken w clock)
                   (([publish_feedback (snapshot tr now)]
                     ++ crop_logs n scans ++ [inference input_data]) ++ rest)))
  = inferred (out w) ++ [input_data] ++ inferred rest.
Proof.
  unfold after, woken. cbn [out].
  rewrite !inferred_app, inferred_wake, inferred_crop_logs.
  cbn [inferred flat_map app]. now rewrite app_nil_r.
Qed.

Lemma loop_deadline (passes : list Pass) (w : World) :
  (freq (self w) =? 0)%float = false ->
  exists k,
    freq (self (world_of (the_loop passes w))) = freq (self w)
    /\ wakes (out (world_of (the_loop passes w))) = (wakes (out w) + k)%nat
    /\ (k <= length passes)%nat
    /\ next_call (world_of (the_loop passes w))
       = advanced (next_call w) (1 / freq (self w))%float k
    /\ (forall w', the_loop passes w = Returns tt w' -> k = length passes).
Proof.
  revert w. induction passes as [|p rest IH]; intros w Hf.
  - exists 0%nat. cbn. repeat split; lia.
  - cbn [loop]. unfold bind.
    pose proof (pass_deadline p w Hf) as (Hfreq & Hnext & Hwakes).
    destruct (the_pass p w) as [[] w1|e w1]; cbn [world_of] in *.
    + destruct (IH w1) as (k & Hfk & Hwk & Hlen & Hnk & Hret).
      { rewrite Hfreq. exact Hf. }
      exists (S k). repeat split.
      * congruence.
      * rewrite Hwk, Hwakes. lia.
      * cbn [length]. lia.
      * rewrite Hnk, Hnext, Hfreq. reflexivity.
      * intros w' Hw'. cbn [length]. f_equal. eapply Hret. exact Hw'.
    + exists 1%nat. repeat split.
      * exact Hfreq.
      * rewrite Hwakes. lia.
      * cbn [length]. lia.
      * rewrite Hnext. reflexivity.
      * discriminate.
Qed.

Lemma same_run_loop (passes passes' : list Pass) :
  Forall2 same_but_clock passes passes' ->
  same_run (the_loop passes) (the_loop passes').
Proof.
  induction 1 as [|p p' rest rest' (Hcb & Hlook & Hnow) _ IH]; cbn [loop].
  - apply same_run_ret.
  - apply same_run_bind; [|intros; exact IH].
    unfold pass, tick. rewrite Hcb, Hlook, Hnow.
    apply same_run_bind; [apply same_run_callbacks|intros].
    apply same_run_bind; [apply same_run_wait|intros].
    apply same_run_body.
Qed.

End Loop.

(** ** The control loop *)

Section ControlLoop.

Variable euler_from_quaternion : Tf.quaternion -> Q * Q * Q.
Variable tf_wrapper_inference : list Q -> Py.Exc + (Q * Q).

Local Abbreviation target_of := (relative_target euler_from_quaternion).
Local Abbreviation the_body := (body euler_from_quaternion tf_wrapper_inference).
Local Abbreviation the_tick := (tick euler_from_quaternion tf_wrapper_inference).
Local Abbreviation the_pass := (pass euler_from_quaternion tf_wrapper_inference).
Local Abbreviation the_loop := (loop euler_from_quaternion tf_wrapper_inference).
Local Abbreviation the_processing_data :=
  (processing_data euler_from_quaternion tf_wrapper_inference).

(** C9, amended: every tick moves the deadline on by one period: the float
    sum of its previous value and [1.0 / freq].  When the float difference
    between the new deadline and the clock is not positive the miss is
    logged and the tick goes on to its body at once; otherwise the loop
    sleeps for that difference and then goes on.  Over the loop the deadline
    is the start time with the period added once per tick begun, one float
    addition after the other, whatever the clock read at each tick; all
    passes are run when the loop returns; and neither the outcome of the
    loop nor anything it does besides sleeping and logging misses depends on
    the clock, so a missed deadline never ends it. *)
Theorem deadline_advances_by_period
    (start : float) (passes : list Pass) (node : DeepMotionPlanner) :
  (freq node =? 0)%float = false ->
  let period := (1 / freq node)%float in
  let run := the_processing_data start passes node in
  (forall clock lookup now w,
      freq (self w) = freq node ->
      let deadline := (next_call w + period)%float in
      let sleep_time := (deadline - clock)%float in
      ((0 <? sleep_time)%float = false ->
       the_tick clock lookup now w
       = the_body lookup now
           {| self := self w; next_call := deadline;
              out := out w ++ [logerr "Missed control loop frequency"] |})
      /\ ((0 <? sleep_time)%float = true ->
          the_tick clock lookup now w
          = the_body lookup now
              {| self := self w; next_call := deadline;
                 out := out w ++ [sleep sleep_time] |}))
  /\ next_call (world_of run)
     = advanced start period (wakes (out (world_of run)))
  /\ (wakes (out (world_of run)) <= length passes)%nat
  /\ (forall w', run = Returns tt w' -> wakes (out w') = length passes)
  /\ (forall passes',
         Forall2 same_but_clock passes passes' ->
         alike_result run (the_processing_data start passes' node)).
Proof.
  intros Hf period run. split; [|split; [|split; [|split]]].
  - intros clock lookup now w Hw deadline sleep_time.
    assert (Hf' : (freq (self w) =? 0)%float = false) by (rewrite Hw; exact Hf).
    rewrite (tick_run _ _ _ _ _ _ Hf'). unfold woken, wake.
    subst sleep_time deadline period. rewrite Hw.
    split; intros Hc; now rewrite Hc.
  - destruct (loop_deadline euler_from_quaternion tf_wrapper_inference passes
                {| self := node; next_call := start; out := [] |} Hf)
      as (k & _ & Hk & _ & Hnext & _).
    subst run. unfold processing_data. rewrite Hk. exact Hnext.
  - destruct (loop_deadline euler_from_quaternion tf_wrapper_inference passes
                {| self := node; next_call := start; out := [] |} Hf)
      as (k & _ & Hk & Hlen & _).
    subst run. unfold processing_data. rewrite Hk. exact Hlen.
  - intros w' Hrun.
    destruct (loop_deadline euler_from_quaternion tf_wrapper_inference passes
                {| self := node; next_call := start; out := [] |} Hf)
      as (k & _ & Hk & _ & _ & Hall).
    subst run. unfold processing_data in Hrun.
    rewrite Hrun in Hk. cbn [world_of] in Hk. rewrite Hk.
    cbn [out wakes filter length]. now apply (Hall w').
  - intros passes' Hsame. subst run. unfold processing_data.
    apply same_run_loop; [exact Hsame | apply alike_refl].
Qed.

(** C6, amended: on every tick the deadline is moved on first.  Then, if no
    goal is Active (none accepted, or its pose not yet stored), or no scan
    has ever arrived, or the relative-target computation returns [None], the
    body is skipped: nothing is published and nothing else happens.
    Otherwise the tick goes on with the target [(tx, ty, tyaw)].  When the
    decimation raises (the stride is 0) the exception ends the tick before
    the engine is called; when the engine raises on the input vector, the
    cropped scans followed by [tx], [ty] and [tyaw], the exception ends the
    tick there; in both cases no command is published.  When the engine
    answers, exactly one command is published and [check_goal_reached] then
    runs on that same target: the goal is Succeeded after the tick exactly
    when [tx], [ty] and [tyaw] are within the tolerances. *)
Theorem tick_skips_or_publishes_once
    (clock : float) (lookup : Tf.TransformError + Tf.transform) (now : Q)
    (w : World) :
  (freq (self w) =? 0)%float = false ->
  let deadline := (next_call w + 1 / freq (self w))%float in
  (_as (self w) <> Active
   \/ target_pose (self w) = None
   \/ last_scan (self w) = None
   \/ (exists w', compute_relative_target euler_from_quaternion lookup now
                    (woken w clock) = Returns None w') ->
   exists w',
     the_tick clock lookup now w = Returns tt w'
     /\ self w' = self w
     /\ next_call w' = deadline
     /\ published (out w') = published (out w)
     /\ inferred (out w') = inferred (out w)
     /\ feedbacks (out w') = feedbacks (out w))
  /\ (forall goal scan tr tx ty tyaw,
         _as (self w) = Active ->
         target_pose (self w) = Some goal ->
         last_scan (self w) = Some scan ->
         lookup = inr tr ->
         target_of goal tr = (tx, ty, tyaw) ->
         (forall e,
             Py.step_slice (Msg.ranges scan) (laser_scan_stride (self w))
             = inl e ->
             exists w',
               the_tick clock lookup now w = Raises e w'
               /\ next_call w' = deadline
               /\ published (out w') = published (out w)
               /\ inferred (out w') = inferred (out w))
         /\ (forall scans,
               Py.step_slice (Msg.ranges scan) (laser_scan_stride (self w))
               = inr scans ->
               let input_data :=
                 crop (n_laser_scans (self w)) scans ++ [tx; ty; tyaw] in
               (forall e,
                   tf_wrapper_inference input_data = inl e ->
                   exists w',
                     the_tick clock lookup now w = Raises e w'
                     /\ next_call w' = deadline
                     /\ published (out w') = published (out w)
                     /\ inferred (out w') = inferred (out w) ++ [input_data])
               /\ (forall linear_x angular_z,
                     tf_wrapper_inference input_data
                     = inr (linear_x, angular_z) ->
                     exists w',
                       the_tick clock lookup now w = Returns tt w'
                       /\ check_goal_reached (tx, ty, tyaw)
                            (after (woken w clock)
                               ([publish_feedback (snapshot tr now)]
                                ++ crop_logs (n_laser_scans (self w)) scans
                                ++ [inference input_data]
                                ++ [publish (command linear_x angular_z)]))
                          = Returns tt w'
                       /\ next_call w' = deadline
                       /\ published (out w')
                          = published (out w) ++ [command linear_x angular_z]
                       /\ inferred (out w') = inferred (out w) ++ [input_data]
                       /\ (_as (self w') = Succeeded
                           <-> Qabs tx < 0.1 /\ Qabs ty < 0.1
                               /\ Qabs tyaw < 0.1)))).
Proof.
  intros Hf deadline. split.
  - intros Hidle. exists (woken w clock). split.
    + apply tick_idle; [exact Hf|].
      destruct Hidle as [H|[H|[H|[w' H]]]].
      * now left.
      * right. now left.
      * right. right. now left.
      * right. right. right.
        now apply compute_relative_target_none in H.
    + unfold woken. cbn [self next_call out].
      rewrite published_app, inferred_app, feedbacks_app, published_wake,
        inferred_wake, !app_nil_r.
      repeat split. unfold wake. destruct (0 <? _)%float; cbn; now rewrite app_nil_r.
  - intros goal scan tr tx ty tyaw Hs Hg Hl -> Htarget.
    pose proof (tick_run euler_from_quaternion tf_wrapper_inference
                  clock (inr tr) now w Hf) as Htick.
    rewrite (body_run euler_from_quaternion tf_wrapper_inference tr now
               (woken w clock) goal scan Hs Hg Hl) in Htick.
    cbn [woken self] in Htick. rewrite Htarget in Htick.
    cbn [list_of_target] in Htick. split.
    + intros e Hslice. rewrite Hslice in Htick.
      eexists. split; [exact Htick|].
      unfold fed, woken. cbn [out next_call].
      rewrite !published_app, !inferred_app, published_wake, inferred_wake.
      cbn. rewrite !app_nil_r. repeat split.
    + intros scans Hslice input_data. rewrite Hslice in Htick.
      cbv zeta in Htick. fold input_data in Htick. split.
      * intros e Hengine. rewrite Hengine in Htick.
        eexists. split; [exact Htick|].
        split; [reflexivity|]. split.
        -- rewrite <- (app_nil_r (_ ++ _ ++ [inference input_data])).
           rewrite published_tick. apply app_nil_r.
        -- rewrite <- (app_nil_r (_ ++ _ ++ [inference input_data])).
           rewrite inferred_tick. reflexivity.
      * intros linear_x angular_z Hengine. rewrite Hengine in Htick.
        rewrite after_after in Htick.
        replace (([publish_feedback (snapshot tr now)]
                  ++ crop_logs (n_laser_scans (self w)) scans
                  ++ [inference input_data])
                 ++ [publish (command linear_x angular_z)])
          with ([publish_feedback (snapshot tr now)]
                ++ crop_logs (n_laser_scans (self w)) scans
                ++ [inference input_data]
                ++ [publish (command linear_x angular_z)]) in Htick
          by (now rewrite <- !app_assoc).
        match type of Htick with _ = check_goal_reached _ ?x => set (w3 := x) in * end.
        assert (Hactive : _as (self w3) = Active) by exact Hs.
        destruct (check_reached_on_active (tx, ty, tyaw) w3 Hactive)
          as (w4 & Hcheck & Hout & Hnext & Hiff).
        exists w4. rewrite Htick.
        split; [exact Hcheck|]. split; [exact Hcheck|].
        split; [rewrite Hnext; reflexivity|].
        rewrite Hout. subst w3. split; [|split; [|exact Hiff]].
        -- replace ([publish_feedback (snapshot tr now)]
                    ++ crop_logs (n_laser_scans (self w)) scans
                    ++ [inference input_data]
                    ++ [publish (command linear_x angular_z)])
             with (([publish_feedback (snapshot tr now)]
                    ++ crop_logs (n_laser_scans (self w)) scans
                    ++ [inference input_data])
                   ++ [publish (command linear_x angular_z)])
             by (now rewrite <- !app_assoc).
           rewrite published_tick. reflexivity.
        -- replace ([publish_feedback (snapshot tr now)]
                    ++ crop_logs (n_laser_scans (self w)) scans
                    ++ [inference input_data]
                    ++ [publish (command linear_x angular_z)])
             with (([publish_feedback (snapshot tr now)]
                    ++ crop_logs (n_laser_scans (self w)) scans
                    ++ [inference input_data])
                   ++ [publish (command linear_x angular_z)])
             by (now rewrite <- !app_assoc).
           rewrite inferred_tick. reflexivity.
Qed.

(** C5, amended: what the code handles on a tick (no goal Active, no goal
    pose or no scan yet, a failed transform lookup) ends the tick with no
    command published, and the loop goes on to the next pass.  An exception
    raised by the inference call is not caught: it leaves the tick and ends
    the loop there, whatever passes were still to come; no command is
    published on that tick. *)
Theorem inference_failure_ends_loop (p : Pass) (w w0 : World) :
  (freq (self w) =? 0)%float = false ->
  run_callbacks (callbacks p) w = Returns tt w0 ->
  (idle w0 (lookupTransform p) ->
   published (out (woken w0 (time_time p))) = published (out w)
   /\ forall rest,
        the_loop (p :: rest) w = the_loop rest (woken w0 (time_time p)))
  /\ (forall goal scan tr scans e,
         ready w0 (lookupTransform p) goal scan tr ->
         Py.step_slice (Msg.ranges scan) (laser_scan_stride (self w0))
         = inr scans ->
         let input_data :=
           crop (n_laser_scans (self w0)) scans
           ++ list_of_target (target_of goal tr) in
         tf_wrapper_inference input_data = inl e ->
         exists w',
           (forall rest, the_loop (p :: rest) w = Raises e w')
           /\ published (out w') = published (out w)
           /\ inferred (out w') = inferred (out w) ++ [input_data]
           /\ wakes (out w') = S (wakes (out w))).
Proof.
  intros Hf Hcb.
  pose proof (run_callbacks_silent _ _ _ Hcb) as (Hpub & Hinf).
  pose proof (keeps_run_callbacks (callbacks p) w) as Hk.
  rewrite Hcb in Hk. cbn [world_of] in Hk.
  destruct Hk as (Hfreq & _ & _ & _ & Hwakes).
  assert (Hf0 : (freq (self w0) =? 0)%float = false) by (rewrite Hfreq; exact Hf).
  assert (Hpass : the_pass p w
                  = the_tick (time_time p) (lookupTransform p) (rospy_Time_now p) w0).
  { unfold pass. unfold bind at 1. now rewrite Hcb. }
  split.
  - intros Hidle. split.
    + unfold woken. cbn [out]. now rewrite published_app, published_wake, app_nil_r.
    + intros rest. cbn [loop]. unfold bind at 1.
      rewrite Hpass, tick_idle by assumption. reflexivity.
  - intros goal scan tr scans e Hready Hslice input_data Hengine.
    pose proof (tick_ready euler_from_quaternion tf_wrapper_inference
                  (time_time p) (lookupTransform p) (rospy_Time_now p) w0 goal scan
                  tr scans Hf0 Hready Hslice) as Hrun.
    cbv zeta in Hrun. unfold input_vector in Hrun. fold input_data in Hrun.
    rewrite Hengine in Hrun.
    eexists. split; [|split; [|split]].
    + intros rest. cbn [loop]. unfold bind at 1.
      rewrite Hpass, Hrun. reflexivity.
    + rewrite <- Hpub, <- (app_nil_r (_ ++ _ ++ [inference input_data])).
      rewrite published_tick. apply app_nil_r.
    + rewrite <- Hinf, <- (app_nil_r (_ ++ _ ++ [inference input_data])).
      rewrite inferred_tick. reflexivity.
    + unfold after, woken. cbn [out].
      rewrite !wakes_app, Hwakes. unfold wakes at 2. cbn [filter].
      rewrite is_wake_wake. unfold crop_logs.
      destruct (0 <? _)%Z, (_ =? _)%Z; cbn; lia.
Qed.

(** C1, amended: the preprocessing never fails for want of samples.  When the
    decimated sequence has fewer than [target_len] elements it is returned as
    it is, nothing cut and nothing logged, and the tick hands this shorter
    vector, followed by the three components of the target, to the engine;
    when the engine answers, the command is published. *)
Theorem short_scans_reach_the_engine
    (clock : float) (tr : Tf.transform) (now : Q) (w : World)
    (goal : Msg.MoveBaseGoal) (scan : Msg.LaserScan) :
  (freq (self w) =? 0)%float = false ->
  _as (self w) = Active ->
  target_pose (self w) = Some goal ->
  last_scan (self w) = Some scan ->
  let stride := laser_scan_stride (self w) in
  let n := n_laser_scans (self w) in
  let scans := decimated stride (Msg.ranges scan) in
  (0 < stride)%Z ->
  (Z.of_nat (length scans) < n)%Z ->
  let input_data := scans ++ list_of_target (target_of goal tr) in
  cropped_scans scan w = Returns scans w
  /\ inferred (out (world_of (the_tick clock (inr tr) now w)))
     = inferred (out w) ++ [input_data]
  /\ (forall linear_x angular_z,
         tf_wrapper_inference input_data = inr (linear_x, angular_z) ->
         exists w',
           the_tick clock (inr tr) now w = Returns tt w'
           /\ published (out w')
              = published (out w) ++ [command linear_x angular_z]).
Proof.
  intros Hf Hs Hg Hl stride n scans Hstride Hshort input_data.
  assert (Hslice : Py.step_slice (Msg.ranges scan) (laser_scan_stride (self w))
                   = inr scans) by now apply step_slice_positive.
  destruct (crop_short n scans Hshort) as (Hcrop & Hlogs).
  split.
  - rewrite (cropped_scans_run scan w scans Hslice).
    fold n. rewrite Hcrop, Hlogs. now rewrite after_nil.
  - assert (Hready : ready w (inr tr) goal scan tr) by (repeat split; assumption).
    pose proof (tick_ready euler_from_quaternion tf_wrapper_inference
                  clock (inr tr) now w goal scan tr scans Hf Hready Hslice) as Hrun.
    cbv zeta in Hrun. unfold input_vector in Hrun. fold n in Hrun.
    rewrite Hcrop in Hrun. fold input_data in Hrun.
    split.
    + rewrite Hrun.
      destruct (tf_wrapper_inference input_data) as [e|[linear_x angular_z]].
      * cbn [world_of].
        rewrite <- (app_nil_r (_ ++ _ ++ [inference input_data])).
        rewrite inferred_tick. reflexivity.
      * match goal with |- context [check_goal_reached ?t ?x] =>
          destruct (check_goal_reached_returns t x) as (w3 & -> & Hout & _)
        end.
        cbn [world_of]. rewrite Hout, inferred_tick. reflexivity.
    + intros linear_x angular_z Hengine. rewrite Hengine in Hrun.
      match type of Hrun with _ = check_goal_reached ?t ?x =>
        destruct (check_goal_reached_returns t x) as (w3 & Hcheck & Hout & _)
      end.
      exists w3. split; [now rewrite Hrun|].
      rewrite Hout, published_tick. reflexivity.
Qed.

End ControlLoop.

(** C9, amended, on two passes without a goal, the first with its deadline
    long gone. *)
Lemma deadline_advances_by_period_witness :
  (freq node_idle =? 0)%float = false
  /\ next_call (world_of (processing_data euler_zero engine_fixed 0
                            late_passes node_idle))
     = (0 + 1 / 25 + 1 / 25)%float
  /\ wakes (out (world_of (processing_data euler_zero engine_fixed 0
                             late_passes node_idle))) = 2%nat
  /\ hd_error (out (world_of (processing_data euler_zero engine_fixed 0
                                late_passes node_idle)))
     = Some (logerr "Missed control loop frequency").
Proof.
  assert (Hf : (freq node_idle =? 0)%float = false) by reflexivity.
  split; [exact Hf|]. split; [|split; reflexivity].
  exact (proj1 (proj2 (deadline_advances_by_period euler_zero engine_fixed
                         0 late_passes node_idle Hf))).
Defined.

(** The claim of C9 on six passes at 25 Hz, started at 0: the deadline would
    be the start time plus six times the period, be it as the float that
    this sum is or as numbers. *)
Lemma deadline_is_not_start_plus_n_periods :
  ~ (next_call (world_of (processing_data euler_zero engine_fixed 0
                            six_passes node_idle))
     = (0 + 6 * (1 / freq node_idle))%float
     \/ exists deadline period,
          Py.number (next_call (world_of (processing_data euler_zero
                                            engine_fixed 0 six_passes
                                            node_idle)))
          = Some deadline
          /\ Py.number (1 / freq node_idle)%float = Some period
          /\ deadline == 0 + 6 * period).
Proof.
  intros [H | (deadline & period & Hd & Hp & H)].
  - apply (f_equal (fun t => (0 + 6 * (1 / 25) <? t)%float)) in H.
    vm_compute in H. discriminate.
  - vm_compute in Hd, Hp. injection Hd as <-. injection Hp as <-.
    vm_compute in H. discriminate.
Qed.

(** C6, amended, on a tick before any scan, and on one with a goal, a scan,
    the transform and an engine that answers. *)
Lemma tick_skips_or_publishes_once_witness :
  (freq node_3_4 =? 0)%float = false
  /\ (exists w', tick euler_zero engine_fixed 0 (inr at_origin) 0
                   (world_of_node node_no_scan) = Returns tt w'
                 /\ published (out w') = [])
  /\ (exists w', tick euler_zero engine_fixed 0 (inr at_origin) 0
                   (world_of_node node_3_4) = Returns tt w'
                 /\ published (out w') = [command 0.5 0.25]
                 /\ inferred (out w') = [[0; 2; 3; -4; 0]]
                 /\ _as (self w') <> Succeeded).
Proof.
  assert (Hf : (freq node_3_4 =? 0)%float = false) by reflexivity.
  split; [exact Hf|]. split.
  - destruct (proj1 (tick_skips_or_publishes_once euler_zero engine_fixed
                       0 (inr at_origin) 0 (world_of_node node_no_scan) Hf))
      as (w' & Hrun & _ & _ & Hpub & _).
    + right. right. left. reflexivity.
    + exists w'. split; [exact Hrun | exact Hpub].
  - destruct (proj2 (proj2 (proj2 (tick_skips_or_publishes_once
                                      euler_zero engine_fixed
                                      0 (inr at_origin) 0
                                      (world_of_node node_3_4) Hf)
                                   goal_3_4 {| Msg.ranges := ramp 3 |}
                                   at_origin 3 (-4) 0
                                   eq_refl eq_refl eq_refl eq_refl eq_refl)
                            (decimated 2 (ramp 3)) eq_refl)
                    0.5 0.25 eq_refl)
      as (w' & Hrun & _ & _ & Hpub & Hinf & Hiff).
    exists w'. split; [exact Hrun|]. split; [exact Hpub|].
    split; [exact Hinf|].
    intros H. apply Hiff in H. destruct H as (H & _).
    vm_compute in H. discriminate.
Defined.

(** The claim of C6 on two ticks with the goal Active, a scan and the
    relative target at hand: each would publish one command; but the engine
    raises on the first, and the stride is 0 on the second, where the engine
    would answer. *)
Lemma ready_tick_without_command :
  ~ (_as node_3_4 = Active ->
     last_scan node_3_4 <> None ->
     (exists target w',
         compute_relative_target euler_zero (inr at_origin) 0
           (woken (world_of_node node_3_4) 0)
         = Returns (Some target) w') ->
     length (published (out (world_of (tick euler_zero engine_down 0
                                         (inr at_origin) 0
                                         (world_of_node node_3_4)))))
     = 1%nat)
  /\ ~ (_as (node_with_stride 0) = Active ->
        last_scan (node_with_stride 0) <> None ->
        (exists target w',
            compute_relative_target euler_zero (inr at_origin) 0
              (woken (world_of_node (node_with_stride 0)) 0)
            = Returns (Some target) w') ->
        length (published (out (world_of (tick euler_zero engine_fixed 0
                                            (inr at_origin) 0
                                            (world_of_node
                                               (node_with_stride 0))))))
        = 1%nat).
Proof.
  split; intros H.
  - assert (Hn : length (published (out (world_of
                   (tick euler_zero engine_down 0 (inr at_origin) 0
                      (world_of_node node_3_4))))) = 1%nat).
    { apply H; [reflexivity | discriminate|].
      do 2 eexists. vm_compute. reflexivity. }
    vm_compute in Hn. discriminate.
  - assert (Hn : length (published (out (world_of
                   (tick euler_zero engine_fixed 0 (inr at_origin) 0
                      (world_of_node (node_with_stride 0)))))) = 1%nat).
    { apply H; [reflexivity | discriminate|].
      do 2 eexists. vm_compute. reflexivity. }
    vm_compute in Hn. discriminate.
Qed.

(** The claim of C1 on three samples, of which the decimation keeps two:
    the preprocessing would fail, nothing would be published and no vector
    short of 540 scans and the target would reach the engine. *)
Lemma short_scan_is_not_skipped :
  ~ ((Z.of_nat (length (decimated 2 (ramp 3))) < 540)%Z ->
     (exists e w', cropped_scans {| Msg.ranges := ramp 3 |}
                     (world_of_node node_3_4) = Raises e w')
     /\ published (out (world_of (tick euler_zero engine_fixed 0
                                   (inr at_origin) 0
                                   (world_of_node node_3_4)))) = []
     /\ Forall (fun v => (540 + 3 <= length v)%nat)
          (inferred (out (world_of (tick euler_zero engine_fixed 0
                                      (inr at_origin) 0
                                      (world_of_node node_3_4)))))).
Proof.
  intros H. destruct H as (_ & Hpub & _).
  - vm_compute. reflexivity.
  - vm_compute in Hpub. discriminate.
Qed.

(** C1, amended, on the same three samples. *)
Lemma short_scans_reach_the_engine_witness :
  (freq node_3_4 =? 0)%float = false
  /\ (Z.of_nat (length (decimated 2 (ramp 3))) < 540)%Z
  /\ cropped_scans {| Msg.ranges := ramp 3 |} (world_of_node node_3_4)
     = Returns [0; 2] (world_of_node node_3_4)
  /\ inferred (out (world_of (tick euler_zero engine_fixed 0 (inr at_origin) 0
                               (world_of_node node_3_4))))
     = [[0; 2; 3; -4; 0]].
Proof.
  assert (Hf : (freq node_3_4 =? 0)%float = false) by reflexivity.
  assert (Hshort : (Z.of_nat (length (decimated 2 (ramp 3))) < 540)%Z)
    by (vm_compute; reflexivity).
  split; [exact Hf|]. split; [exact Hshort|].
  destruct (short_scans_reach_the_engine euler_zero engine_fixed
              0 at_origin 0 (world_of_node node_3_4) goal_3_4
              {| Msg.ranges := ramp 3 |} Hf eq_refl eq_refl eq_refl
              eq_refl Hshort) as (Hcrop & Hinf & _).
  split; [exact Hcrop | exact Hinf].
Defined.

(** The claim of C5 on two passes with an engine that fails: the loop would
    run both and return. *)
Lemma inference_failure_is_not_contained :
  ~ (exists w',
       processing_data euler_zero engine_down 0 two_passes node_3_4
       = Returns tt w'
       /\ wakes (out w') = 2%nat).
Proof.
  intros (w' & H & _). vm_compute in H. discriminate.
Qed.

(** C5, amended, on the same two passes: the first one ends the loop. *)
Lemma inference_failure_ends_loop_witness :
  (freq node_3_4 =? 0)%float = false
  /\ exists w',
       processing_data euler_zero engine_down 0 two_passes node_3_4
       = Raises (Py.RuntimeError "inference failed") w'
       /\ published (out w') = []
       /\ wakes (out w') = 1%nat.
Proof.
  assert (Hf : (freq node_3_4 =? 0)%float = false) by reflexivity.
  split; [exact Hf|].
  destruct (proj2 (inference_failure_ends_loop euler_zero engine_down
                     (pass_at 0 (inr at_origin)) (world_of_node node_3_4)
                     (world_of_node node_3_4) Hf eq_refl)
                  goal_3_4 {| Msg.ranges := ramp 3 |} at_origin
                  (decimated 2 (ramp 3))
                  (Py.RuntimeError "inference failed")
                  (conj eq_refl (conj eq_refl (conj eq_refl eq_refl)))
                  eq_refl eq_refl)
    as (w' & Hrun & Hpub & _ & Hwakes).
  exists w'. split; [apply Hrun|]. split; [exact Hpub | exact Hwakes].
Defined.

(** * More on the node *)

(** ** Relations that every step keeps *)

Section Kept.

Variable R : World -> World -> Prop.
Hypothesis R_same : forall w w', self w' = self w -> R w w'.
Hypothesis R_trans : forall a b c, R a b -> R b c -> R a c.

Lemma kept_ret {A} (a : A) : kept R (ret a).
Proof. intros w. now apply R_same. Qed.

Lemma kept_raise {A} (e : Py.Exc) : kept R (@raise A e).
Proof. intros w. now apply R_same. Qed.

Lemma kept_lift {A} (r : Py.Exc + A) : kept R (lift r).
Proof. destruct r; [apply kept_raise | apply kept_ret]. Qed.

Lemma kept_attr {A} (f : DeepMotionPlanner -> A) : kept R (attr f).
Proof. intros w. now apply R_same. Qed.

Lemma kept_emit (e : Event) : kept R (emit e).
Proof. intros w. now apply R_same. Qed.

Lemma kept_local : kept R local.
Proof. intros w. now apply R_same. Qed.

Lemma kept_set_local (t : float) : kept R (set_local t).
Proof. intros w. now apply R_same. Qed.

Lemma kept_bind {A B} (c : M A) (k : A -> M B) :
  kept R c -> (forall a, kept R (k a)) -> kept R (bind c k).
Proof.
  intros Hc Hk w. unfold bind. specialize (Hc w).
  destruct (c w) as [a w'|e w']; cbn [world_of] in *; [|exact Hc].
  eapply R_trans; [exact Hc | apply Hk].
Qed.

End Kept.

Ltac kept_step same trans :=
  first
    [ apply (kept_ret _ same) | apply (kept_raise _ same)
    | apply (kept_lift _ same) | apply (kept_attr _ same)
    | apply (kept_emit _ same) | apply (kept_local _ same)
    | apply (kept_set_local _ same)
    | apply (kept_bind _ trans); [|intros]
    | match goal with
      | |- kept _ (match ?x with _ => _ end) => destruct x
      end ].

(** ** The goal pose and the scan are never cleared *)

Lemma held_same (w w' : World) : self w' = self w -> held w w'.
Proof. intros H. unfold held. rewrite H. tauto. Qed.

Lemma held_trans (a b c : World) : held a b -> held b c -> held a c.
Proof. unfold held. tauto. Qed.

Lemma held_set_status (s : GoalState) : kept held (set_status s).
Proof. intros w. split; intros H; exact H. Qed.

Lemma held_run_callbacks (cs : list Callback) : kept held (run_callbacks cs).
Proof.
  induction cs as [|c cs IH]; cbn [run_callbacks].
  - apply (kept_ret _ held_same).
  - apply (kept_bind _ held_trans); [|intros; exact IH].
    destruct c; cbn [run_callback].
    + intros w. split; cbn; [tauto | discriminate].
    + unfold goal_callback, accept_new_goal.
      apply (kept_bind _ held_trans).
      * apply (kept_bind _ held_trans); [apply held_set_status|intros].
        apply (kept_ret _ held_same).
      * intros a w. split; cbn; [discriminate | tauto].
    + unfold preempt_callback, set_preempted, from_active, is_active.
      repeat first [ apply held_set_status | kept_step held_same held_trans ].
Qed.

Lemma held_body
    (euler : Tf.quaternion -> Q * Q * Q)
    (engine : list Q -> Py.Exc + (Q * Q))
    (lookup : Tf.TransformError + Tf.transform) (now : Q) :
  kept held (body euler engine lookup now).
Proof.
  unfold body, is_active, compute_relative_target, cropped_scans,
    check_goal_reached, set_succeeded, from_active, is_active.
  repeat first [ apply held_set_status | kept_step held_same held_trans ].
Qed.

Lemma held_wait (clock : float) : kept held (wait_next_call clock).
Proof.
  unfold wait_next_call. repeat kept_step held_same held_trans.
Qed.

Lemma held_loop
    (euler : Tf.quaternion -> Q * Q * Q)
    (engine : list Q -> Py.Exc + (Q * Q))
    (passes : list Pass) :
  kept held (loop euler engine passes).
Proof.
  induction passes as [|p rest IH]; cbn [loop].
  - apply (kept_ret _ held_same).
  - apply (kept_bind _ held_trans); [|intros; exact IH].
    unfold pass, tick.
    apply (kept_bind _ held_trans); [apply held_run_callbacks|intros].
    apply (kept_bind _ held_trans); [apply held_wait|intros].
    apply held_body.
Qed.

(** X1: whatever the callbacks, the clock, the transforms and the engine do,
    and whether the loop returns or is ended by an exception, a goal pose
    that the node has stored is still stored afterwards, and so is a scan:
    neither attribute is ever set back to [None]. *)
Theorem goal_and_scan_never_cleared
    (euler_from_quaternion : Tf.quaternion -> Q * Q * Q)
    (tf_wrapper_inference : list Q -> Py.Exc + (Q * Q))
    (start : float) (passes : list Pass) (d : DeepMotionPlanner) :
  let d' := self (world_of (processing_data euler_from_quaternion
                              tf_wrapper_inference start passes d)) in
  (target_pose d <> None -> target_pose d' <> None)
  /\ (last_scan d <> None -> last_scan d' <> None).
Proof.
  exact (held_loop euler_from_quaternion tf_wrapper_inference passes
           {| self := d; next_call := start; out := [] |}).
Qed.

(** ** Ticks with nothing to do *)

Lemma run_callback_returns (c : Callback) (w : World) :
  exists w', run_callback c w = Returns tt w'.
Proof.
  destruct c; cbn [run_callback]; try rewrite preempt_callback_run;
    eexists; reflexivity.
Qed.

Lemma run_callbacks_cons (c : Callback) (cs : list Callback) (w w1 w' : World) :
  run_callback c w = Returns tt w1 ->
  run_callbacks cs w1 = Returns tt w' ->
  run_callbacks (c :: cs) w = Returns tt w'.
Proof.
  intros H1 H2. cbn [run_callbacks]. unfold bind. now rewrite H1.
Qed.

Lemma run_callbacks_cons_inv (c : Callback) (cs : list Callback) (w w' : World) :
  run_callbacks (c :: cs) w = Returns tt w' ->
  exists w1, run_callback c w = Returns tt w1
             /\ run_callbacks cs w1 = Returns tt w'.
Proof.
  intros H. destruct (run_callback_returns c w) as [w1 H1].
  exists w1. split; [exact H1|].
  cbn [run_callbacks] in H. unfold bind in H. now rewrite H1 in H.
Qed.

(** The callbacks send no feedback. *)
Lemma run_callbacks_no_feedback (cs : list Callback) (w w' : World) :
  run_callbacks cs w = Returns tt w' ->
  feedbacks (out w') = feedbacks (out w).
Proof.
  revert w. induction cs as [|c cs IH]; intros w H.
  - injection H as <-. reflexivity.
  - apply run_callbacks_cons_inv in H. destruct H as (w1 & H1 & H2).
    rewrite (IH _ H2).
    destruct c; cbn [run_callback] in H1; try rewrite preempt_callback_run in H1;
      cbn in H1; injection H1 as <-; cbn [out]; [reflexivity..|].
    now rewrite feedbacks_app, app_nil_r.
Qed.

(** A property of the node that the admitted callbacks keep. *)
Lemma run_callbacks_keep (B : DeepMotionPlanner -> Prop) (ok : Callback -> bool) :
  (forall c w w', ok c = true -> B (self w) ->
                  run_callback c w = Returns tt w' -> B (self w')) ->
  forall cs w w',
    forallb ok cs = true -> B (self w) ->
    run_callbacks cs w = Returns tt w' -> B (self w').
Proof.
  intros Hstep cs. induction cs as [|c cs IH]; intros w w' Hok HB H.
  - injection H as <-. exact HB.
  - cbn [forallb] in Hok. apply andb_true_iff in Hok. destruct Hok as [Hc Hcs].
    apply run_callbacks_cons_inv in H. destruct H as (w1 & H1 & H2).
    eapply IH; [exact Hcs | | exact H2].
    eapply Hstep; eassumption.
Qed.

(** A callback other than the acceptance of a goal leaves a goal that is not
    Active as it is. *)
Lemma not_active_kept (c : Callback) (w w' : World) :
  negb (is_on_goal c) = true ->
  _as (self w) <> Active ->
  run_callback c w = Returns tt w' ->
  _as (self w') <> Active.
Proof.
  intros Hc HB H1. destruct c; cbn [run_callback] in H1;
    [| discriminate |rewrite preempt_callback_run in H1];
    cbn in H1; injection H1 as <-; cbn; [exact HB|].
  destruct (_as (self w)) eqn:E; cbn; rewrite ?E; discriminate.
Qed.

Lemma feedbacks_wake (deadline clock : float) : feedbacks [wake deadline clock] = [].
Proof. unfold wake. destruct (0 <? _)%float; reflexivity. Qed.

Section Silence.

Variable euler_from_quaternion : Tf.quaternion -> Q * Q * Q.
Variable tf_wrapper_inference : list Q -> Py.Exc + (Q * Q).

Local Abbreviation the_tick := (tick euler_from_quaternion tf_wrapper_inference).
Local Abbreviation the_pass := (pass euler_from_quaternion tf_wrapper_inference).
Local Abbreviation the_loop := (loop euler_from_quaternion tf_wrapper_inference).

(** While a property of the node holds that leaves every tick idle, and the
    callbacks keep it, the loop only waits. *)
Lemma loop_only_waits (B : DeepMotionPlanner -> Prop) (ok : Callback -> bool) :
  (forall d, B d -> _as d <> Active \/ target_pose d = None \/ last_scan d = None) ->
  (forall c w w', ok c = true -> B (self w) ->
                  run_callback c w = Returns tt w' -> B (self w')) ->
  forall passes w,
    (freq (self w) =? 0)%float = false ->
    B (self w) ->
    Forall (fun p => forallb ok (callbacks p) = true) passes ->
    exists w',
      the_loop passes w = Returns tt w'
      /\ B (self w')
      /\ published (out w') = published (out w)
      /\ inferred (out w') = inferred (out w)
      /\ feedbacks (out w') = feedbacks (out w)
      /\ wakes (out w') = (wakes (out w) + length passes)%nat.
Proof.
  intros Hidle Hstep passes.
  induction passes as [|p rest IH]; intros w Hf HB Hok.
  - exists w. cbn. repeat split; try assumption. lia.
  - inversion Hok as [|? ? Hp Hrest]; subst.
    destruct (pass_run euler_from_quaternion tf_wrapper_inference p w)
      as (w0 & Hcb & Hpass).
    pose proof (run_callbacks_keep B ok Hstep _ _ _ Hp HB Hcb) as HB0.
    pose proof (run_callbacks_silent _ _ _ Hcb) as (Hpub & Hinf).
    pose proof (run_callbacks_no_feedback _ _ _ Hcb) as Hfb.
    pose proof (keeps_run_callbacks (callbacks p) w) as Hk.
    rewrite Hcb in Hk. cbn [world_of] in Hk.
    destruct Hk as (Hfreq & _ & _ & _ & Hwakes).
    assert (Hf0 : (freq (self w0) =? 0)%float = false) by (rewrite Hfreq; exact Hf).
    assert (Hi : idle w0 (lookupTransform p)).
    { destruct (Hidle _ HB0) as [H|[H|H]];
        [left | right; left | right; right; left]; exact H. }
    rewrite (tick_idle euler_from_quaternion tf_wrapper_inference
               _ _ _ _ Hf0 Hi) in Hpass.
    destruct (IH (woken w0 (time_time p))) as (w' & Hloop & HB' & Hp' & Hi' & Hf' & Hw').
    + cbn [woken self]. exact Hf0.
    + cbn [woken self]. exact HB0.
    + exact Hrest.
    + exists w'. split.
      * cbn [loop]. unfold bind at 1. rewrite Hpass. exact Hloop.
      * split; [exact HB'|].
        rewrite Hp', Hi', Hf', Hw'. unfold woken. cbn [out length].
        rewrite published_app, inferred_app, feedbacks_app, wakes_app,
          published_wake, inferred_wake, !app_nil_r, Hpub, Hinf, Hfb, Hwakes.
        unfold wakes at 2. cbn [filter]. rewrite is_wake_wake.
        repeat split.
        -- unfold wake. destruct (0 <? _)%float; cbn; now rewrite app_nil_r.
        -- cbn [length]. lia.
Qed.

(** X2: as long as no goal is accepted, a node whose action server is not
    Active runs every pass of the loop without publishing a command, calling
    the engine or sending feedback; the same holds for a node that has no
    scan, as long as none arrives.  The loop only waits for its deadlines,
    one per pass, and returns. *)
Theorem loop_silent_without_goal_or_scan (passes : list Pass) (w : World) :
  (freq (self w) =? 0)%float = false ->
  (_as (self w) <> Active /\ no_goal_in passes)
  \/ (last_scan (self w) = None /\ no_scan_in passes) ->
  exists w',
    the_loop passes w = Returns tt w'
    /\ published (out w') = published (out w)
    /\ inferred (out w') = inferred (out w)
    /\ feedbacks (out w') = feedbacks (out w)
    /\ wakes (out w') = (wakes (out w) + length passes)%nat.
Proof.
  intros Hf [[Hs Hno]|[Hl Hno]].
  - destruct (loop_only_waits (fun d => _as d <> Active)
                (fun c => negb (is_on_goal c))) with (passes := passes) (w := w)
      as (w' & Hloop & _ & H); try assumption.
    + intros d H. now left.
    + intros c w0 w1 Hc HB H1. exact (not_active_kept c w0 w1 Hc HB H1).
    + exists w'. split; [exact Hloop | exact H].
  - destruct (loop_only_waits (fun d => last_scan d = None)
                (fun c => negb (is_on_scan c))) with (passes := passes) (w := w)
      as (w' & Hloop & _ & H); try assumption.
    + intros d H. right. now right.
    + intros c w0 w1 Hc HB H1.
      destruct c; cbn [run_callback] in H1;
        try rewrite preempt_callback_run in H1; cbn in H1;
        injection H1 as <-; cbn; try exact HB; try discriminate.
      all: destruct (_as (self w0)) eqn:E; cbn; try rewrite E;
        try exact HB; try discriminate.
    + exists w'. split; [exact Hloop | exact H].
Qed.

(** X3: a tick that has all it needs, gets its answer from the engine and
    finds the target within the tolerances publishes its command and leaves
    the goal Succeeded; from then on, as long as no new goal is accepted,
    the loop publishes nothing more: the command of that tick is the last
    one. *)
Theorem goal_reached_ends_commands
    (p : Pass) (rest : list Pass) (w w0 : World)
    (goal : Msg.MoveBaseGoal) (scan : Msg.LaserScan) (tr : Tf.transform)
    (scans : list Q) (linear_x angular_z : Q) :
  (freq (self w) =? 0)%float = false ->
  run_callbacks (callbacks p) w = Returns tt w0 ->
  ready w0 (lookupTransform p) goal scan tr ->
  Py.step_slice (Msg.ranges scan) (laser_scan_stride (self w0)) = inr scans ->
  let target := relative_target euler_from_quaternion goal tr in
  tf_wrapper_inference
    (crop (n_laser_scans (self w0)) scans ++ list_of_target target)
  = inr (linear_x, angular_z) ->
  within_tolerance target ->
  no_goal_in rest ->
  exists w1 w',
    the_pass p w = Returns tt w1
    /\ _as (self w1) = Succeeded
    /\ the_loop (p :: rest) w = Returns tt w'
    /\ published (out w')
       = published (out w) ++ [command linear_x angular_z]
    /\ _as (self w') <> Active.
Proof.
  intros Hf Hcb Hready Hslice target Hengine Hwithin Hno.
  pose proof (run_callbacks_silent _ _ _ Hcb) as (Hpub & _).
  pose proof (keeps_run_callbacks (callbacks p) w) as Hk.
  rewrite Hcb in Hk. cbn [world_of] in Hk.
  destruct Hk as (Hfreq & _).
  assert (Hf0 : (freq (self w0) =? 0)%float = false) by (rewrite Hfreq; exact Hf).
  assert (Hpass : the_pass p w
                  = the_tick (time_time p) (lookupTransform p)
                      (rospy_Time_now p) w0).
  { unfold pass. unfold bind at 1. now rewrite Hcb. }
  pose proof (tick_ready euler_from_quaternion tf_wrapper_inference
                (time_time p) (lookupTransform p) (rospy_Time_now p) w0
                goal scan tr scans Hf0 Hready Hslice) as Hrun.
  cbv zeta in Hrun. fold target in Hrun. unfold input_vector in Hrun.
  rewrite Hengine in Hrun.
  destruct target as [[dx dy] dyaw] eqn:Ht.
  rewrite check_goal_reached_run in Hrun.
  assert (Hyes : Py.ltb (Qabs dx) 0.1 && Py.ltb (Qabs dy) 0.1
                 && Py.ltb (Qabs dyaw) 0.1 = true)
    by now apply within_tolerance_iff.
  rewrite Hyes in Hrun.
  unfold set_succeeded in Hrun. rewrite from_active_run in Hrun.
  cbn [after woken self] in Hrun. rewrite (proj1 Hready) in Hrun.
  match type of Hrun with _ = set_status Succeeded ?x => set (w2 := x) in * end.
  set (w1 := {| self := {| target_pose := target_pose (self w2);
                           last_scan := last_scan (self w2);
                           freq := freq (self w2);
                           laser_scan_stride := laser_scan_stride (self w2);
                           n_laser_scans := n_laser_scans (self w2);
                           _as := Succeeded |};
                next_call := next_call w2; out := out w2 |}).
  assert (Hrun1 : the_pass p w = Returns tt w1) by (rewrite Hpass; exact Hrun).
  destruct (loop_only_waits (fun d => _as d <> Active)
              (fun c => negb (is_on_goal c))) with (passes := rest) (w := w1)
    as (w' & Hloop & Hnot & Hp' & _).
  - intros d H. now left.
  - intros c wa wb Hc HB H1. exact (not_active_kept c wa wb Hc HB H1).
  - subst w1 w2. cbn [self freq after woken]. exact Hf0.
  - subst w1. cbn [self _as]. discriminate.
  - exact Hno.
  - exists w1, w'. split; [exact Hrun1|]. split; [reflexivity|]. split.
    + cbn [loop]. unfold bind at 1. rewrite Hrun1. exact Hloop.
    + split; [|exact Hnot].
      rewrite Hp'. subst w1 w2. cbn [out].
      rewrite published_tick, Hpub. reflexivity.
Qed.

(** X4: with the parameter [laser_scan_stride] set to 0, the first tick that
    has a goal, a scan and the transform ends the loop with [ValueError]:
    the feedback of that tick has gone out, but the engine is not called and
    no command is published, then or later. *)
Theorem zero_stride_ends_loop
    (p : Pass) (w w0 : World)
    (goal : Msg.MoveBaseGoal) (scan : Msg.LaserScan) (tr : Tf.transform) :
  (freq (self w) =? 0)%float = false ->
  run_callbacks (callbacks p) w = Returns tt w0 ->
  ready w0 (lookupTransform p) goal scan tr ->
  laser_scan_stride (self w0) = 0%Z ->
  exists w',
    (forall rest, the_loop (p :: rest) w = Raises Py.ValueError w')
    /\ published (out w') = published (out w)
    /\ inferred (out w') = inferred (out w)
    /\ feedbacks (out w')
       = feedbacks (out w) ++ [snapshot tr (rospy_Time_now p)].
Proof.
  intros Hf Hcb (Hs & Hg & Hl & Hlook) Hzero.
  pose proof (run_callbacks_silent _ _ _ Hcb) as (Hpub & Hinf).
  pose proof (run_callbacks_no_feedback _ _ _ Hcb) as Hfb.
  pose proof (keeps_run_callbacks (callbacks p) w) as Hk.
  rewrite Hcb in Hk. cbn [world_of] in Hk.
  destruct Hk as (Hfreq & _).
  assert (Hf0 : (freq (self w0) =? 0)%float = false) by (rewrite Hfreq; exact Hf).
  assert (Hpass : the_pass p w
                  = Raises Py.ValueError
                      (fed (woken w0 (time_time p))
                           (snapshot tr (rospy_Time_now p)))).
  { unfold pass. unfold bind at 1. rewrite Hcb, Hlook.
    rewrite tick_run by exact Hf0.
    rewrite (body_run euler_from_quaternion tf_wrapper_inference tr _
               (woken w0 (time_time p)) goal scan Hs Hg Hl).
    cbn [woken self]. rewrite Hzero. reflexivity. }
  eexists. split; [|split; [|split]].
  - intros rest. cbn [loop]. unfold bind at 1. rewrite Hpass. reflexivity.
  - unfold fed, woken. cbn [out].
    rewrite !published_app, published_wake, Hpub. cbn. now rewrite !app_nil_r.
  - unfold fed, woken. cbn [out].
    rewrite !inferred_app, inferred_wake, Hinf. cbn. now rewrite !app_nil_r.
  - unfold fed, woken. cbn [out].
    rewrite !feedbacks_app, Hfb, feedbacks_wake, app_nil_r. reflexivity.
Qed.

End Silence.

(** ** The stride and the length of the input vector *)

Lemma step_slice_negative (samples : list Q) (stride : Z) :
  (stride < 0)%Z ->
  Py.step_slice samples stride
  = inr (Py.every (Z.to_nat (- stride) - 1) 0 (rev samples)).
Proof.
  intros H. unfold Py.step_slice.
  destruct (Z.eqb_spec stride 0); [lia|].
  destruct (Z.ltb_spec 0 stride); [lia|reflexivity].
Qed.

(** X5: with a negative [laser_scan_stride] the scans are taken from the
    last sample backwards: the preprocessing crops the sequence whose [i]-th
    element is the sample [i * |stride|] places before the last one, so the
    input vector holds the scan in reverse order. *)
Theorem negative_stride_reverses_scans (scan : Msg.LaserScan) (w : World) :
  let stride := laser_scan_stride (self w) in
  let samples := Msg.ranges scan in
  (stride < 0)%Z ->
  exists scans w',
    cropped_scans scan w = Returns (crop (n_laser_scans (self w)) scans) w'
    /\ (forall i,
           (i * Z.to_nat (- stride) < length samples)%nat ->
           nth_error scans i
           = nth_error samples (length samples - 1 - i * Z.to_nat (- stride)))
    /\ (forall i,
           (length samples <= i * Z.to_nat (- stride))%nat ->
           nth_error scans i = None).
Proof.
  intros stride samples Hneg.
  exists (Py.every (Z.to_nat (- stride) - 1) 0 (rev samples)).
  eexists. split; [|split].
  - apply cropped_scans_run. now apply step_slice_negative.
  - intros i Hi. rewrite every_nth_error, nth_error_rev.
    replace (S (Z.to_nat (- stride) - 1)) with (Z.to_nat (- stride)) by lia.
    cbn [Nat.add].
    destruct (Nat.ltb_spec (i * Z.to_nat (- stride)) (length samples)); [|lia].
    f_equal. lia.
  - intros i Hi. rewrite every_nth_error, nth_error_rev.
    replace (S (Z.to_nat (- stride) - 1)) with (Z.to_nat (- stride)) by lia.
    cbn [Nat.add].
    destruct (Nat.ltb_spec (i * Z.to_nat (- stride)) (length samples)); [lia|].
    reflexivity.
Qed.

(** X6: for a positive stride and a target length [n >= 0], the scans of the
    input vector number the smaller of [n] and the samples over the stride,
    rounded up.  So for [n >= 1] the vector has its full length exactly when
    the scan has more than [stride * (n - 1)] samples: with the defaults,
    stride 2 and 540 scans, at least 1079. *)
Theorem cropped_scans_length (scan : Msg.LaserScan) (w : World) :
  let stride := laser_scan_stride (self w) in
  let n := n_laser_scans (self w) in
  let len := Z.of_nat (length (Msg.ranges scan)) in
  (0 < stride)%Z ->
  (0 <= n)%Z ->
  exists cropped w',
    cropped_scans scan w = Returns cropped w'
    /\ Z.of_nat (length cropped) = Z.min n ((len + stride - 1) / stride)
    /\ ((1 <= n)%Z ->
        (Z.of_nat (length cropped) = n <-> (stride * (n - 1) < len)%Z)).
Proof.
  intros stride n len Hstride Hn.
  set (scans := decimated stride (Msg.ranges scan)).
  assert (Hd : Z.of_nat (length scans) = ((len + stride - 1) / stride)%Z)
    by now apply decimated_length.
  assert (Hlen : Z.of_nat (length (crop n scans))
                 = Z.min n ((len + stride - 1) / stride)).
  { rewrite <- Hd.
    destruct (Z.le_gt_cases n (Z.of_nat (length scans))) as [Hle|Hgt].
    - rewrite crop_length by lia. lia.
    - destruct (crop_short n scans) as [-> _]; lia. }
  exists (crop n scans), (after w (crop_logs n scans)).
  split; [|split].
  - apply cropped_scans_run. now apply step_slice_positive.
  - exact Hlen.
  - intros Hn1. rewrite Hlen.
    assert (Hceil : (n <= (len + stride - 1) / stride
                     <-> stride * (n - 1) < len)%Z).
    { split; intros H.
      - pose proof (Z.mul_div_le (len + stride - 1) stride Hstride). nia.
      - apply Z.div_le_lower_bound; lia. }
    lia.
Qed.

(** ** Goals from the topic *)

(** X7: a pose posted on the goal topic and the same pose sent as an action
    goal give the same relative target on every tick: the topic callback
    forwards x, y and the orientation, which is all that the computation
    reads; z, the stamp and the frame of the posted pose are not forwarded
    (the goal goes out with z 0 and the frame "map"). *)
Theorem topic_goal_gives_same_target
    (euler_from_quaternion : Tf.quaternion -> Q * Q * Q)
    (data : Msg.PoseStamped) (tr : Tf.transform) (now : Q) (w : World) :
  exists w1 w2 target,
    goal_callback (goal_topic_callback data) w = Returns tt w1
    /\ goal_callback {| Msg.target_pose := data |} w = Returns tt w2
    /\ compute_relative_target euler_from_quaternion (inr tr) now w1
       = Returns (Some target) (fed w1 (snapshot tr now))
    /\ compute_relative_target euler_from_quaternion (inr tr) now w2
       = Returns (Some target) (fed w2 (snapshot tr now))
    /\ Msg.frame_id (Msg.header (Msg.target_pose (goal_topic_callback data)))
       = "map"%string
    /\ Msg.z (Msg.position (Msg.pose (Msg.target_pose (goal_topic_callback data))))
       = 0.
Proof.
  do 2 eexists.
  exists (relative_target euler_from_quaternion {| Msg.target_pose := data |} tr).
  split; [reflexivity|]. split; [reflexivity|].
  rewrite !compute_relative_target_ok. cbn [self target_pose].
  repeat split.
Qed.

(** ** The constructor *)

Section Constructor.

Variable euler_from_quaternion : Tf.quaternion -> Q * Q * Q.
Variable tf_wrapper_inference : list Q -> Py.Exc + (Q * Q).
Variable exists_ : string -> bool.
Variable resolve_name : string -> string.

(** X8: the constructor goes on exactly when the parameter [~model_path] is
    set, that path exists and the protobuf file (parameter [~protobuf_file],
    "graph.pb" by default) exists under it; otherwise it logs at least one
    error and exits.  The node it goes on with has no goal pose and no scan,
    an action server that is not Active, the frequency 25 and the stride and
    number of scans of the parameters (2 and 540 by default); its loop
    publishes nothing as long as no goal is accepted. *)
Theorem init_checks_model (params : Params) :
  let logs := fst (init exists_ resolve_name params) in
  let result := snd (init exists_ resolve_name params) in
  let file := get_param (protobuf_file_param params) "graph.pb"%string in
  ((exists c, result = Some c)
   <-> (exists path, model_path_param params = Some path
                     /\ exists_ path = true
                     /\ exists_ (Path.join path file) = true))
  /\ (result = None -> logs <> [])
  /\ (forall c, result = Some c ->
        logs = []
        /\ model_path_param params = Some (model_path c)
        /\ protobuf_file c = file
        /\ node c = {| target_pose := None;
                       last_scan := None;
                       freq := 25;
                       laser_scan_stride :=
                         get_param (laser_scan_stride_param params) 2%Z;
                       n_laser_scans :=
                         get_param (n_laser_scans_param params) 540%Z;
                       _as := Idle |}
        /\ forall start passes,
             no_goal_in passes ->
             exists w',
               processing_data euler_from_quaternion tf_wrapper_inference
                 start passes (node c) = Returns tt w'
               /\ published (out w') = []
               /\ inferred (out w') = []).
Proof.
  intros logs result file. subst logs result. unfold init.
  destruct (model_path_param params) as [path|].
  2:{ split; [|split].
      - split; [intros [c H]; discriminate | intros (p & H & _); discriminate].
      - discriminate.
      - discriminate. }
  fold file.
  destruct (exists_ path) eqn:Hpath; cbn [negb].
  2:{ split; [|split].
      - split; [intros [c H]; discriminate|].
        intros (p & [= <-] & H & _). congruence.
      - discriminate.
      - discriminate. }
  destruct (exists_ (Path.join path file)) eqn:Hfile; cbn [negb fst snd].
  2:{ split; [|split].
      - split; [intros [c H]; discriminate|].
        intros (p & [= <-] & _ & H). congruence.
      - discriminate.
      - discriminate. }
  split; [|split].
  - split; [|intros _; eexists; reflexivity].
    intros _. exists path. repeat split; assumption.
  - discriminate.
  - intros c [= <-]. cbn [node model_path protobuf_file].
    repeat split.
    intros start passes Hno. unfold processing_data.
    destruct (loop_only_waits euler_from_quaternion tf_wrapper_inference
                (fun d => _as d <> Active) (fun c => negb (is_on_goal c)))
      with (passes := passes)
           (w := {| self := {| target_pose := None; last_scan := None;
                               freq := 25;
                               laser_scan_stride :=
                                 get_param (laser_scan_stride_param params) 2%Z;
                               n_laser_scans :=
                                 get_param (n_laser_scans_param params) 540%Z;
                               _as := Idle |};
                    next_call := start; out := [] |})
      as (w' & Hloop & _ & Hpub & Hinf & _).
    + intros d H. now left.
    + intros c w0 w1 Hc HB H1. exact (not_active_kept c w0 w1 Hc HB H1).
    + reflexivity.
    + cbn [self _as]. discriminate.
    + exact Hno.
    + exists w'. split; [exact Hloop|]. split; assumption.
Qed.

End Constructor.

(** ** Callbacks, one after the other *)

Lemma run_callbacks_app (cs cs' : list Callback) (w w1 w' : World) :
  run_callbacks cs w = Returns tt w1 ->
  run_callbacks cs' w1 = Returns tt w' ->
  run_callbacks (cs ++ cs') w = Returns tt w'.
Proof.
  revert w. induction cs as [|c cs IH]; intros w H1 H2.
  - injection H1 as ->. exact H2.
  - apply run_callbacks_cons_inv in H1. destruct H1 as (w0 & Hc & Hcs).
    cbn [app]. eapply run_callbacks_cons; [exact Hc|].
    now apply IH.
Qed.

Section LastCallback.

Variable euler_from_quaternion : Tf.quaternion -> Q * Q * Q.
Variable tf_wrapper_inference : list Q -> Py.Exc + (Q * Q).

Local Abbreviation the_tick := (tick euler_from_quaternion tf_wrapper_inference).
Local Abbreviation the_pass := (pass euler_from_quaternion tf_wrapper_inference).
Local Abbreviation the_loop := (loop euler_from_quaternion tf_wrapper_inference).

(** X9: a preemption is logged, whatever came before it since the last tick
    and whatever the state of the goal, and after it the goal is not Active:
    Preempted if it was Active, as it was otherwise.  So it stops the
    commands from the next tick on: the loop goes through that pass and all
    later ones without publishing, as long as no new goal is accepted. *)
Theorem preemption_stops_commands
    (p : Pass) (rest : list Pass) (cs : list Callback) (w : World) :
  (freq (self w) =? 0)%float = false ->
  callbacks p = cs ++ [on_preempt] ->
  no_goal_in rest ->
  exists wcs w1 w',
    run_callbacks cs w = Returns tt wcs
    /\ the_pass p w = Returns tt w1
    /\ _as (self w1) <> Active
    /\ (_as (self wcs) = Active -> _as (self w1) = Preempted)
    /\ (_as (self wcs) <> Active -> self w1 = self wcs)
    /\ In (logerr "Action preempted") (out w1)
    /\ the_loop (p :: rest) w = Returns tt w'
    /\ published (out w') = published (out w)
    /\ inferred (out w') = inferred (out w)
    /\ _as (self w') <> Active.
Proof.
  intros Hf Hp Hno.
  destruct (run_callbacks_returns cs w) as [wcs Hcs].
  pose proof (preempt_callback_run wcs) as Hpre.
  match type of Hpre with _ = Returns tt ?x => set (w0 := x) in * end.
  assert (Hcb : run_callbacks (callbacks p) w = Returns tt w0).
  { rewrite Hp. eapply run_callbacks_app; [exact Hcs|].
    cbn [run_callbacks run_callback]. unfold bind. now rewrite Hpre. }
  assert (Hnot0 : _as (self w0) <> Active).
  { subst w0. cbn [self]. destruct (_as (self wcs)) eqn:E; cbn [_as];
      rewrite ?E; discriminate. }
  pose proof (run_callbacks_silent _ _ _ Hcb) as (Hpub & Hinf).
  pose proof (keeps_run_callbacks (callbacks p) w) as Hk.
  rewrite Hcb in Hk. cbn [world_of] in Hk. destruct Hk as (Hfreq & _).
  assert (Hf0 : (freq (self w0) =? 0)%float = false) by (rewrite Hfreq; exact Hf).
  assert (Hpass : the_pass p w = Returns tt (woken w0 (time_time p))).
  { unfold pass. unfold bind at 1. rewrite Hcb.
    apply tick_idle; [exact Hf0|]. left. exact Hnot0. }
  destruct (loop_only_waits euler_from_quaternion tf_wrapper_inference
              (fun d => _as d <> Active) (fun c => negb (is_on_goal c)))
    with (passes := rest) (w := woken w0 (time_time p))
    as (w' & Hloop & Hnot & Hp' & Hi' & _).
  - intros d H. now left.
  - intros c wa wb Hc HB H1. exact (not_active_kept c wa wb Hc HB H1).
  - exact Hf0.
  - exact Hnot0.
  - exact Hno.
  - exists wcs, (woken w0 (time_time p)), w'.
    split; [exact Hcs|]. split; [exact Hpass|]. split; [exact Hnot0|].
    split.
    { intros Ha. subst w0. cbn [woken self]. now rewrite Ha. }
    split.
    { intros Ha. subst w0. cbn [woken self].
      destruct (_as (self wcs)); [reflexivity| |reflexivity|reflexivity].
      now contradiction Ha. }
    split.
    { unfold woken. subst w0. cbn [out].
      rewrite !in_app_iff. left. right. now left. }
    split.
    { cbn [loop]. unfold bind at 1. rewrite Hpass. exact Hloop. }
    split; [|split; [|exact Hnot]].
    + rewrite Hp'. unfold woken. cbn [out].
      now rewrite published_app, published_wake, app_nil_r.
    + rewrite Hi'. unfold woken. cbn [out].
      now rewrite inferred_app, inferred_wake, app_nil_r.
Qed.


End LastCallback.

(** ** Examples *)

(** X2 on the node with nothing to do, over two passes. *)
Lemma loop_silent_without_goal_or_scan_witness :
  (freq node_idle =? 0)%float = false
  /\ exists w',
       loop euler_zero engine_fixed late_passes (world_of_node node_idle)
       = Returns tt w'
       /\ published (out w') = []
       /\ wakes (out w') = 2%nat.
Proof.
  assert (Hf : (freq node_idle =? 0)%float = false) by reflexivity.
  split; [exact Hf|].
  destruct (loop_silent_without_goal_or_scan euler_zero engine_fixed
              late_passes (world_of_node node_idle) Hf)
    as (w' & Hloop & Hpub & _ & _ & Hwakes).
  - left. split; [discriminate|]. repeat constructor.
  - exists w'. split; [exact Hloop|]. split; [exact Hpub | exact Hwakes].
Defined.

(** X3 with the robot on its goal: one command, then none. *)
Lemma goal_reached_ends_commands_witness :
  (freq node_3_4 =? 0)%float = false
  /\ within_tolerance (relative_target euler_zero goal_3_4 at_goal)
  /\ exists w',
       loop euler_zero engine_fixed
         [pass_at 0 (inr at_goal); pass_at 0 (inr at_goal)]
         (world_of_node node_3_4)
       = Returns tt w'
       /\ published (out w') = [command 0.5 0.25].
Proof.
  assert (Hf : (freq node_3_4 =? 0)%float = false) by reflexivity.
  assert (Hw : within_tolerance (relative_target euler_zero goal_3_4 at_goal))
    by (repeat split).
  split; [exact Hf|]. split; [exact Hw|].
  destruct (goal_reached_ends_commands euler_zero engine_fixed
              (pass_at 0 (inr at_goal)) [pass_at 0 (inr at_goal)]
              (world_of_node node_3_4) (world_of_node node_3_4)
              goal_3_4 {| Msg.ranges := ramp 3 |} at_goal
              (decimated 2 (ramp 3)) 0.5 0.25 Hf eq_refl
              (conj eq_refl (conj eq_refl (conj eq_refl eq_refl)))
              eq_refl eq_refl Hw)
    as (w1 & w' & _ & _ & Hloop & Hpub & _).
  - repeat constructor.
  - exists w'. split; [exact Hloop | exact Hpub].
Defined.

(** X4 on the node with the stride 0. *)
Lemma zero_stride_ends_loop_witness :
  (freq (node_with_stride 0) =? 0)%float = false
  /\ exists w',
       loop euler_zero engine_fixed two_passes
         (world_of_node (node_with_stride 0))
       = Raises Py.ValueError w'
       /\ published (out w') = []
       /\ inferred (out w') = [].
Proof.
  assert (Hf : (freq (node_with_stride 0) =? 0)%float = false) by reflexivity.
  split; [exact Hf|].
  destruct (zero_stride_ends_loop euler_zero engine_fixed
              (pass_at 0 (inr at_origin))
              (world_of_node (node_with_stride 0))
              (world_of_node (node_with_stride 0))
              goal_3_4 {| Msg.ranges := ramp 3 |} at_origin Hf eq_refl
              (conj eq_refl (conj eq_refl (conj eq_refl eq_refl))) eq_refl)
    as (w' & Hloop & Hpub & Hinf & _).
  exists w'. split; [apply Hloop|]. split; [exact Hpub | exact Hinf].
Defined.

(** X5 on the samples 0, 1, 2 with the stride -1. *)
Lemma negative_stride_reverses_scans_witness :
  (laser_scan_stride (node_with_stride (-1)) < 0)%Z
  /\ cropped_scans {| Msg.ranges := ramp 3 |}
       (world_of_node (node_with_stride (-1)))
     = Returns [2; 1; 0] (world_of_node (node_with_stride (-1)))
  /\ exists scans,
       nth_error scans 0 = nth_error (ramp 3) 2
       /\ nth_error scans 2 = nth_error (ramp 3) 0.
Proof.
  assert (Hneg : (laser_scan_stride (node_with_stride (-1)) < 0)%Z)
    by reflexivity.
  split; [exact Hneg|]. split; [reflexivity|].
  destruct (negative_stride_reverses_scans {| Msg.ranges := ramp 3 |}
              (world_of_node (node_with_stride (-1))) Hneg)
    as (scans & w' & _ & Hnth & _).
  exists scans. split.
  - apply (Hnth 0%nat). cbn. lia.
  - apply (Hnth 2%nat). cbn. lia.
Defined.

(** X6 on the ramp of 1081 samples, and on one sample less than needed. *)
Lemma cropped_scans_length_witness :
  (0 < laser_scan_stride node_ramp)%Z
  /\ (0 <= n_laser_scans node_ramp)%Z
  /\ exists cropped w',
       cropped_scans scan_ramp (world_of_node node_ramp) = Returns cropped w'
       /\ Z.of_nat (length cropped) = 540%Z.
Proof.
  assert (Hs : (0 < laser_scan_stride node_ramp)%Z) by reflexivity.
  assert (Hn : (0 <= n_laser_scans node_ramp)%Z) by discriminate.
  split; [exact Hs|]. split; [exact Hn|].
  destruct (cropped_scans_length scan_ramp (world_of_node node_ramp) Hs Hn)
    as (cropped & w' & Hrun & Hlen & _).
  exists cropped, w'. split; [exact Hrun|]. rewrite Hlen. reflexivity.
Defined.

(** X9 on the node with the goal (3, 4), preempted before the first tick. *)
Lemma preemption_stops_commands_witness :
  (freq node_3_4 =? 0)%float = false
  /\ exists w',
       loop euler_zero engine_fixed [pass_preempted; pass_at 0 (inr at_origin)]
         (world_of_node node_3_4)
       = Returns tt w'
       /\ published (out w') = [].
Proof.
  assert (Hf : (freq node_3_4 =? 0)%float = false) by reflexivity.
  split; [exact Hf|].
  destruct (preemption_stops_commands euler_zero engine_fixed
              pass_preempted [pass_at 0 (inr at_origin)] []
              (world_of_node node_3_4) Hf eq_refl)
    as (wcs & w1 & w' & _ & _ & _ & _ & _ & _ & Hloop & Hpub & _).
  - repeat constructor.
  - exists w'. split; [exact Hloop | exact Hpub].
Defined.


(** * Properties of make_dataset.py *)

From Stdlib Require DecimalFacts DecimalPos DecimalZ.

(** ** Strings *)

Lemma has_app (c : ascii) (a b : string) :
  Str.has c (a ++ b)%string = Str.has c a || Str.has c b.
Proof.
  induction a as [|x a IH]; cbn; [reflexivity|].
  now rewrite IH, orb_assoc.
Qed.

Lemma all_app (p : ascii -> bool) (a b : string) :
  Str.all p (a ++ b)%string = Str.all p a && Str.all p b.
Proof.
  induction a as [|x a IH]; cbn; [reflexivity|].
  now rewrite IH, andb_assoc.
Qed.

(** A character of [s] passes what all of them pass. *)
Lemma all_has (p : ascii -> bool) (s : string) (c : ascii) :
  Str.all p s = true -> Str.has c s = true -> p c = true.
Proof.
  induction s as [|a s IH]; cbn; [discriminate|].
  rewrite andb_true_iff, orb_true_iff.
  intros [Ha Hs] [H|H]; [|now apply IH].
  apply Ascii.eqb_eq in H. now subst.
Qed.

Lemma all_not_has (p : ascii -> bool) (s : string) (c : ascii) :
  Str.all p s = true -> p c = false -> Str.has c s = false.
Proof.
  intros Hall Hc. destruct (Str.has c s) eqn:H; [|reflexivity].
  rewrite (all_has p s c Hall H) in Hc. discriminate.
Qed.

Lemma all_weaken (p q : ascii -> bool) (s : string) :
  (forall a, p a = true -> q a = true) ->
  Str.all p s = true -> Str.all q s = true.
Proof.
  intros Hpq. induction s as [|a s IH]; cbn; [reflexivity|].
  rewrite !andb_true_iff. intros [Ha Hs]. split; [now apply Hpq | now apply IH].
Qed.

Lemma split_nonempty (c : ascii) (s : string) : Str.split c s <> [].
Proof.
  destruct s as [|a s]; cbn; [discriminate|].
  destruct (Ascii.eqb a c); [discriminate|].
  destruct (Str.split c s); discriminate.
Qed.

(** Without the separator there is one piece. *)
Lemma split_none (c : ascii) (s : string) :
  Str.has c s = false -> Str.split c s = [s].
Proof.
  induction s as [|a s IH]; cbn; [reflexivity|].
  rewrite orb_false_iff. intros [Ha Hs]. rewrite Ha, (IH Hs). reflexivity.
Qed.

(** The pieces of [a ++ c ++ b] are those of [a], then those of [b]. *)
Lemma split_app (c : ascii) (a b : string) :
  Str.split c (a ++ String c b)%string = Str.split c a ++ Str.split c b.
Proof.
  induction a as [|x a IH]; cbn.
  - now rewrite Ascii.eqb_refl.
  - destruct (Ascii.eqb x c); [now rewrite IH|].
    rewrite IH. pose proof (split_nonempty c a) as Hne.
    destruct (Str.split c a) as [|p ps]; [contradiction|]. reflexivity.
Qed.

Lemma last_piece_app (c : ascii) (a b : string) :
  Str.last_piece (Str.split c (a ++ String c b)%string)
  = Str.last_piece (Str.split c b).
Proof.
  rewrite split_app. unfold Str.last_piece.
  pose proof (split_nonempty c b) as Hne.
  induction (Str.split c a) as [|p ps IH]; [reflexivity|].
  cbn [app]. destruct (ps ++ Str.split c b) eqn:E; [|exact IH].
  apply app_eq_nil in E. destruct E as [_ E]. contradiction.
Qed.

Lemma first_piece_app (c : ascii) (a b : string) :
  Str.has c a = false ->
  Str.first_piece (Str.split c (a ++ String c b)%string) = a.
Proof.
  intros Ha. rewrite split_app, (split_none c a Ha). reflexivity.
Qed.

(** The pieces of [a ++ b] when [b] has no separator: those of [a], the
    last one going on with [b]. *)
Lemma split_extend (c : ascii) (a b : string) :
  Str.has c b = false ->
  exists init l,
    Str.split c a = init ++ [l]
    /\ Str.split c (a ++ b)%string = init ++ [(l ++ b)%string].
Proof.
  intros Hb. induction a as [|x a (init & l & Ha & Hab)];
    cbn [String.append Str.split].
  - exists [], EmptyString. split; [reflexivity|]. now apply split_none.
  - rewrite Ha, Hab. destruct (Ascii.eqb x c).
    + exists (EmptyString :: init), l. split; reflexivity.
    + destruct init as [|p ps]; cbn [app].
      * exists [], (String x l). split; reflexivity.
      * exists (String x p :: ps), l. split; reflexivity.
Qed.

(** The last piece goes on through what has no separator. *)
Lemma last_piece_extend (c : ascii) (a b : string) :
  Str.has c b = false ->
  Str.last_piece (Str.split c (a ++ b)%string)
  = (Str.last_piece (Str.split c a) ++ b)%string.
Proof.
  intros Hb. destruct (split_extend c a b Hb) as (init & l & -> & ->).
  unfold Str.last_piece. now rewrite !last_last.
Qed.

(** What the last piece is: all of [s], or what follows its last separator. *)
Lemma last_piece_spec (c : ascii) (s : string) :
  Str.has c (Str.last_piece (Str.split c s)) = false
  /\ ((Str.has c s = false /\ Str.last_piece (Str.split c s) = s)
      \/ exists pre, s = (pre ++ String c (Str.last_piece (Str.split c s)))%string).
Proof.
  induction s as [|a s (IHno & IH)].
  - cbn. split; [reflexivity|]. now left.
  - cbn [Str.split]. destruct (Ascii.eqb a c) eqn:Ha.
    + apply Ascii.eqb_eq in Ha. subst a.
      assert (Hl : Str.last_piece (EmptyString :: Str.split c s)
                   = Str.last_piece (Str.split c s)).
      { unfold Str.last_piece. pose proof (split_nonempty c s).
        destruct (Str.split c s); [contradiction|reflexivity]. }
      rewrite Hl. split; [exact IHno|]. right.
      destruct IH as [[Hno ->]|[pre Hpre]].
      * now exists EmptyString.
      * exists (String c pre). cbn. now rewrite <- Hpre.
    + pose proof (split_nonempty c s) as Hne.
      destruct (Str.split c s) as [|p ps] eqn:E; [contradiction|].
      destruct ps as [|p' ps].
      * unfold Str.last_piece in *. cbn [last] in *.
        destruct IH as [[Hno ->]|[pre Hpre]].
        -- split; [cbn; now rewrite Ha, Hno|]. left.
           split; [cbn; now rewrite Ha, Hno | reflexivity].
        -- exfalso.
           assert (H : Str.split c s = Str.split c pre ++ Str.split c p)
             by (rewrite Hpre at 1; apply split_app).
           rewrite E in H.
           pose proof (split_nonempty c pre). pose proof (split_nonempty c p).
           destruct (Str.split c pre) as [|u [|u' us]]; [contradiction| |discriminate].
           destruct (Str.split c p); [contradiction|discriminate].
      * unfold Str.last_piece in *. cbn [last] in *.
        split; [exact IHno|]. right.
        destruct IH as [[Hno Heq]|[pre Hpre]].
        -- rewrite (split_none c s Hno) in E. discriminate.
        -- exists (String a pre). cbn. now rewrite <- Hpre.
Qed.

(** Every piece is made of characters of the string. *)
Lemma split_all (p : ascii -> bool) (c : ascii) (s : string) :
  Str.all p s = true -> Forall (fun piece => Str.all p piece = true) (Str.split c s).
Proof.
  induction s as [|a s IH]; cbn [Str.split Str.all].
  - intros _. now constructor.
  - rewrite andb_true_iff. intros [Ha Hs]. specialize (IH Hs).
    destruct (Ascii.eqb a c); [now constructor|].
    destruct (Str.split c s) as [|q qs]; [repeat constructor; cbn; now rewrite Ha|].
    inversion IH; subst. constructor; [cbn; now rewrite Ha|assumption].
Qed.

Lemma last_piece_all (p : ascii -> bool) (pieces : list string) :
  Forall (fun piece => Str.all p piece = true) pieces ->
  Str.all p (Str.last_piece pieces) = true.
Proof.
  unfold Str.last_piece. induction 1 as [|q qs Hq Hqs IH]; [reflexivity|].
  destruct qs; [exact Hq | exact IH].
Qed.

Lemma first_piece_all (p : ascii -> bool) (pieces : list string) :
  Forall (fun piece => Str.all p piece = true) pieces ->
  Str.all p (Str.first_piece pieces) = true.
Proof. destruct 1; [reflexivity | assumption]. Qed.

(** ** Reading integers *)

Ltac each_ascii a :=
  destruct a as [[|] [|] [|] [|] [|] [|] [|] [|]].

Lemma digit_not_space (a : ascii) :
  Str.is_digit a = true -> Str.is_space a = false.
Proof. each_ascii a; cbn; intros H; try reflexivity; discriminate H. Qed.

Lemma digit_not_mark (a : ascii) :
  Str.is_digit a = true ->
  Ascii.eqb a "-" = false /\ Ascii.eqb a "+" = false
  /\ Ascii.eqb a "_" = false /\ Ascii.eqb a "." = false
  /\ Ascii.eqb a "/" = false.
Proof.
  each_ascii a; cbn; intros H; try discriminate H; repeat split.
Qed.

Lemma uint_digits (d : Decimal.uint) :
  Str.all Str.is_digit (NilEmpty.string_of_uint d) = true.
Proof. induction d; cbn; try reflexivity; exact IHd. Qed.

Lemma lstrip_none (s : string) :
  Str.all (fun a => negb (Str.is_space a)) s = true -> Str.lstrip s = s.
Proof.
  destruct s as [|a s]; cbn; [reflexivity|].
  rewrite andb_true_iff, negb_true_iff. now intros [-> _].
Qed.

Lemma rstrip_none (s : string) :
  Str.all (fun a => negb (Str.is_space a)) s = true -> Str.rstrip s = s.
Proof.
  induction s as [|a s IH]; cbn; [reflexivity|].
  rewrite andb_true_iff, negb_true_iff. intros [Ha Hs].
  rewrite (IH Hs), Ha. now destruct s.
Qed.

Lemma strip_none (s : string) :
  Str.all (fun a => negb (Str.is_space a)) s = true -> Str.strip s = s.
Proof.
  intros H. unfold Str.strip. rewrite (lstrip_none s H). now apply rstrip_none.
Qed.

Lemma digits_of_digits (s : string) (after_digit : bool) :
  Str.all Str.is_digit s = true ->
  s <> EmptyString \/ after_digit = true ->
  Str.digits_of after_digit s = Some s.
Proof.
  revert after_digit. induction s as [|a s IH]; intros after_digit; cbn.
  - intros _ [H| ->]; [contradiction|reflexivity].
  - rewrite andb_true_iff. intros [Ha Hs] _. rewrite Ha.
    rewrite (IH true Hs); [reflexivity|now right].
Qed.

(** [int] reads back what [str] writes. *)
Lemma int_str (n : Z) : Str.int (Py.str n) = inr n.
Proof.
  unfold Py.str. rewrite <- (DecimalZ.of_to n) at 2.
  destruct n as [|p|p]; cbn [Z.to_int].
  - reflexivity.
  - pose proof (DecimalPos.Unsigned.to_uint_nonnil p) as Hnil.
    pose proof (uint_digits (Pos.to_uint p)) as Hd.
    cbn [NilZero.string_of_int]. unfold NilZero.string_of_uint.
    destruct (Pos.to_uint p) as [] eqn:E; try contradiction;
      rewrite <- E in *; clear E.
    all: set (s := NilEmpty.string_of_uint (Pos.to_uint p)) in *.
    all: assert (Hne : s <> EmptyString)
        by (subst s; destruct (Pos.to_uint p); [contradiction|discriminate..]).
    all: assert (Hsp : Str.all (fun a => negb (Str.is_space a)) s = true)
        by (apply (all_weaken Str.is_digit); [|exact Hd];
            intros a Ha; now rewrite (digit_not_space a Ha)).
    all: unfold Str.int; rewrite (strip_none s Hsp).
    all: destruct s as [|a r] eqn:Es; [contradiction|].
    all: cbn [Str.all] in Hd; apply andb_true_iff in Hd; destruct Hd as [Ha Hr].
    all: destruct (digit_not_mark a Ha) as (Hm & Hp & _).
    all: rewrite Hm, Hp; cbn [orb].
    all: rewrite digits_of_digits;
        [|cbn; now rewrite Ha, Hr | left; discriminate].
    all: rewrite <- Es; subst s; rewrite NilEmpty.usu; reflexivity.
  - pose proof (DecimalPos.Unsigned.to_uint_nonnil p) as Hnil.
    pose proof (uint_digits (Pos.to_uint p)) as Hd.
    cbn [NilZero.string_of_int]. unfold NilZero.string_of_uint.
    destruct (Pos.to_uint p) as [] eqn:E; try contradiction;
      rewrite <- E in *; clear E.
    all: set (s := NilEmpty.string_of_uint (Pos.to_uint p)) in *.
    all: assert (Hne : s <> EmptyString)
        by (subst s; destruct (Pos.to_uint p); [contradiction|discriminate..]).
    all: assert (Hsp : Str.all (fun a => negb (Str.is_space a)) (String "-" s) = true)
        by (cbn; apply (all_weaken Str.is_digit); [|exact Hd];
            intros a Ha; now rewrite (digit_not_space a Ha)).
    all: unfold Str.int; rewrite (strip_none _ Hsp).
    all: cbn [Ascii.eqb Bool.eqb orb].
    all: rewrite digits_of_digits; [|exact Hd | now left].
    all: subst s; rewrite NilEmpty.usu; reflexivity.
Qed.

(** What [str] writes: digits, after a minus sign for a negative number. *)
Lemma str_chars (n : Z) :
  Str.all (fun a => Str.is_digit a || Ascii.eqb a "-") (Py.str n) = true.
Proof.
  unfold Py.str.
  assert (H : forall d, Str.all (fun a => Str.is_digit a || Ascii.eqb a "-")
                          (NilZero.string_of_uint d) = true).
  { intros d. unfold NilZero.string_of_uint.
    assert (Hd : Str.all (fun a => Str.is_digit a || Ascii.eqb a "-")
                   (NilEmpty.string_of_uint d) = true).
    { apply (all_weaken Str.is_digit); [|apply uint_digits].
      intros a ->. reflexivity. }
    destruct d; exact Hd. }
  destruct (Z.to_int n) as [d|d]; cbn [NilZero.string_of_int Str.all].
  - apply H.
  - rewrite H. reflexivity.
Qed.

Lemma str_has_no (n : Z) (c : ascii) :
  Str.is_digit c = false -> Ascii.eqb c "-" = false ->
  Str.has c (Py.str n) = false.
Proof.
  intros Hd Hm. apply (all_not_has _ _ _ (str_chars n)).
  now rewrite Hd, Hm.
Qed.

(** ** get_target_id *)

Lemma basename_of_join (dir name : string) :
  Str.has "/" name = false ->
  Str.basename (dir ++ String "/" name)%string = name.
Proof.
  intros H. unfold Str.basename.
  now rewrite last_piece_app, (split_none _ _ H).
Qed.

(** X11: the id of a file is the number that its name carries after the last
    underscore (or, without any, at its start) and before the next dot,
    whatever precedes it and whatever extensions follow: for every integer
    [n], [get_target_id] reads back [n] from a path that ends in an
    underscore or a slash, [str(n)], a dot and a rest with neither slash nor
    underscore. *)
Theorem get_target_id_reads_number (prefix rest : string) (n : Z) :
  Str.has "/" rest = false ->
  Str.has "_" rest = false ->
  get_target_id (prefix ++ "_" ++ Py.str n ++ "." ++ rest)%string = inr n
  /\ get_target_id (prefix ++ "/" ++ Py.str n ++ "." ++ rest)%string = inr n
  /\ get_target_id (Py.str n ++ "." ++ rest)%string = inr n.
Proof.
  intros Hslash Hunder.
  set (name := (Py.str n ++ "." ++ rest)%string).
  assert (Hname_slash : Str.has "/" name = false).
  { subst name. rewrite has_app. cbn. rewrite Hslash.
    now rewrite str_has_no. }
  assert (Hname_under : Str.has "_" name = false).
  { subst name. rewrite has_app. cbn. rewrite Hunder.
    now rewrite str_has_no. }
  assert (Hdot : Str.has "." (Py.str n) = false) by now apply str_has_no.
  assert (Hid : Str.int (Str.first_piece (Str.split "." name)) = inr n).
  { subst name. cbn [String.append].
    rewrite (first_piece_app "." (Py.str n) rest Hdot). apply int_str. }
  unfold get_target_id. repeat split.
  - change (prefix ++ "_" ++ name)%string with (prefix ++ String "_" name)%string.
    unfold Str.basename.
    rewrite (last_piece_extend "/" prefix (String "_" name))
      by (cbn; exact Hname_slash).
    rewrite last_piece_app, (split_none _ _ Hname_under). exact Hid.
  - change (prefix ++ "/" ++ name)%string with (prefix ++ String "/" name)%string.
    rewrite (basename_of_join prefix name Hname_slash).
    rewrite (split_none _ _ Hname_under). exact Hid.
  - unfold Str.basename.
    rewrite (split_none _ _ Hname_slash).
    change (Str.last_piece [name]) with name.
    rewrite (split_none _ _ Hname_under). exact Hid.
Qed.

Lemma get_target_id_reads_number_witness :
  Str.has "/" "final.csv" = false
  /\ Str.has "_" "final.csv" = false
  /\ get_target_id "/data/run_3/raw/target_-12.final.csv" = inr (-12)%Z.
Proof.
  split; [reflexivity|]. split; [reflexivity|].
  exact (proj1 (get_target_id_reads_number "/data/run_3/raw/target" "final.csv"
                  (-12) eq_refl eq_refl)).
Defined.

(** X12: the folders of a path have no part in the id: with underscores and
    digits of its own or not, a directory before the name changes nothing. *)
Theorem get_target_id_ignores_directory (dir name : string) :
  Str.has "/" name = false ->
  get_target_id (dir ++ "/" ++ name)%string = get_target_id name.
Proof.
  intros H. unfold get_target_id.
  change (dir ++ "/" ++ name)%string with (dir ++ String "/" name)%string.
  rewrite (basename_of_join dir name H).
  unfold Str.basename. rewrite (split_none _ _ H). reflexivity.
Qed.

Lemma get_target_id_ignores_directory_witness :
  Str.has "/" "target_7.csv" = false
  /\ get_target_id "/data/run_3/target_7.csv" = get_target_id "target_7.csv".
Proof.
  split; [reflexivity|].
  exact (get_target_id_ignores_directory "/data/run_3" "target_7.csv" eq_refl).
Defined.

Lemma lstrip_all (p : ascii -> bool) (s : string) :
  Str.all p s = true -> Str.all p (Str.lstrip s) = true.
Proof.
  induction s as [|a s IH]; cbn; [reflexivity|].
  destruct (Str.is_space a); [|now cbn].
  rewrite andb_true_iff. intros [_ H]. now apply IH.
Qed.

Lemma rstrip_all (p : ascii -> bool) (s : string) :
  Str.all p s = true -> Str.all p (Str.rstrip s) = true.
Proof.
  induction s as [|a s IH]; cbn; [reflexivity|].
  rewrite andb_true_iff. intros [Ha Hs]. specialize (IH Hs).
  destruct (Str.rstrip s) as [|b r].
  - destruct (Str.is_space a); cbn; [reflexivity|now rewrite Ha].
  - cbn [Str.all] in *. now rewrite Ha.
Qed.

Lemma digits_of_needs_digit (s : string) (after_digit : bool) (d : string) :
  Str.all (fun a => negb (Str.is_digit a)) s = true ->
  Str.digits_of after_digit s = Some d -> s = EmptyString.
Proof.
  destruct s as [|a s]; [reflexivity|]. cbn.
  rewrite andb_true_iff, negb_true_iff. intros [Ha Hs]. rewrite Ha.
  destruct (Ascii.eqb a "_" && after_digit); [|discriminate].
  destruct s as [|b s]; [discriminate|].
  cbn in Hs. apply andb_true_iff in Hs. destruct Hs as [Hb _].
  apply negb_true_iff in Hb. rewrite Hb. discriminate.
Qed.

Lemma int_needs_digit (s : string) :
  Str.all (fun a => negb (Str.is_digit a)) s = true ->
  Str.int s = inl Py.ValueError.
Proof.
  intros H. unfold Str.int.
  assert (Hl : Str.all (fun a => negb (Str.is_digit a)) (Str.strip s) = true)
    by (unfold Str.strip; now apply rstrip_all, lstrip_all).
  set (unsigned := match Str.strip s with
                   | EmptyString => Str.strip s
                   | String a rest =>
                       if Ascii.eqb a "-" || Ascii.eqb a "+" then rest
                       else Str.strip s
                   end).
  assert (Hu : Str.all (fun a => negb (Str.is_digit a)) unsigned = true).
  { subst unsigned. destruct (Str.strip s) as [|a r]; [reflexivity|].
    destruct (Ascii.eqb a "-" || Ascii.eqb a "+"); [|exact Hl].
    cbn in Hl. apply andb_true_iff in Hl. tauto. }
  destruct (Str.digits_of false unsigned) as [d|] eqn:E; [|reflexivity].
  pose proof (digits_of_needs_digit _ _ _ Hu E) as Hempty.
  rewrite Hempty in E. discriminate.
Qed.

(** X13: an ASCII path without any digit has no id: [get_target_id] raises
    [ValueError]. *)
Theorem get_target_id_needs_digit (x : string) :
  Str.all (fun a => Str.is_ascii a && negb (Str.is_digit a)) x = true ->
  get_target_id x = inl Py.ValueError.
Proof.
  intros H. unfold get_target_id, Str.basename.
  apply int_needs_digit, first_piece_all, split_all, last_piece_all, split_all,
    last_piece_all, split_all.
  revert H. apply all_weaken. intros a Ha.
  apply andb_true_iff in Ha. exact (proj2 Ha).
Qed.

Lemma get_target_id_needs_digit_witness :
  Str.all (fun a => Str.is_ascii a && negb (Str.is_digit a))
          "/data/raw/target_none.csv" = true
  /\ get_target_id "/data/raw/target_none.csv" = inl Py.ValueError.
Proof.
  split; [reflexivity|].
  exact (get_target_id_needs_digit "/data/raw/target_none.csv" eq_refl).
Defined.

(** ** The csv files of a folder *)

(** X14: the test on the names of the input folder takes a name exactly when
    it is "csv" or ends in ".csv"; so it takes ".csv" and the bare name
    "csv", and no name in capitals or with something after the extension. *)
Theorem is_csv_iff (f : string) :
  is_csv f = true
  <-> f = "csv"%string \/ exists stem, f = (stem ++ ".csv")%string.
Proof.
  unfold is_csv. rewrite String.eqb_eq. split.
  - intros H. destruct (last_piece_spec "." f) as (_ & [[_ Hall]|[pre Hpre]]).
    + left. congruence.
    + right. exists pre. rewrite H in Hpre. exact Hpre.
  - intros [->|[stem ->]]; [reflexivity|].
    change (stem ++ ".csv")%string with (stem ++ String "." "csv")%string.
    now rewrite last_piece_app.
Qed.

(** ** Sorting *)

Section SortFacts.

Variable A : Type.

Lemma insert_perm (kx : Z * A) (l : list (Z * A)) :
  Permutation (kx :: l) (insert kx l).
Proof.
  induction l as [|ky l IH]; cbn; [reflexivity|].
  destruct (fst kx <=? fst ky)%Z; [reflexivity|].
  rewrite perm_swap. now constructor.
Qed.

Lemma stable_sort_perm (l : list (Z * A)) : Permutation l (stable_sort l).
Proof.
  induction l as [|kx l IH]; cbn; [reflexivity|].
  rewrite <- insert_perm. now constructor.
Qed.

Lemma insert_in_order (kx : Z * A) (l : list (Z * A)) :
  in_order (map fst l) -> in_order (map fst (insert kx l)).
Proof.
  unfold in_order. induction l as [|ky l IH]; cbn; intros H.
  - repeat constructor.
  - inversion H as [|? ? Hl Hall]; subst.
    destruct (Z.leb_spec (fst kx) (fst ky)); cbn.
    + constructor; [exact H|]. constructor; [assumption|].
      eapply Forall_impl; [|exact Hall]. cbn. intros; lia.
    + constructor; [now apply IH|].
      assert (Hperm : Permutation (map fst (kx :: l)) (map fst (insert kx l)))
        by apply Permutation_map, insert_perm.
      eapply Permutation_Forall; [exact Hperm|].
      cbn. constructor; [lia | assumption].
Qed.

Lemma stable_sort_in_order (l : list (Z * A)) :
  in_order (map fst (stable_sort l)).
Proof.
  induction l as [|kx l IH]; cbn; [constructor|].
  now apply insert_in_order.
Qed.

(** The elements of one key keep their order. *)
Lemma insert_stable (k : Z) (kx : Z * A) (l : list (Z * A)) :
  in_order (map fst l) ->
  filter (fun ky => (fst ky =? k)%Z) (insert kx l)
  = filter (fun ky => (fst ky =? k)%Z) (kx :: l).
Proof.
  unfold in_order. induction l as [|ky l IH]; cbn [insert]; intros H;
    [reflexivity|].
  inversion H as [|? ? Hl Hall]; subst.
  destruct (Z.leb_spec (fst kx) (fst ky)); [reflexivity|].
  cbn [filter] in *. rewrite (IH Hl).
  destruct (Z.eqb_spec (fst kx) k), (Z.eqb_spec (fst ky) k);
    try reflexivity.
  lia.
Qed.

Lemma stable_sort_stable (k : Z) (l : list (Z * A)) :
  filter (fun ky => (fst ky =? k)%Z) (stable_sort l)
  = filter (fun ky => (fst ky =? k)%Z) l.
Proof.
  induction l as [|kx l IH]; cbn [stable_sort]; [reflexivity|].
  rewrite insert_stable by apply stable_sort_in_order.
  cbn [filter]. now rewrite IH.
Qed.

Lemma with_keys_spec (key : A -> Py.Exc + Z) (l : list A) (keyed : list (Z * A)) :
  with_keys key l = inr keyed ->
  map snd keyed = l /\ Forall (fun kx => key (snd kx) = inr (fst kx)) keyed.
Proof.
  revert keyed. induction l as [|x l IH]; cbn; intros keyed H.
  - injection H as <-. split; constructor.
  - destruct (key x) as [e|k] eqn:Hk; [discriminate|].
    destruct (with_keys key l) as [e|keyed'] eqn:Hl; [discriminate|].
    injection H as <-. destruct (IH keyed' eq_refl) as [Hm Hf].
    split; [cbn; now rewrite Hm|]. constructor; [exact Hk | exact Hf].
Qed.

(** The sort fails exactly when a key does, with the first failure. *)
Lemma with_keys_fails (key : A -> Py.Exc + Z) (l : list A) (e : Py.Exc) :
  with_keys key l = inl e ->
  exists before x after,
    l = before ++ x :: after
    /\ key x = inl e
    /\ Forall (fun y => exists k, key y = inr k) before.
Proof.
  induction l as [|x l IH]; cbn; [discriminate|].
  destruct (key x) as [e'|k] eqn:Hk.
  - intros [= <-]. exists [], x, l. repeat split; [exact Hk | constructor].
  - destruct (with_keys key l) as [e'|keyed]; [|discriminate].
    intros [= <-]. destruct (IH eq_refl) as (before & y & after & -> & Hy & Hb).
    exists (x :: before), y, after. repeat split; [exact Hy|].
    constructor; [now exists k | exact Hb].
Qed.


(** What [sort_by] returns: the same elements, in the order of their keys,
    those of one key in the order they had. *)
Lemma sort_by_spec (key : A -> Py.Exc + Z) (l sorted : list A) :
  sort_by key l = inr sorted ->
  exists keys,
    Permutation l sorted
    /\ Forall2 (fun x k => key x = inr k) sorted keys
    /\ in_order keys
    /\ forall k,
         filter (fun x => match key x with inr k' => (k' =? k)%Z | inl _ => false end)
                sorted
         = filter (fun x => match key x with inr k' => (k' =? k)%Z | inl _ => false end)
                  l.
Proof.
  unfold sort_by. destruct (with_keys key l) as [e|keyed] eqn:Hk; [discriminate|].
  intros [= <-]. destruct (with_keys_spec key l keyed Hk) as [Hm Hf].
  exists (map fst (stable_sort keyed)).
  assert (Hsf : Forall (fun kx => key (snd kx) = inr (fst kx)) (stable_sort keyed))
    by (eapply Permutation_Forall; [apply stable_sort_perm | exact Hf]).
  assert (Hfilter : forall (k : Z) (m : list (Z * A)),
             Forall (fun kx => key (snd kx) = inr (fst kx)) m ->
             filter (fun x => match key x with
                              | inr k' => (k' =? k)%Z | inl _ => false end)
                    (map snd m)
             = map snd (filter (fun ky => (fst ky =? k)%Z) m)).
  { intros k m Hm'. induction Hm' as [|kx m Hkx _ IH]; [reflexivity|].
    cbn [map filter]. rewrite Hkx, IH. now destruct (fst kx =? k)%Z. }
  split; [|split; [|split]].
  - rewrite <- Hm. apply Permutation_map, stable_sort_perm.
  - induction Hsf as [|kx m Hkx _ IH]; cbn; constructor; assumption.
  - apply stable_sort_in_order.
  - intros k. rewrite <- Hm.
    rewrite (Hfilter k _ Hsf), (Hfilter k _ Hf).
    now rewrite stable_sort_stable.
Qed.

(** With a key that never raises, the keys are those of [map]. *)
Lemma with_keys_fun (key : A -> Z) (l : list A) :
  with_keys (fun x => inr (key x)) l = inr (combine (map key l) l).
Proof.
  induction l as [|x l IH]; cbn; [reflexivity|]. now rewrite IH.
Qed.

(** A sort that returns has found a key for every element. *)
Lemma sort_by_keys (key : A -> Py.Exc + Z) (l sorted : list A) :
  sort_by key l = inr sorted ->
  Forall (fun x => exists k, key x = inr k) l.
Proof.
  unfold sort_by. destruct (with_keys key l) as [e|keyed] eqn:Hk; [discriminate|].
  intros _. destruct (with_keys_spec key l keyed Hk) as [Hm Hf].
  rewrite <- Hm, Forall_map. eapply Forall_impl; [|exact Hf].
  cbn. intros kx H. now exists (fst kx).
Qed.


End SortFacts.

(** ** The store *)

Lemma zrange_length (start : Z) (n : nat) : length (zrange start n) = n.
Proof. revert start. induction n; intros; cbn; [reflexivity|now rewrite IHn]. Qed.

Lemma zrange_app (start : Z) (n m : nat) :
  zrange start (n + m) = zrange start n ++ zrange (start + Z.of_nat n) m.
Proof.
  revert start. induction n as [|n IH]; intros start.
  - cbn. f_equal. lia.
  - cbn [Nat.add zrange app]. rewrite IH. do 3 f_equal. lia.
Qed.

Section RunFacts.

Variable Row : Type.
Variable disk : Disk Row.

Lemma frame_index (current : list Row) (id num j : Z) :
  map index (frame current id num j) = zrange (j + num) (length current).
Proof.
  revert j. induction current as [|row rest IH]; intros j; cbn; [reflexivity|].
  rewrite IH. do 2 f_equal. lia.
Qed.

Lemma frame_columns (current : list Row) (id num j : Z) :
  map columns (frame current id num j) = current.
Proof.
  revert j. induction current as [|row rest IH]; intros j; cbn; [reflexivity|].
  now rewrite IH.
Qed.

Lemma frame_target_id (current : list Row) (id num j : Z) :
  Forall (fun s => target_id s = id) (frame current id num j).
Proof.
  revert j. induction current as [|row rest IH]; intros j; cbn; constructor;
    [reflexivity | apply IH].
Qed.

Lemma frame_length (current : list Row) (id num j : Z) :
  length (frame current id num j) = length current.
Proof.
  revert j. induction current as [|row rest IH]; intros j; cbn; [reflexivity|].
  now rewrite IH.
Qed.


(** What the loop of [sorted_by_elements] leaves: the store as it was; the
    number of lines of every file when it is done. *)
Lemma count_lines_cons (f : string) (rest : list string) (i n : nat)
    (r : Run Row) :
  count_lines disk (f :: rest) i n r
  = let r1 := {| store := store r;
                 lines := lines r ++ [printed (progress i n f) CR] |} in
    match read_csv disk f with
    | inl e => halted (raised e) r1
    | inr current =>
        match count_lines disk rest (S i) n r1 with
        | done counts r2 => done (Z.of_nat (length current) :: counts) r2
        | halted h r2 => halted h r2
        end
    end.
Proof.
  cbn [count_lines]. unfold dbind, write.
  destruct (read_csv disk f); reflexivity.
Qed.

Lemma count_lines_run (files : list string) (i n : nat) (r : Run Row) :
  store (run_of (count_lines disk files i n r)) = store r
  /\ forall counts r',
       count_lines disk files i n r = done counts r' ->
       counts = map (fun f => Z.of_nat (length (lines_of disk f))) files.
Proof.
  revert i r. induction files as [|f rest IH]; intros i r.
  - cbn. split; [reflexivity|]. intros counts r' H.
    inversion H. reflexivity.
  - rewrite count_lines_cons. cbv zeta.
    destruct (read_csv disk f) as [e|current] eqn:Hread.
    + split; [reflexivity | discriminate].
    + match goal with |- context [count_lines disk rest (S i) n ?x] =>
        destruct (IH (S i) x) as [Hs Hc];
        destruct (count_lines disk rest (S i) n x) as [counts r1|h r1]
      end; cbn [run_of store] in *.
      * split; [exact Hs|]. intros counts' r' H.
        inversion H; subst. cbn [map]. unfold lines_of at 1. rewrite Hread.
        f_equal. now apply (Hc counts r').
      * split; [exact Hs | discriminate].
Qed.

Lemma count_lines_done (files : list string) (i n : nat) (r : Run Row) :
  (exists counts r', count_lines disk files i n r = done counts r')
  <-> Forall (fun f => exists rows, read_csv disk f = inr rows) files.
Proof.
  revert i r. induction files as [|f rest IH]; intros i r.
  - cbn. split; [constructor | intros _; now do 2 eexists].
  - rewrite count_lines_cons. cbv zeta.
    destruct (read_csv disk f) as [e|current] eqn:Hread.
    + split.
      * intros (counts & r' & H). discriminate.
      * intros H. inversion H as [|? ? [rows Hrows] _]. congruence.
    + match goal with |- context [count_lines disk rest (S i) n ?x] =>
        specialize (IH (S i) x);
        destruct (count_lines disk rest (S i) n x) as [counts r1|h r1]
      end.
      * split; [|intros _; now do 2 eexists].
        intros _. constructor; [now exists current|].
        apply IH. now do 2 eexists.
      * split.
        -- intros (counts & r' & H). discriminate.
        -- intros H. inversion H as [|? ? _ Hrest]. apply IH in Hrest.
           destruct Hrest as (counts & r' & Hrest). discriminate.
Qed.

Lemma sorted_by_elements_run (files : list string) (r : Run Row) :
  store (run_of (sorted_by_elements disk files r)) = store r
  /\ forall sorted r',
       sorted_by_elements disk files r = done sorted r' ->
       sort_by (fun f => inr (line_count disk f)) files = inr sorted.
Proof.
  unfold sorted_by_elements, dbind.
  destruct (count_lines_run files 0 (length files) r) as [Hs Hc].
  destruct (count_lines disk files 0 (length files) r) as [counts r1|h r1];
    cbn [run_of dret] in *.
  - split; [exact Hs|]. intros sorted r' H.
    inversion H; subst. rewrite (Hc counts r' eq_refl).
    unfold sort_by. now rewrite with_keys_fun.
  - split; [exact Hs | discriminate].
Qed.

Lemma fuse_cons (f : string) (rest : list string) (i n : nat) (num : Z)
    (r : Run Row) :
  fuse disk (f :: rest) i n num r
  = let r1 := {| store := store r;
                 lines := lines r ++ [printed (progress i n f) CR] |} in
    match read_csv disk f with
    | inl e => halted (raised e) r1
    | inr current =>
        match get_target_id f with
        | inl e => halted (raised e) r1
        | inr id =>
            match accept_frame disk (stored r) (frame current id num 0) with
            | inl e => halted (raised e) r1
            | inr _ =>
                fuse disk rest (S i) n (num + Z.of_nat (length current))
                  {| store := Some (stored r ++ frame current id num 0);
                     lines := lines r1 |}
            end
        end
    end.
Proof.
  cbn [fuse]. unfold dbind, write, append_store.
  destruct (read_csv disk f); cbn [dlift halt dret]; [reflexivity|].
  destruct (get_target_id f); cbn [dlift halt dret]; [reflexivity|].
  unfold stored. cbn [store lines].
  destruct (accept_frame disk _ _); reflexivity.
Qed.

(** The loop of [main], from a store whose index runs from 0 and with
    [num_elements] the number of its lines: the same holds afterwards,
    however the loop ends. *)
Lemma fuse_index (files : list string) (i n : nat) (num : Z) (r : Run Row) :
  map index (stored r) = zrange 0 (length (stored r)) ->
  num = Z.of_nat (length (stored r)) ->
  map index (stored (run_of (fuse disk files i n num r)))
  = zrange 0 (length (stored (run_of (fuse disk files i n num r))))
  /\ forall k r', fuse disk files i n num r = done k r' ->
                  k = Z.of_nat (length (stored r')).
Proof.
  revert i num r. induction files as [|f rest IH]; intros i num r Hidx Hnum.
  - cbn. split; [exact Hidx|].
    intros k r' H. inversion H; subst. reflexivity.
  - rewrite fuse_cons. cbv zeta.
    destruct (read_csv disk f) as [e|current];
      [split; [exact Hidx | discriminate]|].
    destruct (get_target_id f) as [e|id];
      [split; [exact Hidx | discriminate]|].
    destruct (accept_frame disk (stored r) (frame current id num 0));
      [split; [exact Hidx | discriminate]|].
    apply IH.
    + cbn [stored store]. rewrite map_app, length_app, zrange_app, Hidx.
      f_equal. rewrite frame_index, frame_length. f_equal. lia.
    + cbn [stored store]. rewrite length_app, frame_length. lia.
Qed.

End RunFacts.

Lemma in_order_app (l1 l2 : list Z) :
  in_order l1 -> in_order l2 ->
  Forall (fun x => Forall (Z.le x) l2) l1 ->
  in_order (l1 ++ l2).
Proof.
  unfold in_order. induction l1 as [|x l1 IH]; cbn; intros H1 H2 H12;
    [exact H2|].
  inversion H1; subst. inversion H12; subst.
  constructor; [now apply IH|].
  apply Forall_app. split; assumption.
Qed.

Lemma in_order_same (k : Z) (l : list Z) :
  Forall (fun x => x = k) l -> in_order l.
Proof.
  unfold in_order. induction 1 as [|x l -> Hl IH]; constructor; [exact IH|].
  eapply Forall_impl; [|exact Hl]. cbn. intros; lia.
Qed.

Section FuseFacts.

Variable Row : Type.
Variable disk : Disk Row.

(** When the loop is done the store has the lines of the files, file after
    file, after those it had. *)
Lemma fuse_columns (files : list string) (i n : nat) (num k : Z)
    (r r' : Run Row) :
  fuse disk files i n num r = done k r' ->
  map columns (stored r')
  = map columns (stored r) ++ concat (map (lines_of disk) files).
Proof.
  revert i num r. induction files as [|f rest IH]; intros i num r.
  - cbn. intros H. inversion H; subst. now rewrite app_nil_r.
  - rewrite fuse_cons. cbv zeta.
    destruct (read_csv disk f) as [e|current] eqn:Hread; [discriminate|].
    destruct (get_target_id f) as [e|id]; [discriminate|].
    destruct (accept_frame disk (stored r) (frame current id num 0));
      [discriminate|].
    intros H. apply IH in H. rewrite H. cbn [stored store map concat].
    replace (lines_of disk f) with current
      by (unfold lines_of; now rewrite Hread).
    now rewrite map_app, frame_columns, app_assoc.
Qed.


(** Over files whose ids are in order, the ids of the lines are in order. *)
Lemma fuse_order (files : list string) (keys : list Z) (i n : nat) (num : Z)
    (r : Run Row) :
  Forall2 (fun f k => get_target_id f = inr k) files keys ->
  in_order keys ->
  in_order (map target_id (stored r)) ->
  Forall (fun s => Forall (Z.le (target_id s)) keys) (stored r) ->
  in_order (map target_id (stored (run_of (fuse disk files i n num r)))).
Proof.
  intros Hkeys. revert i num r.
  induction Hkeys as [|f k rest keys Hk Hrest IH]; intros i num r Hord Hr Hle.
  - exact Hr.
  - rewrite fuse_cons. cbv zeta.
    destruct (read_csv disk f) as [e|current]; [exact Hr|].
    rewrite Hk.
    destruct (accept_frame disk (stored r) (frame current k num 0));
      [exact Hr|].
    inversion Hord as [|? ? Hord' Hall]; subst.
    pose proof (frame_target_id Row current k num 0) as Ht.
    apply IH; [exact Hord' | |]; cbn [stored store].
    + rewrite map_app. apply in_order_app; [exact Hr | |].
      * apply (in_order_same k). rewrite Forall_map. exact Ht.
      * rewrite Forall_map. eapply Forall_impl; [|exact Hle].
        cbn. intros s Hs. inversion Hs; subst.
        rewrite Forall_map. eapply Forall_impl; [|exact Ht].
        cbn. intros s' ->. assumption.
    + apply Forall_app. split.
      * eapply Forall_impl; [|exact Hle]. cbn. intros s Hs. now inversion Hs.
      * eapply Forall_impl; [|exact Ht]. cbn. intros s ->. exact Hall.
Qed.

End FuseFacts.

(** ** The run of main *)

Section MainFacts.

Variable Row : Type.
Variable disk : Disk Row.

Lemma ordering_run (by_count : bool) (files : list string) (r : Run Row) :
  store (run_of (ordering disk by_count files r)) = store r
  /\ forall sorted r',
       ordering disk by_count files r = done sorted r' ->
       sort_by (order_key disk by_count) files = inr sorted.
Proof.
  unfold ordering. destruct by_count; unfold dbind at 1; cbn [write].
  - match goal with |- context [sorted_by_elements disk files ?x] =>
      destruct (sorted_by_elements_run Row disk files x) as [Hs Hp]
    end.
    split; [exact Hs|]. intros sorted r' H. exact (Hp sorted r' H).
  - destruct (sort_by get_target_id files) as [e|sorted] eqn:E;
      cbn [dlift halt dret run_of store].
    + split; [reflexivity | discriminate].
    + split; [reflexivity|]. intros sorted' r' H. inversion H; subst.
      exact E.
Qed.

(** The run of [main], step by step. *)
Lemma main_run (project_dir the_input_path : string) (the_sort : bool)
    (the_output_file : string) :
  main disk project_dir the_input_path the_sort the_output_file fresh
  = let r0 := written fresh [log_info "making final data set from raw data"] in
    match check_extension [".h5"%string] the_output_file with
    | inl h => halted h r0
    | inr file =>
        let path := Path.join project_dir the_input_path in
        match listdir disk path with
        | inl e => halted (raised e) r0
        | inr names =>
            match ordering disk the_sort (csv_files disk path names) r0 with
            | halted h r1 => halted h r1
            | done all_files r1 =>
                let r2 := written r1 [log_info "Done: List of files is sorted"] in
                let target_file := target_path project_dir file in
                if path_exists disk target_file
                then halted (exited 0)
                       (written r2 [log_error ("Target file already exists: "
                                               ++ target_file)])
                else
                  match create_store disk target_file with
                  | inl e => halted (raised e) r2
                  | inr _ =>
                      match fuse disk all_files 0 (length all_files) 0
                              {| store := Some []; lines := lines r2 |} with
                      | halted h r3 => halted h r3
                      | done num_elements r3 =>
                          done tt
                            (written r3
                               [printed "" LF;
                                log_info ("We combined " ++ Py.str num_elements
                                          ++ " lines");
                                log_info ("File saved: " ++ target_file)])
                      end
                  end
            end
        end
    end.
Proof.
  unfold main, parse_args. unfold dbind at 1. cbn [write]. cbv zeta.
  unfold dbind at 1.
  destruct (check_extension [".h5"%string] the_output_file) as [h|file];
    [reflexivity|].
  cbn [dret input_path sort output_file]. unfold dbind at 1.
  destruct (listdir disk (Path.join project_dir the_input_path)) as [e|names];
    [reflexivity|].
  cbn [dlift dret]. unfold dbind at 1. fold (@fresh Row).
  unfold written at 1. cbn [store lines fresh app].
  change (if the_sort
          then dbind (write (log_info "Sort list of files by number of elements"))
                 (fun _ => sorted_by_elements disk
                             (csv_files disk (Path.join project_dir the_input_path) names))
          else dbind (write (log_info "Sort list of files by target id"))
                 (fun _ => dlift (sort_by get_target_id
                             (csv_files disk (Path.join project_dir the_input_path) names))))
    with (ordering disk the_sort
            (csv_files disk (Path.join project_dir the_input_path) names)).
  destruct (ordering disk the_sort _ _) as [all_files r1|h r1]; [|reflexivity].
  unfold dbind at 1. cbn [write].
  unfold target_file_of, target_path. cbn [output_file].
  destruct (path_exists disk _); [reflexivity|].
  unfold dbind at 1. unfold open_store.
  destruct (create_store disk _); [reflexivity|]. cbn [lines store].
  unfold written at 1. cbn [lines store].
  unfold dbind at 1.
  destruct (fuse disk all_files 0 (length all_files) 0 _) as [k r3|h r3];
    [|reflexivity].
  unfold dbind, write, written. cbn [store lines].
  now rewrite <- !app_assoc.
Qed.

End MainFacts.

(** ** The extension of the output file *)

Lemma rfind_bounds (c : ascii) (p : string) :
  (-1 <= Ospath.rfind c p < Z.of_nat (String.length p))%Z.
Proof.
  induction p as [|a p IH]; cbn [Ospath.rfind String.length]; [lia|].
  cbv zeta. destruct (0 <=? Ospath.rfind c p)%Z eqn:E; [lia|].
  destruct (Ascii.eqb a c); lia.
Qed.

Lemma rfind_none (c : ascii) (p : string) :
  Str.has c p = false -> Ospath.rfind c p = (-1)%Z.
Proof.
  induction p as [|a p IH]; cbn; [reflexivity|].
  rewrite orb_false_iff. intros [Ha Hp]. now rewrite (IH Hp), Ha.
Qed.

Lemma rfind_app_none (c : ascii) (a b : string) :
  Str.has c b = false -> Ospath.rfind c (a ++ b)%string = Ospath.rfind c a.
Proof.
  intros Hb. induction a as [|x a IH]; cbn.
  - now apply rfind_none.
  - now rewrite IH.
Qed.

Lemma rfind_app_at (c : ascii) (a b : string) :
  Str.has c b = false ->
  Ospath.rfind c (a ++ String c b)%string = Z.of_nat (String.length a).
Proof.
  intros Hb. induction a as [|x a IH]; cbn [String.append Ospath.rfind String.length].
  - rewrite (rfind_none c b Hb). cbn. now rewrite Ascii.eqb_refl.
  - rewrite IH. cbv zeta.
    destruct (0 <=? Z.of_nat (String.length a))%Z eqn:E; lia.
Qed.

Lemma take_app (a b : string) : Ospath.take (String.length a) (a ++ b) = a.
Proof. induction a as [|x a IH]; cbn; [now destruct b | now rewrite IH]. Qed.

Lemma drop_app (a b : string) : Ospath.drop (String.length a) (a ++ b) = b.
Proof. induction a as [|x a IH]; cbn; [now destruct b | exact IH]. Qed.

Lemma take_drop (n : nat) (p : string) :
  (Ospath.take n p ++ Ospath.drop n p)%string = p.
Proof.
  revert p. induction n as [|n IH]; intros [|a p]; cbn; try reflexivity.
  now rewrite IH.
Qed.

Lemma append_assoc (a b c : string) :
  ((a ++ b) ++ c = a ++ (b ++ c))%string.
Proof. induction a as [|x a IH]; cbn; [reflexivity | now rewrite IH]. Qed.

Lemma length_append (a b : string) :
  String.length (a ++ b) = (String.length a + String.length b)%nat.
Proof. induction a as [|x a IH]; cbn; [reflexivity | now rewrite IH]. Qed.

(** What [splitext] finds in a path that ends in [.h5]: the extension,
    unless the last component before it is only dots, or empty. *)
Lemma splitext_h5 (root : string) :
  Ospath.splitext (root ++ ".h5")
  = if named root then (root, ".h5"%string) else ((root ++ ".h5")%string, EmptyString).
Proof.
  unfold Ospath.splitext. cbv zeta.
  assert (Hdot : Ospath.rfind "." (root ++ ".h5") = Z.of_nat (String.length root))
    by now apply rfind_app_at.
  rewrite Hdot, Nat2Z.id, take_app, drop_app.
  unfold named, Str.basename.
  destruct (last_piece_spec "/" root) as [Hno [[Hnone Hl]|[pre Hpre]]].
  - rewrite Hl. rewrite rfind_app_none by reflexivity.
    rewrite (rfind_none _ _ Hnone).
    replace (Z.of_nat (String.length root) - (-1 + 1))%Z
      with (Z.of_nat (String.length root)) by lia.
    change (Z.to_nat (-1 + 1)) with 0%nat.
    assert (Hd : forall s, Ospath.drop 0 s = s) by now intros [|].
    rewrite Hd, Nat2Z.id, take_app.
    replace (-1 <? Z.of_nat (String.length root))%Z with true
      by (symmetry; apply Z.ltb_lt; lia).
    reflexivity.
  - set (l := Str.last_piece (Str.split "/" root)) in *.
    assert (Hsep : Ospath.rfind "/" (root ++ ".h5") = Z.of_nat (String.length pre)).
    { rewrite rfind_app_none by reflexivity.
      rewrite Hpre. now apply rfind_app_at. }
    assert (Hlen : String.length root = (String.length pre + S (String.length l))%nat)
      by (rewrite Hpre at 1; now rewrite length_append).
    rewrite Hsep, Hlen.
    replace (Z.of_nat (String.length pre) <? Z.of_nat (String.length pre + S (String.length l)))%Z
      with true by (symmetry; apply Z.ltb_lt; lia).
    replace (Z.to_nat (Z.of_nat (String.length pre) + 1))
      with (String.length (pre ++ "/")).
    2:{ rewrite length_append. cbn. lia. }
    replace (Z.to_nat (Z.of_nat (String.length pre + S (String.length l))
                       - (Z.of_nat (String.length pre) + 1)))
      with (String.length l) by lia.
    replace (root ++ ".h5")%string with ((pre ++ "/") ++ (l ++ ".h5"))%string.
    2:{ rewrite Hpre at 1. now rewrite !append_assoc. }
    now rewrite drop_app, take_app.
Qed.

(** X24: check_extension, the check that parse_args gives as the type of
    the output file, returns the file name, as it is, exactly when the name
    ends in [.h5] after a last component that is not made of dots only (so
    a name before the extension is needed: [.h5] alone is refused); on any
    other name it calls [parser.error], which ends the run with the exit
    status of a usage error. *)
Theorem check_extension_wants_h5 (filename : string) :
  ((exists root, filename = (root ++ ".h5")%string /\ named root = true)
   /\ check_extension [".h5"%string] filename = inr filename)
  \/ (~ (exists root, filename = (root ++ ".h5")%string /\ named root = true)
      /\ check_extension [".h5"%string] filename = inl (exited 2)).
Proof.
  unfold check_extension. cbv zeta. cbn [existsb].
  rewrite orb_false_r.
  destruct (snd (Ospath.splitext filename) =? ".h5")%string eqn:E;
    cbn [negb]; [left | right]; (split; [|reflexivity]).
  - apply String.eqb_eq in E. pose proof E as E'.
    unfold Ospath.splitext in E'. cbv zeta in E'.
    match type of E' with snd (if ?b then _ else _) = _ =>
      destruct b; cbn [snd] in E'; [|discriminate] end.
    pose proof (take_drop (Z.to_nat (Ospath.rfind "." filename))
                          filename) as Hp.
    rewrite E' in Hp. eexists. split; [symmetry; exact Hp|].
    pose proof (splitext_h5
                  (Ospath.take (Z.to_nat (Ospath.rfind "." filename))
                               filename)) as Hs.
    rewrite Hp in Hs. destruct (named _); [reflexivity|].
    rewrite Hs in E. discriminate.
  - intros (root & -> & Hroot). rewrite splitext_h5, Hroot in E.
    cbn in E. discriminate.
Qed.

(** ** What a run of main leaves *)

Section MainOutcome.

Variable Row : Type.
Variable disk : Disk Row.

Lemma check_extension_same (extensions : list string) (filename file : string) :
  check_extension extensions filename = inr file -> file = filename.
Proof.
  unfold check_extension. destruct (negb _); [discriminate | now intros [= <-]].
Qed.

(** A run of [main] ends before there is a store, or it goes through the
    loop over the sorted files with a store that starts empty. *)
Lemma main_outcome (project_dir the_input_path : string) (the_sort : bool)
    (the_output_file : string) :
  (exists h r,
      main disk project_dir the_input_path the_sort the_output_file fresh
      = halted h r
      /\ store r = None)
  \/ (exists all_files log,
        sort_by (order_key disk the_sort)
                (input_files disk project_dir the_input_path) = inr all_files
        /\ check_extension [".h5"%string] the_output_file = inr the_output_file
        /\ path_exists disk (target_path project_dir the_output_file) = false
        /\ main disk project_dir the_input_path the_sort the_output_file fresh
           = match fuse disk all_files 0 (length all_files) 0
                     {| store := Some []; lines := log |} with
             | halted h r3 => halted h r3
             | done num_elements r3 =>
                 done tt (written r3
                            (closing_lines num_elements
                               (target_path project_dir the_output_file)))
             end).
Proof.
  rewrite main_run. cbv zeta.
  destruct (check_extension [".h5"%string] the_output_file) as [h|file] eqn:Hext;
    [left; now do 2 eexists|].
  pose proof (check_extension_same _ _ _ Hext) as ->.
  unfold input_files.
  destruct (listdir disk (Path.join project_dir the_input_path)) as [e|names];
    [left; now do 2 eexists|].
  match goal with |- context [ordering disk the_sort ?fs ?x] =>
    destruct (ordering_run Row disk the_sort fs x) as [Hs Hsort];
    destruct (ordering disk the_sort fs x) as [all_files r1|h r1]
  end; cbn [run_of] in Hs; [|left; now do 2 eexists].
  destruct (path_exists disk (target_path project_dir the_output_file)) eqn:Hpath;
    [left; now do 2 eexists|].
  destruct (create_store disk (target_path project_dir the_output_file));
    [left; now do 2 eexists|].
  right. do 2 eexists. split; [exact (Hsort _ _ eq_refl)|].
  split; [reflexivity|]. split; [reflexivity|]. reflexivity.
Qed.

(** The loop is done only over files that can be read and have an id. *)
Lemma fuse_done (files : list string) (i n : nat) (num k : Z) (r r' : Run Row) :
  fuse disk files i n num r = done k r' -> Forall (usable disk) files.
Proof.
  revert i num r. induction files as [|f rest IH]; intros i num r;
    [constructor|].
  rewrite fuse_cons. cbv zeta.
  destruct (read_csv disk f) as [e|current] eqn:Hread; [discriminate|].
  destruct (get_target_id f) as [e|id] eqn:Hid; [discriminate|].
  destruct (accept_frame disk (stored r) (frame current id num 0));
    [discriminate|].
  intros H. constructor; [split; eexists; eassumption | exact (IH _ _ _ H)].
Qed.


(** The loop never loses the store. *)
Lemma fuse_keeps_store (files : list string) (i n : nat) (num : Z) (r : Run Row) :
  store r <> None -> store (run_of (fuse disk files i n num r)) <> None.
Proof.
  revert i num r. induction files as [|f rest IH]; intros i num r Hr;
    [exact Hr|].
  rewrite fuse_cons. cbv zeta.
  destruct (read_csv disk f) as [e|current]; [exact Hr|].
  destruct (get_target_id f) as [e|id]; [exact Hr|].
  destruct (accept_frame disk (stored r) (frame current id num 0));
    [exact Hr|].
  apply IH. discriminate.
Qed.


Lemma stored_written (r : Run Row) (more : list Line) :
  stored (written r more) = stored r.
Proof. reflexivity. Qed.


(** X16: a run of main that is done ends with three lines: an empty line
    on the terminal, then in the log the number of lines combined, which is
    the number of lines of the store, and the path of the store. *)
Theorem main_reports_count (project_dir the_input_path : string)
    (the_sort : bool) (the_output_file : string) (r : Run Row) :
  main disk project_dir the_input_path the_sort the_output_file fresh
  = done tt r ->
  exists before,
    lines r
    = before ++ closing_lines (Z.of_nat (length (stored r)))
                              (target_path project_dir the_output_file).
Proof.
  destruct (main_outcome project_dir the_input_path the_sort the_output_file)
    as [(h & r0 & -> & Hs) | (files & log & _ & _ & _ & ->)]; [discriminate|].
  match goal with |- context [fuse disk files ?i ?n ?k ?x] =>
    destruct (fuse_index Row disk files i n k x eq_refl eq_refl) as [_ Hnum];
    destruct (fuse disk files i n k x) as [num r3|h r3]
  end; [|discriminate].
  intros [= <-]. rewrite stored_written, <- (Hnum num r3 eq_refl).
  now exists (lines r3).
Qed.


(** X18: when a run of main is done, the store holds all the lines of all
    the csv files of the input folder and nothing else, file after file,
    the files in the order of their keys: the number of lines with --sort,
    the id without. *)
Theorem main_stores_every_line (project_dir the_input_path : string)
    (the_sort : bool) (the_output_file : string) (r : Run Row) :
  main disk project_dir the_input_path the_sort the_output_file fresh
  = done tt r ->
  exists files keys,
    Permutation (input_files disk project_dir the_input_path) files
    /\ Forall2 (fun f k => order_key disk the_sort f = inr k) files keys
    /\ in_order keys
    /\ map columns (stored r) = concat (map (lines_of disk) files).
Proof.
  destruct (main_outcome project_dir the_input_path the_sort the_output_file)
    as [(h & r0 & -> & Hs) | (files & log & Hsort & _ & _ & ->)]; [discriminate|].
  destruct (sort_by_spec _ _ _ _ Hsort) as (keys & Hperm & Hkeys & Hord & _).
  destruct (fuse disk files 0 (length files) 0 _) as [num r3|h r3] eqn:Hfuse;
    [|discriminate].
  intros [= <-]. exists files, keys. repeat split; try assumption.
  rewrite stored_written. now rewrite (fuse_columns Row disk _ _ _ _ _ _ _ Hfuse).
Qed.

(** X19: without --sort, the ids of the lines of the store never go down,
    whether the run is done or stops short. *)
Theorem ids_in_order_without_sort (project_dir the_input_path : string)
    (the_output_file : string) :
  in_order (map target_id
              (stored (run_of (main disk project_dir the_input_path false
                                    the_output_file fresh)))).
Proof.
  destruct (main_outcome project_dir the_input_path false the_output_file)
    as [(h & r & -> & Hs) | (files & log & Hsort & _ & _ & ->)].
  - cbn [run_of]. unfold stored. rewrite Hs. constructor.
  - destruct (sort_by_spec _ _ _ _ Hsort) as (keys & _ & Hkeys & Hord & _).
    match goal with |- context [fuse disk files ?i ?n ?k ?x] =>
      pose proof (fuse_order Row disk files keys i n k x Hkeys Hord) as Ho;
      destruct (fuse disk files i n k x) as [num r3|h r3]
    end; cbn [run_of] in *; [rewrite stored_written|]; apply Ho; constructor.
Qed.

(** X20: when the target file exists, main creates no store and is not
    done, whatever else holds. *)
Theorem existing_target_is_kept (project_dir the_input_path : string)
    (the_sort : bool) (the_output_file : string) :
  path_exists disk (target_path project_dir the_output_file) = true ->
  exists h r,
    main disk project_dir the_input_path the_sort the_output_file fresh
    = halted h r
    /\ store r = None.
Proof.
  intros Hpath.
  destruct (main_outcome project_dir the_input_path the_sort the_output_file)
    as [H | (files & log & _ & _ & Hfree & _)]; [exact H | congruence].
Qed.

(** X21: without --sort, one csv file of the input folder whose name gives
    no id stops main before the store is created: nothing is written, also
    not the files that have an id. *)
Theorem bad_id_stops_before_store (project_dir the_input_path : string)
    (the_output_file : string) (f : string) (e : Py.Exc) :
  In f (input_files disk project_dir the_input_path) ->
  get_target_id f = inl e ->
  exists h r,
    main disk project_dir the_input_path false the_output_file fresh
    = halted h r
    /\ store r = None.
Proof.
  intros Hf He.
  destruct (main_outcome project_dir the_input_path false the_output_file)
    as [H | (files & log & Hsort & _)]; [exact H|].
  apply sort_by_keys in Hsort. rewrite Forall_forall in Hsort.
  destruct (Hsort f Hf) as [k Hk]. cbn in Hk. congruence.
Qed.

(** X22: with --sort the same file is met only in the loop: when all the
    files can be read and the store can be created, main stops with a store
    left behind. *)
Theorem bad_id_with_sort_leaves_store (project_dir the_input_path : string)
    (the_output_file : string) (f : string) (e : Py.Exc) :
  check_extension [".h5"%string] the_output_file = inr the_output_file ->
  In f (input_files disk project_dir the_input_path) ->
  get_target_id f = inl e ->
  Forall (fun f => exists rows, read_csv disk f = inr rows)
         (input_files disk project_dir the_input_path) ->
  path_exists disk (target_path project_dir the_output_file) = false ->
  create_store disk (target_path project_dir the_output_file) = inr tt ->
  exists h r,
    main disk project_dir the_input_path true the_output_file fresh
    = halted h r
    /\ store r <> None.
Proof.
  intros Hext Hf He Hread Hfree Hcreate.
  rewrite main_run. cbv zeta. rewrite Hext, Hfree, Hcreate.
  unfold input_files in Hf, Hread.
  destruct (listdir disk (Path.join project_dir the_input_path)) as [e'|names];
    [destruct Hf|].
  match goal with |- context [ordering disk true ?fs ?x] =>
    destruct (ordering_run Row disk true fs x) as [_ Hsort];
    assert (Hdone : exists sorted r', ordering disk true fs x = done sorted r')
  end.
  { unfold ordering, dbind at 1. cbn [write]. unfold sorted_by_elements, dbind.
    match goal with |- context [count_lines disk ?fs ?i ?n ?x] =>
      destruct (proj2 (count_lines_done Row disk fs i n x) Hread)
        as (counts & r' & ->)
    end. now do 2 eexists. }
  destruct Hdone as (sorted & r1 & Hdone). rewrite Hdone.
  specialize (Hsort _ _ Hdone).
  destruct (sort_by_spec _ _ _ _ Hsort) as (keys & Hperm & _).
  match goal with |- context [fuse disk sorted ?i ?n ?k ?x] =>
    pose proof (fuse_keeps_store sorted i n k x) as Hkeep;
    destruct (fuse disk sorted i n k x) as [num r3|h r3] eqn:Hfuse
  end.
  - apply fuse_done in Hfuse. rewrite Forall_forall in Hfuse.
    destruct (Hfuse f (Permutation_in _ Hperm Hf)) as [_ [id Hid]]. congruence.
  - do 2 eexists. split; [reflexivity|]. apply Hkeep. discriminate.
Qed.


End MainOutcome.

(** ** sorted_by_elements *)

Section SortedByElements.

Variable Row : Type.
Variable disk : Disk Row.

(** X25: what sorted_by_elements returns is the files it was given, each
    once more, in the order of their numbers of lines from the smallest,
    those with as many lines in the order they came in; the store is not
    touched. *)
Theorem sorted_by_elements_sorts (files sorted : list string) (r r' : Run Row) :
  sorted_by_elements disk files r = done sorted r' ->
  Permutation files sorted
  /\ in_order (map (line_count disk) sorted)
  /\ (forall k, filter (has_count disk k) sorted
                = filter (has_count disk k) files)
  /\ store r' = store r.
Proof.
  intros H. destruct (sorted_by_elements_run Row disk files r) as [Hs Hsort].
  rewrite H in Hs. cbn [run_of] in Hs.
  destruct (sort_by_spec _ _ _ _ (Hsort _ _ H))
    as (keys & Hperm & Hkeys & Hord & Hst).
  split; [exact Hperm|]. split; [|split; [exact Hst | exact Hs]].
  replace (map (line_count disk) sorted) with keys; [exact Hord|].
  clear -Hkeys. induction Hkeys as [|f k fs ks Hk _ IH]; [reflexivity|].
  cbn [map]. injection Hk as <-. now rewrite IH.
Qed.

(** X26: sorted_by_elements returns exactly when every file it is given can
    be read; one that cannot be read makes it raise. *)
Theorem sorted_by_elements_reads_all (files : list string) (r : Run Row) :
  (exists sorted r', sorted_by_elements disk files r = done sorted r')
  <-> Forall (fun f => exists rows, read_csv disk f = inr rows) files.
Proof.
  rewrite <- (count_lines_done Row disk files 0 (length files) r).
  unfold sorted_by_elements, dbind.
  destruct (count_lines disk files 0 (length files) r) as [counts r1|h r1].
  - split; intros _; now do 2 eexists.
  - split; intros (x & r' & H); discriminate.
Qed.

End SortedByElements.

(** ** The run on the example folder *)

Lemma main_reports_count_witness :
  exists before,
    lines (run_of (example_run false))
    = before ++ closing_lines 3 "/project/data/processed/out.h5".
Proof.
  apply (main_reports_count nat example_disk "/project" "raw" false "out.h5"
           (run_of (example_run false))).
  vm_compute. reflexivity.
Defined.

Lemma main_stores_every_line_witness :
  exists files keys,
    Permutation (input_files example_disk "/project" "raw") files
    /\ Forall2 (fun f k => order_key example_disk true f = inr k) files keys
    /\ in_order keys
    /\ map columns (stored (run_of (example_run true)))
       = concat (map (lines_of example_disk) files).
Proof.
  apply (main_stores_every_line nat example_disk "/project" "raw" true "out.h5"
           (run_of (example_run true))).
  vm_compute. reflexivity.
Defined.

Lemma existing_target_is_kept_witness :
  exists h r,
    main (example_folder ["target_1.csv"%string] true)
         "/project" "raw" false "out.h5" fresh
    = halted h r
    /\ store r = None.
Proof.
  apply existing_target_is_kept. reflexivity.
Defined.

Lemma bad_id_stops_before_store_witness :
  exists h r,
    main (example_folder ["target_2.csv"; "extra.csv"]%string false)
         "/project" "raw" false "out.h5" fresh
    = halted h r
    /\ store r = None.
Proof.
  apply (bad_id_stops_before_store nat
           (example_folder ["target_2.csv"; "extra.csv"]%string false)
           "/project" "raw" "out.h5" "/project/raw/extra.csv" Py.ValueError).
  - vm_compute. right. left. reflexivity.
  - vm_compute. reflexivity.
Defined.

Lemma bad_id_with_sort_leaves_store_witness :
  exists h r,
    main (example_folder ["target_2.csv"; "extra.csv"]%string false)
         "/project" "raw" true "out.h5" fresh
    = halted h r
    /\ store r <> None.
Proof.
  apply (bad_id_with_sort_leaves_store nat
           (example_folder ["target_2.csv"; "extra.csv"]%string false)
           "/project" "raw" "out.h5" "/project/raw/extra.csv" Py.ValueError).
  - vm_compute. reflexivity.
  - vm_compute. right. left. reflexivity.
  - vm_compute. reflexivity.
  - vm_compute.
    repeat first [apply Forall_nil | apply Forall_cons | eexists; reflexivity].
  - reflexivity.
  - reflexivity.
Defined.


Lemma sorted_by_elements_sorts_witness :
  Permutation ["/project/raw/target_2.csv"; "/project/raw/target_1.csv"]%string
              ["/project/raw/target_1.csv"; "/project/raw/target_2.csv"]%string
  /\ in_order (map (line_count example_disk)
                 ["/project/raw/target_1.csv"; "/project/raw/target_2.csv"]%string)
  /\ (forall k,
        filter (has_count example_disk k)
               ["/project/raw/target_1.csv"; "/project/raw/target_2.csv"]%string
        = filter (has_count example_disk k)
                 ["/project/raw/target_2.csv"; "/project/raw/target_1.csv"]%string)
  /\ store (run_of (sorted_by_elements example_disk
                      ["/project/raw/target_2.csv"; "/project/raw/target_1.csv"]%string
                      fresh))
     = store fresh.
Proof.
  apply (sorted_by_elements_sorts nat example_disk).
  vm_compute. reflexivity.
Defined.
